(** * AntNet: the graph, pheromone and ant-colony core

    A shallow embedding of [server/graph.js], [server/game.js],
    [client/src/game/ant.js] and the [AntColony] class, with the
    properties of the design document checked against it, followed by
    further properties of the code itself.

    Conventions of the embedding.
    - A JavaScript number is an exact rational ([Q]): rounding, [NaN] and
      the infinities of floating point are not modelled, with one
      exception: [Math.floor(totalAnts * ratio)] in [determineAntRole],
      where the rounding of the product decides the result, is computed on
      the nearest doubles ([toDouble]).  [Infinity] only
      occurs as a node distance and has its own constructor; a score that
      may be [undefined] or [NaN] is an [option Q].  [Math.sqrt] has no
      counterpart in [Q] and is a parameter of the functions that call it;
      the results of [Math.random] are read from a stream [random] by a
      counter kept in the state.
    - A plain object used as a dictionary and a [Map] are finite maps
      ([gmap string _]); an array is a list.  A plain object also answers
      to the names it inherits ([constructor], [toString], ...), which a
      finite map does not: the model stands for the code on ids that are
      none of these names ([ownKey]), and the properties below that speak
      of ids that are no nodes say so.
    - A loop that the source leaves unbounded takes a fuel argument and
      yields [OutOfFuel] when it runs dry; reading a property of
      [undefined] or [null] is the outcome [Threw] ([None] inside the
      loops).
    - The order in which [for ... in], [Object.keys] and the entries of a
      [Map] visit a collection is an argument ([keys], [entries]) of the
      functions that depend on it.
    - Left out: everything that only feeds the renderer and goes through
      the THREE library (colours, scales, the render-data getters, and the
      interpolated position of an ant, of which only the failure of
      [lerpVectors] on a missing position is kept), the player colours and
      [addPlayer],
      the network layer, the node part of the published game state, and
      the construction of the default world apart from the node
      descriptions it passes to [addNode]. *)

From Stdlib Require Import QArith Qminmax Qround Qabs Qpower Lqa ZArith.
From stdpp Require Import gmap strings list fin_maps.

(** ** JavaScript numbers and outcomes *)

(** [a < b] on numbers. *)
Definition Qltb (a b : Q) : bool := negb (Qle_bool b a).

(** The double nearest to a rational, ties to the even mantissa: what a
    decimal literal denotes and what an arithmetic operation returns for an
    exact result [q].  The mantissa [m] has 53 bits, [2^52 <= m <= 2^53];
    the exponent is not bounded, so that the values below the normal range
    of binary64 and above it are not modelled. *)
Definition toDouble (q : Q) : Q :=
  if Qeq_bool q 0 then 0%Q
  else
    let a := Qabs q in
    let e0 := (Z.log2 (Qnum a) - Z.log2 (Zpos (Qden a)) - 52)%Z in
    let e := if Qltb (a / 2 ^ e0) (2 ^ 52) then (e0 - 1)%Z else e0 in
    let x := (a / 2 ^ e)%Q in
    let k := Qfloor x in
    let r := (x - inject_Z k)%Q in
    let m := if Qltb r (1 # 2) then k
             else if Qltb (1 # 2) r then (k + 1)%Z
             else if Z.even k then k else (k + 1)%Z in
    let v := (inject_Z m * 2 ^ e)%Q in
    if Qltb q 0 then (- v)%Q else v.

(** [Math.min(a, b)]. *)
Definition js_min (a b : Q) : Q := if Qle_bool a b then a else b.

(** [x || d] for an optional number: [undefined] and [0] are falsy. *)
Definition num_or (x : option Q) (d : Q) : Q :=
  match x with
  | Some q => if Qeq_bool q 0 then d else q
  | None => d
  end.

(** [x || d] for an optional string: [undefined] and the empty string are
    falsy. *)
Definition str_or (x : option string) (d : string) : string :=
  match x with
  | Some s => if decide (s = EmptyString) then d else s
  | None => d
  end.

Inductive Outcome (A : Type) : Type :=
  | Returned (a : A)
  | Threw
  | OutOfFuel.
Arguments Returned {A} a.
Arguments Threw {A}.
Arguments OutOfFuel {A}.

(** ** server/graph.js *)

Module Graph.

Inductive NodeType := NORMAL | NEST | FOOD_SOURCE.

#[global] Instance NodeType_eq_dec : EqDecision NodeType.
Proof. solve_decision. Defined.

Record Position := mkPosition { px : Q; py : Q; pz : Q }.

(** [distanceToNest]: a hop count or [Infinity]. *)
Inductive Distance := Hops (n : nat) | Infinity.

Record Node := mkNode {
  id : string;
  type : NodeType;
  position : Position;
  size : Q;
  capacity : Q;
  resources : Q;
  distanceToNest : Distance;
  boosted : bool;
  disrupted : bool;
  boostTimer : Q;
  disruptTimer : Q;
  resourceTimer : option Q  (* absent until [updateNodes] first sets it *)
}.

(** The entry objects stored in [graph.pheromones]. *)
Record PheromoneEntry := mkEntry { level : Q; playerId : option string }.

Record t := mkGraph {
  nodes : gmap string Node;
  edges : gmap string (list string);
  pheromones : gmap string PheromoneEntry
}.

(** [new Graph()] *)
Definition empty : t := mkGraph ∅ ∅ ∅.

(** The argument object of [addNode]; every property may be missing. *)
Record NodeData := mkNodeData {
  nd_id : option string;
  nd_type : option NodeType;
  nd_position : option Position;
  nd_size : option Q;
  nd_capacity : option Q;
  nd_resources : option Q
}.

(** [addNode(nodeData)]; [fresh] is what [generateId()] returns when it is
    called. *)
Definition addNode (fresh : string) (nodeData : NodeData) (g : t) : string * t :=
  let i := str_or (nd_id nodeData) fresh in
  let n := {|
    id := i;
    type := default NORMAL (nd_type nodeData);
    position := default (mkPosition 0 0 0) (nd_position nodeData);
    size := num_or (nd_size nodeData) 1;
    capacity := num_or (nd_capacity nodeData) 10;
    resources := num_or (nd_resources nodeData) 0;
    distanceToNest := Infinity;
    boosted := false;
    disrupted := false;
    boostTimer := 0;
    disruptTimer := 0;
    resourceTimer := None
  |} in
  (i, mkGraph (<[i := n]> (nodes g)) (<[i := []]> (edges g)) (pheromones g)).

(** [hasEdge(node1Id, node2Id)]: [undefined] (no list) is falsy. *)
Definition hasEdge (g : t) (node1Id node2Id : string) : bool :=
  match edges g !! node1Id with
  | Some l => bool_decide (node2Id ∈ l)
  | None => false
  end.

(** [getNeighbors(nodeId)] *)
Definition getNeighbors (g : t) (nodeId : string) : list string :=
  default [] (edges g !! nodeId).

(** [getNode(nodeId)] *)
Definition getNode (g : t) (nodeId : string) : option Node := nodes g !! nodeId.

(** [getNodePosition(nodeId)] *)
Definition getNodePosition (g : t) (nodeId : string) : option Position :=
  position <$> nodes g !! nodeId.

(** [this.edges[a].push(b)]; pushing on a missing list throws. *)
Definition pushEdge (es : gmap string (list string)) (a b : string)
  : option (gmap string (list string)) :=
  match es !! a with
  | Some l => Some (<[a := l ++ [b]]> es)
  | None => None
  end.

(** [addEdge(node1Id, node2Id)] *)
Definition addEdge (g : t) (node1Id node2Id : string) : Outcome (bool * t) :=
  if bool_decide (nodes g !! node1Id = None) || bool_decide (nodes g !! node2Id = None)
  then Returned (false, g)
  else if hasEdge g node1Id node2Id then Returned (true, g)
  else match pushEdge (edges g) node1Id node2Id with
       | None => Threw
       | Some es1 =>
         match pushEdge es1 node2Id node1Id with
         | None => Threw
         | Some es2 => Returned (true, mkGraph (nodes g) es2 (pheromones g))
         end
       end.

(** *** calculateDistances *)

Definition setDistance (n : Node) (d : Distance) : Node :=
  {| id := id n; type := type n; position := position n; size := size n;
     capacity := capacity n; resources := resources n;
     distanceToNest := d;
     boosted := boosted n; disrupted := disrupted n;
     boostTimer := boostTimer n; disruptTimer := disruptTimer n;
     resourceTimer := resourceTimer n |}.

(** [d + 1] *)
Definition dist_succ (d : Distance) : Distance :=
  match d with
  | Hops n => Hops (S n)
  | Infinity => Infinity
  end.

(** [a < b] *)
Definition dist_ltb (a b : Distance) : bool :=
  match a, b with
  | Hops x, Hops y => bool_decide (x < y)%nat
  | Hops _, Infinity => true
  | Infinity, _ => false
  end.

(** The [for (const neighborId of neighbors)] loop of one queue step. *)
Fixpoint relaxNeighbors (visited : gset string) (currentDistance : Distance)
    (neighbors : list string) (ns : gmap string Node) (queue : list string)
  : option (gmap string Node * list string) :=
  match neighbors with
  | [] => Some (ns, queue)
  | neighborId :: rest =>
    if bool_decide (neighborId ∈ visited)
    then relaxNeighbors visited currentDistance rest ns queue
    else
      match ns !! neighborId with
      | None => None
      | Some neighbor =>
        let newDistance := dist_succ currentDistance in
        if dist_ltb newDistance (distanceToNest neighbor)
        then relaxNeighbors visited currentDistance rest
               (<[neighborId := setDistance neighbor newDistance]> ns)
               (queue ++ [neighborId])
        else relaxNeighbors visited currentDistance rest ns queue
      end
  end.

(** The [while (queue.length > 0)] loop. *)
Fixpoint distanceLoop (fuel : nat) (es : gmap string (list string))
    (ns : gmap string Node) (queue : list string) (visited : gset string)
  : Outcome (gmap string Node) :=
  match queue with
  | [] => Returned ns
  | currentId :: queue' =>
    match fuel with
    | O => OutOfFuel
    | S fuel' =>
      if bool_decide (currentId ∈ visited)
      then distanceLoop fuel' es ns queue' visited
      else
        let visited' := {[currentId]} ∪ visited in
        match ns !! currentId with
        | None => Threw
        | Some current =>
          match relaxNeighbors visited' (distanceToNest current)
                  (default [] (es !! currentId)) ns queue' with
          | None => Threw
          | Some (ns', queue'') => distanceLoop fuel' es ns' queue'' visited'
          end
        end
    end
  end.

(** [calculateDistances(targetNodeId)] *)
Definition calculateDistances (fuel : nat) (g : t) (targetNodeId : string)
  : Outcome t :=
  let reset := (λ n, setDistance n Infinity) <$> nodes g in
  let seeded :=
    match reset !! targetNodeId with
    | Some n => <[targetNodeId := setDistance n (Hops 0)]> reset
    | None => reset
    end in
  match distanceLoop fuel (edges g) seeded [targetNodeId] ∅ with
  | Returned ns => Returned (mkGraph ns (edges g) (pheromones g))
  | Threw => Threw
  | OutOfFuel => OutOfFuel
  end.

(** *** findPath *)

(** A number that may be [undefined] or [NaN]: both are falsy, make every
    comparison false and turn a sum into [NaN], so one [None] stands for
    either, and storing [NaN] under a key is modelled by removing the key. *)
Definition js_add (a b : option Q) : option Q :=
  match a, b with
  | Some x, Some y => Some (x + y)%Q
  | _, _ => None
  end.

Definition js_lt (a b : option Q) : bool :=
  match a, b with
  | Some x, Some y => Qltb x y
  | _, _ => false
  end.

(** [!x] *)
Definition js_not (a : option Q) : bool :=
  match a with
  | Some x => Qeq_bool x 0
  | None => true
  end.

Definition setNum (k : string) (v : option Q) (m : gmap string Q) : gmap string Q :=
  match v with
  | Some q => <[k := q]> m
  | None => delete k m
  end.

Record Search := mkSearch {
  openSet : list string;
  cameFrom : gmap string string;
  gScore : gmap string Q;
  fScore : gmap string Q
}.

Section WithSqrt.

(** [Math.sqrt] *)
Variable sqrtQ : Q -> Q.

(** [heuristic(node1Id, node2Id)]; [None] when a node is missing (reading
    [position] of [undefined] throws). *)
Definition heuristic (g : t) (node1Id node2Id : string) : option Q :=
  match nodes g !! node1Id, nodes g !! node2Id with
  | Some n1, Some n2 =>
    let pos1 := position n1 in
    let pos2 := position n2 in
    Some (sqrtQ ((px pos1 - px pos2) ^ 2 + (py pos1 - py pos2) ^ 2
                 + (pz pos1 - pz pos2) ^ 2))%Q
  | _, _ => None
  end.

(** The [while (cameFrom[current])] loop of [reconstructPath]; the empty
    string is falsy. *)
Fixpoint reconstructLoop (fuel : nat) (cf : gmap string string)
    (current : string) (path : list string) : Outcome (list string) :=
  match cf !! current with
  | None => Returned path
  | Some prev =>
    if decide (prev = EmptyString) then Returned path
    else match fuel with
         | O => OutOfFuel
         | S fuel' => reconstructLoop fuel' cf prev (prev :: path)
         end
  end.

(** [reconstructPath(cameFrom, current)] *)
Definition reconstructPath (fuel : nat) (cf : gmap string string)
    (current : string) : Outcome (list string) :=
  reconstructLoop fuel cf current [current].

(** The scan [for (let i = 1; i < openSet.length; i++)] for the lowest
    fScore; [rest] is what remains of the open set from index [i] on. *)
Fixpoint lowestFrom (fs : gmap string Q) (rest : list string) (i : nat)
    (current : string) (lowestFScore : option Q) (lowestIndex : nat)
  : string * nat :=
  match rest with
  | [] => (current, lowestIndex)
  | nodeId :: rest' =>
    if js_lt (fs !! nodeId) lowestFScore
    then lowestFrom fs rest' (S i) nodeId (fs !! nodeId) i
    else lowestFrom fs rest' (S i) current lowestFScore lowestIndex
  end.

(** The [for (const neighborId of neighbors)] loop of one expansion. *)
Fixpoint expand (g : t) (endNodeId current : string) (neighbors : list string)
    (st : Search) : option Search :=
  match neighbors with
  | [] => Some st
  | neighborId :: rest =>
    match nodes g !! neighborId with
    | None => None
    | Some node =>
      if disrupted node then expand g endNodeId current rest st
      else
        let tentativeGScore := js_add (gScore st !! current) (Some 1%Q) in
        if js_not (gScore st !! neighborId)
           || js_lt tentativeGScore (gScore st !! neighborId)
        then
          let cf := <[neighborId := current]> (cameFrom st) in
          let gs := setNum neighborId tentativeGScore (gScore st) in
          match heuristic g neighborId endNodeId with
          | None => None
          | Some h =>
            let fs := setNum neighborId (js_add (gs !! neighborId) (Some h))
                        (fScore st) in
            let os := if bool_decide (neighborId ∈ openSet st)
                      then openSet st else openSet st ++ [neighborId] in
            expand g endNodeId current rest (mkSearch os cf gs fs)
          end
        else expand g endNodeId current rest st
    end
  end.

(** The [while (openSet.length > 0)] loop. *)
Fixpoint findPathLoop (fuel : nat) (g : t) (endNodeId : string) (st : Search)
  : Outcome (list string) :=
  match openSet st with
  | [] => Returned []
  | first :: rest =>
    match fuel with
    | O => OutOfFuel
    | S fuel' =>
      let '(current, lowestIndex) :=
        lowestFrom (fScore st) rest 1 first (fScore st !! first) 0 in
      let os := delete lowestIndex (openSet st) in
      if decide (current = endNodeId)
      then reconstructPath fuel' (cameFrom st) current
      else
        match expand g endNodeId current (getNeighbors g current)
                (mkSearch os (cameFrom st) (gScore st) (fScore st)) with
        | None => Threw
        | Some st' => findPathLoop fuel' g endNodeId st'
        end
    end
  end.

(** [findPath(startNodeId, endNodeId)] *)
Definition findPath (fuel : nat) (g : t) (startNodeId endNodeId : string)
  : Outcome (list string) :=
  match heuristic g startNodeId endNodeId with
  | None => Threw
  | Some h =>
    findPathLoop fuel g endNodeId
      (mkSearch [startNodeId] ∅ {[startNodeId := 0%Q]} {[startNodeId := h]})
  end.

End WithSqrt.

(** *** Lookups by position and the edge list *)

(** [arePositionsEqual(pos1, pos2)]: the tolerance is 0.1 and only [x] and
    [z] are compared. *)
Definition arePositionsEqual (pos1 pos2 : Position) : bool :=
  Qltb (Qabs (px pos1 - px pos2)) 0.1 && Qltb (Qabs (pz pos1 - pz pos2)) 0.1.

(** [getNodeIdByPosition(position)]; [keys] are the keys of [this.nodes] in
    the order in which [for ... in] visits them.  [None] is [null]; reading
    the position of a key that is no node throws. *)
Fixpoint getNodeIdByPosition (keys : list string) (g : t) (pos : Position)
  : Outcome (option string) :=
  match keys with
  | [] => Returned None
  | nodeId :: rest =>
    match nodes g !! nodeId with
    | None => Threw
    | Some node =>
      if arePositionsEqual (position node) pos then Returned (Some nodeId)
      else getNodeIdByPosition rest g pos
    end
  end.

(** [getEdges()]; [keys] are the keys of [this.edges] in the order in which
    [for ... in] visits them; [fromId < toId] compares the strings
    character by character.  Iterating over a missing list throws. *)
Fixpoint getEdges (keys : list string) (g : t) : Outcome (list (string * string)) :=
  match keys with
  | [] => Returned []
  | fromId :: rest =>
    match edges g !! fromId with
    | None => Threw
    | Some l =>
      match getEdges rest g with
      | Returned edgeList =>
        Returned (map (λ toId, (fromId, toId))
                    (List.filter (λ toId, String.ltb fromId toId) l) ++ edgeList)
      | other => other
      end
    end
  end.

End Graph.

(** The key of a pheromone entry: the template string
    [`${fromId},${toId},${type}`]. *)
Definition pheromoneKey (fromId toId type : string) : string :=
  fromId +:+ "," +:+ toId +:+ "," +:+ type.

(** ** server/game.js *)

Module GameManager.

(** A player; the display colour is left out. *)
Record Player := mkPlayer {
  p_id : string;
  p_name : string;
  energy : Q;
  score : Q
}.

Record t := mkGame {
  players : gmap string Player;
  graph : Graph.t
}.

Definition setEnergy (p : Player) (e : Q) : Player :=
  {| p_id := p_id p; p_name := p_name p; energy := e; score := score p |}.

Definition gridSize : Z := 5.
Definition spacing : Z := 10.

(** The object [createDefaultGraph] passes to [addNode] for the nest. *)
Definition nestNodeData : Graph.NodeData :=
  {| Graph.nd_id := None;
     Graph.nd_type := Some Graph.NEST;
     Graph.nd_position := Some (Graph.mkPosition 0 0 0);
     Graph.nd_size := Some 2%Q;
     Graph.nd_capacity := Some 20%Q;
     Graph.nd_resources := Some 0%Q |}.

(** The object [createDefaultGraph] passes to [addNode] for the grid cell
    [(x, z)]; [height] is the value of [Math.sin(distance) * 2]. *)
Definition cellNodeData (x z : Z) (height : Q) : Graph.NodeData :=
  let corner := (gridSize - 1 <=? Z.abs x)%Z && (gridSize - 1 <=? Z.abs z)%Z in
  let nodeType := if corner then Graph.FOOD_SOURCE else Graph.NORMAL in
  let resources := if corner then 100%Q else 0%Q in
  {| Graph.nd_id := None;
     Graph.nd_type := Some nodeType;
     Graph.nd_position :=
       Some (Graph.mkPosition (inject_Z (x * spacing)) height (inject_Z (z * spacing)));
     Graph.nd_size := Some 1%Q;
     Graph.nd_capacity := Some 10%Q;
     Graph.nd_resources := Some resources |}.

(** The body of the loop of [updateNodes] for one node. *)
Definition updateNode (deltaTime : Q) (n : Graph.Node) : Graph.Node :=
  let '(boosted1, boostTimer1) :=
    if Graph.boosted n
    then let tm := (Graph.boostTimer n - deltaTime)%Q in
         if Qle_bool tm 0 then (false, 0%Q) else (true, tm)
    else (false, Graph.boostTimer n) in
  let '(disrupted1, disruptTimer1) :=
    if Graph.disrupted n
    then let tm := (Graph.disruptTimer n - deltaTime)%Q in
         if Qle_bool tm 0 then (false, 0%Q) else (true, tm)
    else (false, Graph.disruptTimer n) in
  let '(resourceTimer1, resources1) :=
    if bool_decide (Graph.type n = Graph.FOOD_SOURCE)
       && Qltb (Graph.resources n) (Graph.capacity n)
    then let tm := (num_or (Graph.resourceTimer n) 0 + deltaTime)%Q in
         if Qle_bool 5 tm
         then (Some 0%Q, js_min (Graph.resources n + 1) (Graph.capacity n))
         else (Some tm, Graph.resources n)
    else (Graph.resourceTimer n, Graph.resources n) in
  {| Graph.id := Graph.id n; Graph.type := Graph.type n;
     Graph.position := Graph.position n; Graph.size := Graph.size n;
     Graph.capacity := Graph.capacity n; Graph.resources := resources1;
     Graph.distanceToNest := Graph.distanceToNest n;
     Graph.boosted := boosted1; Graph.disrupted := disrupted1;
     Graph.boostTimer := boostTimer1; Graph.disruptTimer := disruptTimer1;
     Graph.resourceTimer := resourceTimer1 |}.

Definition setGraphNodes (g : Graph.t) (ns : gmap string Graph.Node) : Graph.t :=
  Graph.mkGraph ns (Graph.edges g) (Graph.pheromones g).

Definition setGraphPheromones (g : Graph.t)
    (ph : gmap string Graph.PheromoneEntry) : Graph.t :=
  Graph.mkGraph (Graph.nodes g) (Graph.edges g) ph.

(** [removePlayer(id)] *)
Definition removePlayer (id : string) (gm : t) : t :=
  mkGame (delete id (players gm)) (graph gm).

(** [updateNodes(deltaTime)] *)
Definition updateNodes (deltaTime : Q) (gm : t) : t :=
  mkGame (players gm)
    (setGraphNodes (graph gm) (updateNode deltaTime <$> Graph.nodes (graph gm))).

(** [updatePheromones(deltaTime)] of the server: decay at the fixed rate
    0.1, entries below 0.01 are deleted. *)
Definition updatePheromones (deltaTime : Q) (gm : t) : t :=
  let decay (e : Graph.PheromoneEntry) :=
    let l := (Graph.level e * (1 - 0.1 * deltaTime))%Q in
    if Qltb l 0.01 then None else Some (Graph.mkEntry l (Graph.playerId e)) in
  mkGame (players gm)
    (setGraphPheromones (graph gm) (omap decay (Graph.pheromones (graph gm)))).

(** [updatePlayers(deltaTime)] *)
Definition updatePlayers (deltaTime : Q) (gm : t) : t :=
  mkGame ((λ p, setEnergy p (js_min (energy p + 2 * deltaTime) 100)) <$> players gm)
    (graph gm).

(** [update()], with the elapsed time as an argument. *)
Definition update (deltaTime : Q) (gm : t) : t :=
  updatePlayers deltaTime (updateNodes deltaTime (updatePheromones deltaTime gm)).

(** [placePheromone(playerId, fromNodeId, toNodeId, type, amount)].
    [current] and [reverseCurrent] are both read before either is written;
    they are one and the same object when the two keys coincide and the
    entry already exists. *)
Definition placePheromone (gm : t) (playerId fromNodeId toNodeId type : string)
    (amount : Q) : bool * t :=
  match players gm !! playerId with
  | None => (false, gm)
  | Some player =>
    if negb (Graph.hasEdge (graph gm) fromNodeId toNodeId) then (false, gm)
    else
      let energyCost := (amount * 5)%Q in
      if Qltb (energy player) energyCost then (false, gm)
      else
        let player' := setEnergy player (energy player - energyCost) in
        let key := pheromoneKey fromNodeId toNodeId type in
        let reverseKey := pheromoneKey toNodeId fromNodeId type in
        let ph := Graph.pheromones (graph gm) in
        let current := default (Graph.mkEntry 0 None) (ph !! key) in
        let reverseCurrent := default (Graph.mkEntry 0 None) (ph !! reverseKey) in
        let aliased := bool_decide (key = reverseKey) && bool_decide (is_Some (ph !! key)) in
        let current1 :=
          Graph.mkEntry (js_min (Graph.level current + amount) 5.0) (Some playerId) in
        let reverseBase := if aliased then current1 else reverseCurrent in
        let reverse1 :=
          Graph.mkEntry (js_min (Graph.level reverseBase + amount * 0.5) 5.0)
            (Some playerId) in
        let current2 := if aliased then reverse1 else current1 in
        (true,
         mkGame (<[playerId := player']> (players gm))
           (setGraphPheromones (graph gm)
              (<[reverseKey := reverse1]> (<[key := current2]> ph))))
  end.

Definition setEffects (n : Graph.Node) (b : bool) (bt : Q) (d : bool) (dt : Q)
    (sz cap : Q) : Graph.Node :=
  {| Graph.id := Graph.id n; Graph.type := Graph.type n;
     Graph.position := Graph.position n; Graph.size := sz;
     Graph.capacity := cap; Graph.resources := Graph.resources n;
     Graph.distanceToNest := Graph.distanceToNest n;
     Graph.boosted := b; Graph.disrupted := d;
     Graph.boostTimer := bt; Graph.disruptTimer := dt;
     Graph.resourceTimer := Graph.resourceTimer n |}.

(** The shared shape of [boostNode], [disruptNode] and [expandNode]: look up
    the player and the node, check [refuse], charge [energyCost], apply
    [change]. *)
Definition command (refuse : Graph.Node -> bool) (energyCost : Q)
    (change : Graph.Node -> Graph.Node) (gm : t) (playerId nodeId : string)
  : bool * t :=
  match players gm !! playerId with
  | None => (false, gm)
  | Some player =>
    match Graph.nodes (graph gm) !! nodeId with
    | None => (false, gm)
    | Some node =>
      if refuse node then (false, gm)
      else if Qltb (energy player) energyCost then (false, gm)
      else (true,
            mkGame (<[playerId := setEnergy player (energy player - energyCost)]> (players gm))
              (setGraphNodes (graph gm)
                 (<[nodeId := change node]> (Graph.nodes (graph gm)))))
    end
  end.

(** [boostNode(playerId, nodeId)] *)
Definition boostNode : t -> string -> string -> bool * t :=
  command Graph.boosted 30
    (λ n, setEffects n true 30 (Graph.disrupted n) (Graph.disruptTimer n)
            (Graph.size n) (Graph.capacity n)).

(** [disruptNode(playerId, nodeId)] *)
Definition disruptNode : t -> string -> string -> bool * t :=
  command (λ n, bool_decide (Graph.type n = Graph.NEST) || Graph.disrupted n) 40
    (λ n, setEffects n (Graph.boosted n) (Graph.boostTimer n) true 20
            (Graph.size n) (Graph.capacity n)).

(** [expandNode(playerId, nodeId)] *)
Definition expandNode : t -> string -> string -> bool * t :=
  command (λ n, Qle_bool 3 (Graph.size n)) 50
    (λ n, setEffects n (Graph.boosted n) (Graph.boostTimer n)
            (Graph.disrupted n) (Graph.disruptTimer n)
            (Graph.size n + 1) (Graph.capacity n * 1.5)).

(** *** The published state *)

(** [key.split(',')] *)
Fixpoint splitComma (s : string) : list string :=
  match s with
  | EmptyString => [EmptyString]
  | String c rest =>
    if Ascii.eqb c (Ascii.ascii_of_nat 44) then EmptyString :: splitComma rest
    else match splitComma rest with
         | [] => [String c EmptyString]
         | part :: parts => String c part :: parts
         end
  end.

(** An element of [gameState.pheromones]; a field of the key that the split
    does not yield is [undefined] ([None]). *)
Record Published := mkPublished {
  pub_fromId : option string;
  pub_toId : option string;
  pub_type : option string;
  pub_level : Q;
  pub_playerId : option string
}.

(** The loop of [updateGameState] over [this.graph.pheromones.entries()];
    [entries] are the entries of the map in the order of the iteration. *)
Fixpoint publishPheromones (entries : list (string * Graph.PheromoneEntry))
  : list Published :=
  match entries with
  | [] => []
  | (key, data) :: rest =>
    let parts := splitComma key in
    if Qltb 0.01 (Graph.level data)
    then mkPublished (parts !! 0%nat) (parts !! 1%nat) (parts !! 2%nat)
           (Graph.level data) (Graph.playerId data)
         :: publishPheromones rest
    else publishPheromones rest
  end.

End GameManager.

(** ** The colony ([AntColony]) and its ants ([client/src/game/ant.js]) *)

Module AntColony.

Inductive Role := WORKER | SCOUT | SOLDIER.
Inductive AntState := EXPLORING | RETURNING | RESTING | FOLLOWING.

#[global] Instance Role_eq_dec : EqDecision Role.
Proof. solve_decision. Defined.

#[global] Instance AntState_eq_dec : EqDecision AntState.
Proof. solve_decision. Defined.

(** The simulation state of an ant.  [id], [position], [targetPosition],
    [scale] and [color] only feed the renderer and are left out. *)
Record Ant := mkAnt {
  currentNodeId : string;
  previousNodeId : option string;
  role : Role;
  state : AntState;
  carrying : option string;
  memory : list string;
  memorySize : nat;
  fatigue : Q;
  path : list string;
  movementProgress : Q;
  movementSpeed : Q
}.

(** The objects stored in [colony.pheromones]. *)
Record PheromoneData := mkData { level : Q }.

Record SpawnRatios := mkRatios { ratioWORKER : Q; ratioSCOUT : Q; ratioSOLDIER : Q }.

Record Params := mkParams {
  maxAnts : Q;
  pheromoneDecayRate : Q;
  antSpawnRate : Q;
  initialAnts : Q;
  spawnRatios : SpawnRatios
}.

(** The colony; [draws] counts the calls of [Math.random] made so far. *)
Record t := mkColony {
  graph : Graph.t;
  ants : list Ant;
  nestId : string;
  pheromones : gmap string PheromoneData;
  resources : gmap string Q;
  params : Params;
  spawnTimer : Q;
  draws : nat
}.

Definition setGraph (c : t) (g : Graph.t) : t :=
  mkColony g (ants c) (nestId c) (pheromones c) (resources c) (params c)
    (spawnTimer c) (draws c).
Definition setAnts (c : t) (l : list Ant) : t :=
  mkColony (graph c) l (nestId c) (pheromones c) (resources c) (params c)
    (spawnTimer c) (draws c).
Definition setPheromones (c : t) (ph : gmap string PheromoneData) : t :=
  mkColony (graph c) (ants c) (nestId c) ph (resources c) (params c)
    (spawnTimer c) (draws c).
Definition setResources (c : t) (r : gmap string Q) : t :=
  mkColony (graph c) (ants c) (nestId c) (pheromones c) r (params c)
    (spawnTimer c) (draws c).
Definition setSpawnTimer (c : t) (tm : Q) : t :=
  mkColony (graph c) (ants c) (nestId c) (pheromones c) (resources c) (params c)
    tm (draws c).
Definition setDraws (c : t) (n : nat) : t :=
  mkColony (graph c) (ants c) (nestId c) (pheromones c) (resources c) (params c)
    (spawnTimer c) n.

(** A string used as a condition: [null] and the empty string are falsy. *)
Definition truthy (s : option string) : bool :=
  match s with
  | Some x => negb (bool_decide (x = EmptyString))
  | None => false
  end.

(** [depositPheromone(fromId, toId, type, amount)]: the entry is read,
    raised and stored, and only then the reverse entry is read. *)
Definition depositPheromone (c : t) (fromId toId type : string) (amount : Q) : t :=
  let key := pheromoneKey fromId toId type in
  let reverseKey := pheromoneKey toId fromId type in
  let current := default (mkData 0) (pheromones c !! key) in
  let ph1 := <[key := mkData (js_min (level current + amount) 5.0)]> (pheromones c) in
  let reverseCurrent := default (mkData 0) (ph1 !! reverseKey) in
  setPheromones c
    (<[reverseKey := mkData (js_min (level reverseCurrent + amount * 0.5) 5.0)]> ph1).

(** [getPheromoneLevel(fromId, toId, type)] *)
Definition getPheromoneLevel (c : t) (fromId toId type : string) : Q :=
  match pheromones c !! pheromoneKey fromId toId type with
  | Some data => level data
  | None => 0
  end.

(** [addResource(resourceType, amount = 1)] *)
Definition addResource (c : t) (resourceType : string) (amount : Q) : t :=
  let r0 := match resources c !! resourceType with
            | Some q => if Qeq_bool q 0 then 0%Q else q
            | None => 0%Q
            end in
  setResources c (<[resourceType := (r0 + amount)%Q]> (resources c)).

(** [updatePheromones(deltaTime)]: every entry decays, an entry below 0.01
    is deleted. *)
Definition decayEntry (rate deltaTime : Q) (data : PheromoneData)
  : option PheromoneData :=
  let l := (level data * (1 - rate * deltaTime))%Q in
  if Qltb l 0.01 then None else Some (mkData l).

Definition updatePheromones (deltaTime : Q) (c : t) : t :=
  setPheromones c
    (omap (decayEntry (pheromoneDecayRate (params c)) deltaTime) (pheromones c)).

(** *** Role balancing *)

Definition ratioOf (r : SpawnRatios) (x : Role) : Q :=
  match x with
  | WORKER => ratioWORKER r
  | SCOUT => ratioSCOUT r
  | SOLDIER => ratioSOLDIER r
  end.

(** [roleCounts[ant.role]++] *)
Definition increment (counts : Role -> Z) (r : Role) : Role -> Z :=
  λ x, if decide (x = r) then (counts x + 1)%Z else counts x.

Definition roleCounts (l : list Ant) : Role -> Z :=
  fold_left (λ counts ant, increment counts (role ant)) l (λ _, 0%Z).

(** [Math.floor(totalAnts * ratio)]: the ratio is a double, the product is
    rounded to a double and then floored. *)
Definition desiredCount (c : t) (r : Role) : Z :=
  Qfloor (toDouble (inject_Z (Z.of_nat (length (ants c)))
                    * toDouble (ratioOf (spawnRatios (params c)) r))).

Definition deficit (c : t) (r : Role) : Z :=
  (desiredCount c r - roleCounts (ants c) r)%Z.

(** The keys of [roleCounts] in the order [for ... in] visits them. *)
Definition roleOrder : list Role := [WORKER; SCOUT; SOLDIER].

(** [determineAntRole()] *)
Definition determineAntRole (c : t) : Role :=
  snd (fold_left
         (λ (best : Z * Role) r,
            (* [best] is the pair biggestDeficit, roleToSpawn *)
            if (fst best <? deficit c r)%Z then (deficit c r, r) else best)
         roleOrder (0%Z, WORKER)).

(** [new Ant(colony, currentNodeId, role)] with [initRoleProperties()]. *)
Definition newAnt (currentNodeId : string) (r : Role) : Ant :=
  {| currentNodeId := currentNodeId;
     previousNodeId := None;
     role := r;
     state := EXPLORING;
     carrying := None;
     memory := [currentNodeId];
     memorySize := match r with SCOUT => 8 | _ => 5 end;
     fatigue := 0;
     path := [];
     movementProgress := 0;
     movementSpeed := match r with
                      | SCOUT => 0.05 * 1.5
                      | WORKER => 0.05
                      | SOLDIER => 0.05 * 0.8
                      end |}.

(** [spawnAnt()]; the constructor of the ant draws one random number for
    its id. *)
Definition spawnAnt (c : t) : t :=
  let r := determineAntRole c in
  setDraws (setAnts c (ants c ++ [newAnt (nestId c) r])) (S (draws c)).

(** [updateAntSpawning(deltaTime)].  For a spawn rate of 0 the interval
    [1 / 0] is [Infinity], which no timer reaches. *)
Definition updateAntSpawning (deltaTime : Q) (c : t) : t :=
  if Qle_bool (maxAnts (params c)) (inject_Z (Z.of_nat (length (ants c)))) then c
  else
    let c1 := setSpawnTimer c (spawnTimer c + deltaTime) in
    if Qeq_bool (antSpawnRate (params c)) 0 then c1
    else
      let spawnInterval := (1 / antSpawnRate (params c))%Q in
      if Qle_bool spawnInterval (spawnTimer c1)
      then spawnAnt (setSpawnTimer c1 0)
      else c1.

(** *** Construction *)

(** The [options] of the constructor; every property may be missing. *)
Record Options := mkOptions {
  opt_nestId : option string;
  opt_maxAnts : option Q;
  opt_pheromoneDecayRate : option Q;
  opt_antSpawnRate : option Q;
  opt_initialAnts : option Q;
  opt_workerRatio : option Q;
  opt_scoutRatio : option Q;
  opt_soldierRatio : option Q
}.

Definition setType (n : Graph.Node) (ty : Graph.NodeType) : Graph.Node :=
  {| Graph.id := Graph.id n; Graph.type := ty;
     Graph.position := Graph.position n; Graph.size := Graph.size n;
     Graph.capacity := Graph.capacity n; Graph.resources := Graph.resources n;
     Graph.distanceToNest := Graph.distanceToNest n;
     Graph.boosted := Graph.boosted n; Graph.disrupted := Graph.disrupted n;
     Graph.boostTimer := Graph.boostTimer n;
     Graph.disruptTimer := Graph.disruptTimer n;
     Graph.resourceTimer := Graph.resourceTimer n |}.

(** The first loop of [findOrCreateNestNode]: the first key whose node is a
    NEST. *)
Fixpoint findNest (keys : list string) (g : Graph.t) : Outcome (option string) :=
  match keys with
  | [] => Returned None
  | nodeId :: rest =>
    match Graph.nodes g !! nodeId with
    | None => Threw
    | Some node =>
      if bool_decide (Graph.type node = Graph.NEST) then Returned (Some nodeId)
      else findNest rest g
    end
  end.

(** [findOrCreateNestNode()]; [keys] are the keys of [graph.nodes] in the
    order of [for ... in] and of [Object.keys], [fresh] is the id that
    [generateId()] would return. *)
Definition findOrCreateNestNode (keys : list string) (fresh : string) (g : Graph.t)
  : Outcome (string * Graph.t) :=
  match findNest keys g with
  | Returned (Some nodeId) => Returned (nodeId, g)
  | Returned None =>
    if truthy (head keys)
    then match head keys with
         | Some firstNodeId =>
           match Graph.nodes g !! firstNodeId with
           | Some node =>
             Returned (firstNodeId,
                       GameManager.setGraphNodes g
                         (<[firstNodeId := setType node Graph.NEST]> (Graph.nodes g)))
           | None => Threw
           end
         | None => Threw
         end
    else Returned
           (Graph.addNode fresh
              (Graph.mkNodeData None (Some Graph.NEST)
                 (Some (Graph.mkPosition 0 0 0)) None None None) g)
  | Threw => Threw
  | OutOfFuel => OutOfFuel
  end.

(** The number of rounds of [for (let i = 0; i < n; i++)]. *)
Definition rounds (n : Q) : nat := Z.to_nat (Qceiling n).

(** [new AntColony(graph, options)] with [init()]: the nest is taken from
    the options or found, the parameters get their defaults, the distances
    to the nest are calculated and the first ants are spawned. *)
Definition create (keys : list string) (fresh : string) (fuel : nat)
    (g : Graph.t) (options : Options) : Outcome t :=
  let located :=
    if truthy (opt_nestId options)
    then Returned (default EmptyString (opt_nestId options), g)
    else findOrCreateNestNode keys fresh g in
  match located with
  | Returned (nest, g1) =>
    let ps :=
      mkParams (num_or (opt_maxAnts options) 100)
        (num_or (opt_pheromoneDecayRate options) 0.05)
        (num_or (opt_antSpawnRate options) 0.1)
        (num_or (opt_initialAnts options) 10)
        (mkRatios (num_or (opt_workerRatio options) 0.7)
           (num_or (opt_scoutRatio options) 0.2)
           (num_or (opt_soldierRatio options) 0.1)) in
    match Graph.calculateDistances fuel g1 nest with
    | Returned g2 =>
      Returned (Nat.iter (rounds (initialAnts ps)) spawnAnt
                  (mkColony g2 [] nest ∅ {[ "FOOD"%string := 0%Q ]} ps 0 0))
    | Threw => Threw
    | OutOfFuel => OutOfFuel
    end
  | Threw => Threw
  | OutOfFuel => OutOfFuel
  end.

(** *** The ant *)

Module Ant.

Definition setState (a : Ant) (s : AntState) : Ant :=
  mkAnt (currentNodeId a) (previousNodeId a) (role a) s (carrying a) (memory a)
    (memorySize a) (fatigue a) (path a) (movementProgress a) (movementSpeed a).
Definition setCarrying (a : Ant) (x : option string) : Ant :=
  mkAnt (currentNodeId a) (previousNodeId a) (role a) (state a) x (memory a)
    (memorySize a) (fatigue a) (path a) (movementProgress a) (movementSpeed a).
Definition setFatigue (a : Ant) (f : Q) : Ant :=
  mkAnt (currentNodeId a) (previousNodeId a) (role a) (state a) (carrying a)
    (memory a) (memorySize a) f (path a) (movementProgress a) (movementSpeed a).
Definition setPath (a : Ant) (p : list string) : Ant :=
  mkAnt (currentNodeId a) (previousNodeId a) (role a) (state a) (carrying a)
    (memory a) (memorySize a) (fatigue a) p (movementProgress a) (movementSpeed a).
Definition setProgress (a : Ant) (p : Q) : Ant :=
  mkAnt (currentNodeId a) (previousNodeId a) (role a) (state a) (carrying a)
    (memory a) (memorySize a) (fatigue a) (path a) p (movementSpeed a).

(** [updateFatigue(deltaTime)] *)
Definition updateFatigue (deltaTime : Q) (a : Ant) : Ant :=
  let fatigueRate := if truthy (carrying a) then 0.1%Q else 0.05%Q in
  let a1 := setFatigue a (fatigue a + fatigueRate * deltaTime) in
  if Qltb 10 (fatigue a1) && negb (bool_decide (state a1 = RESTING))
  then setState a1 RESTING
  else a1.

(** [rest(deltaTime)] *)
Definition rest (deltaTime : Q) (a : Ant) : Ant :=
  let a1 := setFatigue a (fatigue a - 0.2 * deltaTime) in
  if Qle_bool (fatigue a1) 0
  then setState (setFatigue a1 0)
         (if truthy (carrying a1) then RETURNING else EXPLORING)
  else a1.

(** [moveToNode(nodeId)]; the argument is [None] for [undefined]. *)
Definition moveToNode (a : Ant) (nodeId : option string) : Ant :=
  match nodeId with
  | Some n =>
    if truthy nodeId then
      let mem := memory a ++ [n] in
      mkAnt n (Some (currentNodeId a)) (role a) (state a) (carrying a)
        (if bool_decide (memorySize a < length mem)%nat then tail mem else mem)
        (memorySize a) (fatigue a) (path a ++ [n]) 0 (movementSpeed a)
    else a
  | None => a
  end.

(** [depositPheromone()] of the ant *)
Definition depositPheromone (c : t) (a : Ant) : t :=
  match previousNodeId a with
  | Some prev =>
    if negb (truthy (previousNodeId a)) || negb (truthy (Some (currentNodeId a)))
    then c
    else
      let '(pheromoneType, strength) :=
        if truthy (carrying a) then ("FOOD"%string, 0.5%Q)
        else ("EXPLORATION"%string, 0.1%Q) in
      AntColony.depositPheromone c prev (currentNodeId a) pheromoneType strength
  | None => c
  end.

(** [checkForResources()]; [None] when the current node is missing. *)
Definition checkForResources (c : t) (a : Ant) : option (t * Ant) :=
  match Graph.getNode (graph c) (currentNodeId a) with
  | None => None
  | Some node =>
    let '(c1, a1) :=
      if bool_decide (Graph.type node = Graph.FOOD_SOURCE)
         && Qltb 0 (Graph.resources node) && negb (truthy (carrying a))
      then
        let node' :=
          {| Graph.id := Graph.id node; Graph.type := Graph.type node;
             Graph.position := Graph.position node; Graph.size := Graph.size node;
             Graph.capacity := Graph.capacity node;
             Graph.resources := (Graph.resources node - 1)%Q;
             Graph.distanceToNest := Graph.distanceToNest node;
             Graph.boosted := Graph.boosted node;
             Graph.disrupted := Graph.disrupted node;
             Graph.boostTimer := Graph.boostTimer node;
             Graph.disruptTimer := Graph.disruptTimer node;
             Graph.resourceTimer := Graph.resourceTimer node |} in
        (setGraph c (GameManager.setGraphNodes (graph c)
                       (<[currentNodeId a := node']> (Graph.nodes (graph c)))),
         setState (setCarrying a (Some "FOOD"%string)) RETURNING)
      else (c, a) in
    if bool_decide (Graph.type node = Graph.NEST) && truthy (carrying a1)
    then Some (addResource c1 (default EmptyString (carrying a1)) 1,
               setState (setPath (setCarrying a1 None) [currentNodeId a1]) FOLLOWING)
    else Some (c1, a1)
  end.

Section WithRandom.

(** [random n] is the result of the [n]-th call of [Math.random]. *)
Variable random : nat -> Q.

(** [shouldDepositPheromone()]; the second component is the number of
    random draws made. *)
Definition shouldDepositPheromone (c : t) (a : Ant) : bool * t :=
  match state a with
  | RETURNING => (true, c)
  | EXPLORING => (Qltb (random (draws c)) 0.1, setDraws c (S (draws c)))
  | FOLLOWING => (bool_decide (carrying a ≠ None), c)
  | RESTING => (false, c)
  end.

(** The property that [object[id]] reads: for [null] it is the one named
    ["null"]. *)
Definition propertyKey (id : option string) : string := default "null"%string id.

(** [updateMovement(deltaTime)].  The interpolated position only feeds the
    renderer and is not kept, but [lerpVectors] reads the coordinates of
    both positions: it throws ([None]) when [getNodePosition] returns
    [null] for the node the ant comes from or for the node it is on. *)
Definition updateMovement (deltaTime : Q) (c : t) (a : Ant) : option (t * Ant) :=
  let p := (movementProgress a + movementSpeed a * deltaTime)%Q in
  let a1 := setProgress a (if Qltb 1 p then 1%Q else p) in
  match Graph.getNodePosition (graph c) (propertyKey (previousNodeId a1)),
        Graph.getNodePosition (graph c) (currentNodeId a1) with
  | Some _, Some _ =>
    let '(deposit, c1) := shouldDepositPheromone c a1 in
    Some (if deposit then (depositPheromone c1 a1, a1) else (c1, a1))
  | _, _ => None
  end.

(** [calculateMovementProbabilities(neighbors)]; [None] when a neighbour
    is not a node. *)
Fixpoint calculateMovementProbabilities (c : t) (a : Ant) (neighbors : list string)
  : option (list (string * Q)) :=
  match neighbors with
  | [] => Some []
  | nodeId :: rest =>
    let memoryFactor := if bool_decide (nodeId ∈ memory a) then 0.1%Q else 1%Q in
    let foodPheromone := getPheromoneLevel c (currentNodeId a) nodeId "FOOD" in
    let explorationPheromone :=
      getPheromoneLevel c (currentNodeId a) nodeId "EXPLORATION" in
    let probability :=
      match state a with
      | EXPLORING => ((explorationPheromone * 0.5 + 0.5) * memoryFactor)%Q
      | FOLLOWING =>
        ((foodPheromone * 2 + explorationPheromone * 0.5) * memoryFactor)%Q
      | _ => memoryFactor
      end in
    match Graph.getNode (graph c) nodeId with
    | None => None
    | Some node =>
      let p1 := if bool_decide (Graph.type node = Graph.FOOD_SOURCE)
                then (probability * 3)%Q else probability in
      let p2 := if bool_decide (Graph.type node = Graph.NEST)
                then (p1 * (if truthy (carrying a) then 3 else 0.5))%Q else p1 in
      match calculateMovementProbabilities c a rest with
      | None => None
      | Some tl => Some ((nodeId, p2) :: tl)
      end
    end
  end.

(** The cumulative scan of [selectBasedOnProbability]. *)
Fixpoint pick (rnd cumulativeProbability : Q) (items : list (string * Q))
  : option string :=
  match items with
  | [] => None
  | (nodeId, probability) :: rest =>
    let cum := (cumulativeProbability + probability)%Q in
    if Qle_bool rnd cum then Some nodeId else pick rnd cum rest
  end.

(** [selectBasedOnProbability(probabilities)] *)
Definition selectBasedOnProbability (c : t) (probabilities : list (string * Q))
  : option string * t :=
  let sum := fold_left (λ acc item, (acc + snd item)%Q) probabilities 0%Q in
  if Qeq_bool sum 0 then (fst <$> head probabilities, c)
  else
    let normalized := map (λ item, (fst item, (snd item / sum)%Q)) probabilities in
    let rnd := random (draws c) in
    let c1 := setDraws c (S (draws c)) in
    match pick rnd 0 normalized with
    | Some n => (Some n, c1)
    | None => (fst <$> last normalized, c1)
    end.

(** [explore()] *)
Definition explore (c : t) (a : Ant) : option (t * Ant) :=
  let neighbors := Graph.getNeighbors (graph c) (currentNodeId a) in
  match neighbors with
  | [] => Some (c, setState a RETURNING)
  | _ =>
    match calculateMovementProbabilities c a neighbors with
    | None => None
    | Some probabilities =>
      let '(selectedNode, c1) := selectBasedOnProbability c probabilities in
      if negb (truthy selectedNode) then Some (c1, a)
      else checkForResources c1 (moveToNode a selectedNode)
    end
  end.

(** The loop of [returnToNest] that looks for the neighbour closest to the
    nest. *)
Fixpoint closest (g : Graph.t) (neighbors : list string) (bestNode : option string)
    (shortestDistance : Graph.Distance) : option (option string) :=
  match neighbors with
  | [] => Some bestNode
  | nodeId :: rest =>
    match Graph.getNode g nodeId with
    | None => None
    | Some node =>
      if Graph.dist_ltb (Graph.distanceToNest node) shortestDistance
      then closest g rest (Some nodeId) (Graph.distanceToNest node)
      else closest g rest bestNode shortestDistance
    end
  end.

(** [returnToNest()] *)
Definition returnToNest (c : t) (a : Ant) : option (t * Ant) :=
  let neighbors := Graph.getNeighbors (graph c) (currentNodeId a) in
  match closest (graph c) neighbors None Graph.Infinity with
  | None => None
  | Some bestNode =>
    if truthy bestNode then Some (c, moveToNode a bestNode)
    else
      match neighbors with
      | [] => Some (c, a)
      | _ =>
        let i := Qfloor (random (draws c) * inject_Z (Z.of_nat (length neighbors))) in
        let chosen := if (i <? 0)%Z then None else neighbors !! Z.to_nat i in
        Some (setDraws c (S (draws c)), moveToNode a chosen)
      end
  end.

(** [followTrail()] *)
Definition followTrail (c : t) (a : Ant) : option (t * Ant) :=
  let neighbors := Graph.getNeighbors (graph c) (currentNodeId a) in
  let probabilities :=
    map (λ nodeId,
           let foodPheromone := getPheromoneLevel c (currentNodeId a) nodeId "FOOD" in
           (nodeId, ((foodPheromone + 0.1) ^ 3)%Q))
        neighbors in
  let '(selectedNode, c1) := selectBasedOnProbability c probabilities in
  let a1 := if truthy selectedNode then moveToNode a selectedNode
            else setState a EXPLORING in
  checkForResources c1 a1.

(** [update(deltaTime)] of the ant *)
Definition update (deltaTime : Q) (c : t) (a : Ant) : option (t * Ant) :=
  let a1 := updateFatigue deltaTime a in
  if Qltb (movementProgress a1) 1 then updateMovement deltaTime c a1
  else
    match state a1 with
    | EXPLORING => explore c a1
    | RETURNING => returnToNest c a1
    | RESTING => Some (c, rest deltaTime a1)
    | FOLLOWING => followTrail c a1
    end.

End WithRandom.

End Ant.

Section ColonyUpdate.

Variable random : nat -> Q.

(** The loop [for (const ant of this.ants) ant.update(deltaTime)]: [todo]
    are the ants still to be updated, [done] the updated ones. *)
Fixpoint updateAnts (deltaTime : Q) (c : t) (done todo : list Ant)
  : option (t * list Ant) :=
  match todo with
  | [] => Some (c, done)
  | ant :: rest =>
    match Ant.update random deltaTime c ant with
    | None => None
    | Some (c1, ant1) => updateAnts deltaTime c1 (done ++ [ant1]) rest
    end
  end.

(** [update(deltaTime)] of the colony *)
Definition update (deltaTime : Q) (c : t) : option t :=
  match updateAnts deltaTime c [] (ants c) with
  | None => None
  | Some (c1, ants1) =>
    Some (updatePheromones deltaTime
            (updateAntSpawning deltaTime (setAnts c1 ants1)))
  end.

End ColonyUpdate.

End AntColony.

(** * The vocabulary of the properties *)

(** ** Graphs *)

(** [hops g a b n]: [b] is reached from [a] along [n] edges of the
    adjacency lists. *)
Inductive hops (g : Graph.t) (a : string) : string -> nat -> Prop :=
  | hops_here : hops g a a 0
  | hops_more b c n :
      hops g a b n -> c ∈ Graph.getNeighbors g b -> hops g a c (S n).

(** Every listed neighbour is a node. *)
Definition closedEdges (g : Graph.t) : Prop :=
  map_Forall (λ _ l, Forall (λ b, is_Some (Graph.nodes g !! b)) l) (Graph.edges g).

(** The adjacency lists are symmetric, as [addEdge] builds them. *)
Definition symmetricEdges (g : Graph.t) : Prop :=
  map_Forall (λ a l, Forall (λ b, a ∈ Graph.getNeighbors g b) l) (Graph.edges g).

#[global] Instance closedEdges_dec (g : Graph.t) : Decision (closedEdges g).
Proof. unfold closedEdges. apply _. Defined.

#[global] Instance symmetricEdges_dec (g : Graph.t) : Decision (symmetricEdges g).
Proof. unfold symmetricEdges. apply _. Defined.

(** [L] is the least number of hops from [a] to [b]. *)
Definition shortestHops (g : Graph.t) (a b : string) (L : nat) : Prop :=
  hops g a b L /\ forall L', hops g a b L' -> L <= L'.

(** The [distanceToNest] recorded for a node, if it is one. *)
Definition distOf (ns : gmap string Graph.Node) (v : string)
  : option Graph.Distance :=
  Graph.distanceToNest <$> ns !! v.


(** ** Pheromones, roles and ticks *)

Section ColonyVocabulary.

Import AntColony.


(** The number of ants of a role. *)
Definition headcount (r : Role) (l : list Ant) : Z :=
  Z.of_nat (length (filter (λ a, role a = r) l)).

(** [Math.floor(total * ratio)] as JavaScript evaluates it: the product of
    the number of ants and the double of the ratio, rounded to a double,
    then floored. *)
Definition flooredShare (total : nat) (ratio : Q) : Z :=
  Qfloor (toDouble (inject_Z (Z.of_nat total) * toDouble ratio)).

(** The deficit of a role: the floored share of the role minus the number
    of ants that have it. *)
Definition shortfall (c : t) (r : Role) : Z :=
  (flooredShare (length (ants c)) (ratioOf (spawnRatios (params c)) r)
   - headcount r (ants c))%Z.



(** The rate at which [updateFatigue] adds fatigue. *)
Definition fatigueRate (a : Ant) : Q :=
  if truthy (carrying a) then 0.1%Q else 0.05%Q.

(** Every stored level lies in [0, 5]. *)
Definition fieldBounded (ph : gmap string PheromoneData) : Prop :=
  forall k d, ph !! k = Some d -> (0 <= level d)%Q /\ (level d <= 5)%Q.

(** One mutation of the field. *)
Inductive FieldOp :=
  | Deposit (fromId toId type : string) (amount : Q)
  | Decay (deltaTime : Q).

Definition applyOp (c : t) (op : FieldOp) : t :=
  match op with
  | Deposit fromId toId type amount => depositPheromone c fromId toId type amount
  | Decay deltaTime => updatePheromones deltaTime c
  end.

(** Deposits are non-negative and a decay step has [0 <= rate * dt <= 1]. *)
Definition admissible (rate : Q) (op : FieldOp) : Prop :=
  match op with
  | Deposit _ _ _ amount => (0 <= amount)%Q
  | Decay deltaTime => (0 <= rate * deltaTime)%Q /\ (rate * deltaTime <= 1)%Q
  end.

(** The level stored under a key of the server's field, 0 when absent. *)
Definition storedLevel (ph : gmap string Graph.PheromoneEntry) (k : string) : Q :=
  match ph !! k with
  | Some e => Graph.level e
  | None => 0
  end.

(** [s] holds no comma (character 44). *)
Fixpoint commaFree (s : string) : bool :=
  match s with
  | EmptyString => true
  | String a s' => negb (Ascii.eqb a (Ascii.ascii_of_nat 44)) && commaFree s'
  end.

(** The tick as the design document words it: decay, then the ants, then
    spawning. *)
Definition tickAsSpecified (random : nat -> Q) (deltaTime : Q) (c : t)
  : option t :=
  let c0 := updatePheromones deltaTime c in
  match updateAnts random deltaTime c0 [] (ants c0) with
  | None => None
  | Some (c1, ants1) => Some (updateAntSpawning deltaTime (setAnts c1 ants1))
  end.

(** The ants of a list are updated one after the other, in the order of the
    list, each against the colony the previous one has left. *)
Inductive antsInOrder (random : nat -> Q) (deltaTime : Q)
  : t -> list Ant -> t -> list Ant -> Prop :=
  | order_nil c : antsInOrder random deltaTime c [] c []
  | order_cons c a c1 a1 rest c2 rest1 :
      Ant.update random deltaTime c a = Some (c1, a1) ->
      antsInOrder random deltaTime c1 rest c2 rest1 ->
      antsInOrder random deltaTime c (a :: rest) c2 (a1 :: rest1).

End ColonyVocabulary.

(** ** The states of the examples *)

(** [addNode({id, position: {x, y: 0, z: 0}})] *)
Definition nodeAt (i : string) (x : Q) : Graph.NodeData :=
  Graph.mkNodeData (Some i) None (Some (Graph.mkPosition x 0 0)) None None None.

(** The graph after [addEdge(a, b)]. *)
Definition connect (g : Graph.t) (a b : string) : Graph.t :=
  match Graph.addEdge g a b with
  | Returned (_, g') => g'
  | _ => g
  end.

(** Nodes [a], [b], [c] ten units apart with the edges a-b and b-c, and an
    isolated node [d]. *)
Definition lineGraph : Graph.t :=
  let g0 := snd (Graph.addNode "" (nodeAt "a" 0) Graph.empty) in
  let g1 := snd (Graph.addNode "" (nodeAt "b" 10) g0) in
  let g2 := snd (Graph.addNode "" (nodeAt "c" 20) g1) in
  let g3 := snd (Graph.addNode "" (nodeAt "d" 50) g2) in
  connect (connect g3 "a" "b") "b" "c".


(** A game on [lineGraph] with one player. *)
Definition lineGame : GameManager.t :=
  GameManager.mkGame {[ "p1"%string := GameManager.mkPlayer "p1" "Player 1" 100 0 ]}
    lineGraph.


Section ExampleStates.

Import Graph AntColony.

(** A graph with the single node ["a"]. *)
Definition singleNode : Graph.t :=
  snd (addNode "generated" (mkNodeData (Some "a"%string) None None None None None)
         Graph.empty).

(** The search on [lineGraph] from ["a"] to ["c"] after two expansions. *)
Definition lineSearch (fa fb fc : Q) : Search :=
  mkSearch ["a"; "c"]%string
    (list_to_map [("b", "a"); ("a", "b"); ("c", "b")]%string)
    (list_to_map [("a", 2); ("b", 1); ("c", 2)]%Q%string)
    (list_to_map [("a", fa); ("b", fb); ("c", fc)]%string).

(** The parameters of a colony created without options. *)
Definition defaultParams : Params :=
  mkParams 100 0.05 0.1 10 (mkRatios 0.7 0.2 0.1).

(** A new colony on the empty graph, with the default parameters. *)
Definition emptyColony : t :=
  mkColony Graph.empty [] "nest" ∅ ∅ defaultParams 0 0.

(** Five workers under the default parameters. *)
Definition fiveWorkers : t :=
  mkColony Graph.empty (replicate 5 (newAnt "nest" WORKER)) "nest" ∅ ∅
    defaultParams 0 0.



(** Two nodes ["n"] and ["m"] ten units apart, joined by an edge. *)
Definition pairGraph : Graph.t :=
  connect (snd (Graph.addNode "" (nodeAt "m" 10)
                  (snd (Graph.addNode "" (nodeAt "n" 0) Graph.empty))))
    "n" "m".

(** A colony on [pairGraph] with one ant on its way from ["n"] to ["m"],
    carrying food, and a saturated food trail on that edge. *)
Definition transitColony : t :=
  mkColony pairGraph
    [mkAnt "m" (Some "n"%string) WORKER RETURNING (Some "FOOD"%string)
       ["n"; "m"]%string 5 0 ["m"%string] 0 0.05]
    "n" {[ "n,m,FOOD"%string := mkData 5 ]} ∅ defaultParams 0 0.

End ExampleStates.

(** ** Built graphs, lookups and walks *)

(** The property names that every plain object inherits from
    [Object.prototype]: [this.nodes[id]] and [this.edges[id]] are defined
    for them although no node has been stored under them. *)
Definition inheritedKeys : list string :=
  ["constructor"; "__proto__"; "hasOwnProperty"; "isPrototypeOf";
   "propertyIsEnumerable"; "toLocaleString"; "toString"; "valueOf";
   "__defineGetter__"; "__defineSetter__"; "__lookupGetter__";
   "__lookupSetter__"]%string.

(** An id that is none of the inherited names: for such an id a plain
    object holds what has been stored under it and nothing else, as the
    finite maps of the model do. *)
Definition ownKey (id : string) : bool := negb (bool_decide (id ∈ inheritedKeys)).

(** The graphs that [addNode], under an id not yet in use, and [addEdge]
    build from the empty graph, the ids being none of the inherited
    names. *)
Inductive built : Graph.t -> Prop :=
  | built_empty : built Graph.empty
  | built_node fresh nd g :
      built g ->
      ownKey (fst (Graph.addNode fresh nd g)) = true ->
      Graph.nodes g !! fst (Graph.addNode fresh nd g) = None ->
      built (snd (Graph.addNode fresh nd g))
  | built_edge g a b r g' :
      built g ->
      ownKey a = true -> ownKey b = true ->
      Graph.addEdge g a b = Returned (r, g') ->
      built g'.

(** The nodes under [keys] whose position does not match [pos]. *)
Definition noMatch (g : Graph.t) (pos : Graph.Position) (keys : list string) : Prop :=
  Forall (λ k, exists n, Graph.nodes g !! k = Some n /\
                         Graph.arePositionsEqual (Graph.position n) pos = false) keys.

(** The position [createDefaultGraph] gives the grid cell [(x, z)]. *)
Definition cellPosition (x z : Z) (height : Q) : Graph.Position :=
  default (Graph.mkPosition 0 0 0) (Graph.nd_position (GameManager.cellNodeData x z height)).

(** The nodes with their distances forgotten. *)
Definition forgetDistances (ns : gmap string Graph.Node) : gmap string Graph.Node :=
  (λ n, Graph.setDistance n Graph.Infinity) <$> ns.



(** ** Runs of the game *)

(** What happens to a game: a tick of [update] and the calls that the
    socket handlers make. *)
Inductive GameOp :=
  | Tick (deltaTime : Q)
  | Place (playerId fromNodeId toNodeId type : string) (amount : Q)
  | Boost (playerId nodeId : string)
  | Disrupt (playerId nodeId : string)
  | Expand (playerId nodeId : string)
  | Leave (playerId : string).

Definition runOp (gm : GameManager.t) (op : GameOp) : GameManager.t :=
  match op with
  | Tick dt => GameManager.update dt gm
  | Place p f t ty a => snd (GameManager.placePheromone gm p f t ty a)
  | Boost p n => snd (GameManager.boostNode gm p n)
  | Disrupt p n => snd (GameManager.disruptNode gm p n)
  | Expand p n => snd (GameManager.expandNode gm p n)
  | Leave p => GameManager.removePlayer p gm
  end.

Definition runOps (gm : GameManager.t) (ops : list GameOp) : GameManager.t :=
  foldl runOp gm ops.

(** Time does not run backwards and no negative amount is placed. *)
Definition saneOp (op : GameOp) : Prop :=
  match op with
  | Tick dt => (0 <= dt)%Q
  | Place _ _ _ _ a => (0 <= a)%Q
  | _ => True
  end.

Definition energyBounded (gm : GameManager.t) : Prop :=
  forall k p, GameManager.players gm !! k = Some p ->
              (0 <= GameManager.energy p <= 100)%Q.

(** The effect flags of a node agree with its timers, and a nest is not
    disrupted. *)
Definition effectsTimed (n : Graph.Node) : Prop :=
  (if Graph.boosted n then (0 < Graph.boostTimer n <= 30)%Q
   else (Graph.boostTimer n == 0)%Q) /\
  (if Graph.disrupted n then (0 < Graph.disruptTimer n <= 20)%Q
   else (Graph.disruptTimer n == 0)%Q) /\
  (Graph.type n = Graph.NEST -> Graph.disrupted n = false).

(** What an operation can do to one node. *)
Definition nodeMoves (op : GameOp) (n n' : Graph.Node) : Prop :=
  n' = n \/
  match op with
  | Tick dt => n' = GameManager.updateNode dt n
  | Boost _ _ =>
    Graph.boosted n = false /\
    n' = GameManager.setEffects n true 30 (Graph.disrupted n) (Graph.disruptTimer n)
           (Graph.size n) (Graph.capacity n)
  | Disrupt _ _ =>
    Graph.type n <> Graph.NEST /\ Graph.disrupted n = false /\
    n' = GameManager.setEffects n (Graph.boosted n) (Graph.boostTimer n) true 20
           (Graph.size n) (Graph.capacity n)
  | Expand _ _ =>
    (Graph.size n < 3)%Q /\
    n' = GameManager.setEffects n (Graph.boosted n) (Graph.boostTimer n)
           (Graph.disrupted n) (Graph.disruptTimer n)
           (Graph.size n + 1) (Graph.capacity n * 1.5)
  | _ => False
  end.

(** The server's pheromone levels lie between 0 and 5. *)
Definition serverFieldBounded (gm : GameManager.t) : Prop :=
  forall k e, Graph.pheromones (GameManager.graph gm) !! k = Some e ->
              (0 <= Graph.level e <= 5)%Q.

(** The three node commands with their prices. *)
Definition priced (cmd : GameManager.t -> string -> string -> bool * GameManager.t)
    (cost : Q) : Prop :=
  (cmd = GameManager.boostNode /\ cost = 30%Q) \/
  (cmd = GameManager.disruptNode /\ cost = 40%Q) \/
  (cmd = GameManager.expandNode /\ cost = 50%Q).

(** The sum of the tick lengths. *)
Definition elapsed (dts : list Q) : Q := foldr Qplus 0%Q dts.

(** What no operation changes in a node. *)
Definition sameIdentity (n n' : Graph.Node) : Prop :=
  Graph.id n' = Graph.id n /\ Graph.type n' = Graph.type n /\
  Graph.position n' = Graph.position n /\
  Graph.distanceToNest n' = Graph.distanceToNest n.

(** [n'] is [n] after [j] expansions. *)
Definition expanded (j : nat) (n n' : Graph.Node) : Prop :=
  (Graph.size n' == Graph.size n + inject_Z (Z.of_nat j))%Q /\
  (Graph.capacity n' == Graph.capacity n * 1.5 ^ Z.of_nat j)%Q /\
  (j = 0%nat \/ (Graph.size n' < 4)%Q).

(** A node after ticks of the given lengths. *)
Definition afterTicks (n : Graph.Node) (dts : list Q) : Graph.Node :=
  foldl (λ n dt, GameManager.updateNode dt n) n dts.

(** ** Ants and runs of the colony *)

(** The colony is [c], or [c] after one more call of [Math.random]. *)
Definition drew (c c1 : AntColony.t) : Prop :=
  c1 = c \/ c1 = AntColony.setDraws c (S (AntColony.draws c)).

(** A non-empty id among the neighbours of the node the ant is on. *)
Definition nextNode (c : AntColony.t) (a : AntColony.Ant) (n : string) : Prop :=
  n <> EmptyString /\
  n ∈ Graph.getNeighbors (AntColony.graph c) (AntColony.currentNodeId a).

(** An ant that carries something is on its way back or resting. *)
Definition carrierReturns (a : AntColony.Ant) : Prop :=
  AntColony.truthy (AntColony.carrying a) = true ->
  AntColony.state a = AntColony.RETURNING \/ AntColony.state a = AntColony.RESTING.

(** The numbers of an ant are in range, its memory is within its size and
    ends with the node it is on. *)
Definition antInRange (a : AntColony.Ant) : Prop :=
  (0 <= AntColony.movementProgress a <= 1)%Q /\
  (0 <= AntColony.fatigue a)%Q /\
  (0 <= AntColony.movementSpeed a)%Q /\
  (length (AntColony.memory a) <= AntColony.memorySize a)%nat /\
  last (AntColony.memory a) = Some (AntColony.currentNodeId a).

(** An ant on node ["n"] of [pairGraph], carrying food and ready to move. *)
Definition homingAnt : AntColony.Ant :=
  AntColony.mkAnt "n" None AntColony.WORKER AntColony.RETURNING (Some "FOOD"%string)
    ["n"%string] 5 0 [] 1 0.05.

(** The colony after ticks of the given lengths; [None] when one of them
    throws. *)
Fixpoint runColony (random : nat -> Q) (dts : list Q) (c : AntColony.t)
  : option AntColony.t :=
  match dts with
  | [] => Some c
  | dt :: rest =>
    match AntColony.update random dt c with
    | Some c1 => runColony random rest c1
    | None => None
    end
  end.

(** Node ["n"] joined to the food source ["f"], which holds three units. *)
Definition foodGraph : Graph.t :=
  connect
    (snd (Graph.addNode ""
            (Graph.mkNodeData (Some "f"%string) (Some Graph.FOOD_SOURCE)
               (Some (Graph.mkPosition 10 0 0)) None None (Some 3%Q))
            (snd (Graph.addNode "" (nodeAt "n" 0) Graph.empty))))
    "n" "f".

(** A colony on [foodGraph] without ants of its own. *)
Definition foragingColony : AntColony.t :=
  AntColony.mkColony foodGraph [] "n" ∅ {[ "FOOD"%string := 0%Q ]} defaultParams 0 0.

(** An exploring ant on node ["n"], ready to move. *)
Definition scoutingAnt : AntColony.Ant :=
  AntColony.mkAnt "n" None AntColony.WORKER AntColony.EXPLORING None
    ["n"%string] 5 0 [] 1 0.05.

(** [b <= a] on distances. *)
Definition dist_le (b a : Graph.Distance) : Prop := Graph.dist_ltb a b = false.

(** [lineGraph] with the distances to node ["a"]. *)
Definition measuredLine : Graph.t :=
  match Graph.calculateDistances 4 lineGraph "a" with
  | Returned g => g
  | _ => lineGraph
  end.

(** A colony on [measuredLine] with its nest at ["a"]. *)
Definition homeColony : AntColony.t :=
  AntColony.mkColony measuredLine [] "a" ∅ ∅ defaultParams 0 0.

(** A returning ant on node ["c"]. *)
Definition farAnt : AntColony.Ant :=
  AntColony.mkAnt "c" None AntColony.WORKER AntColony.RETURNING (Some "FOOD"%string)
    ["c"%string] 5 0 [] 1 0.05.

(** An ant as the colony creates it: at the nest, exploring, empty-handed. *)
Definition freshAnt (nest : string) (a : AntColony.Ant) : Prop :=
  AntColony.currentNodeId a = nest /\ AntColony.previousNodeId a = None /\
  AntColony.state a = AntColony.EXPLORING /\ AntColony.carrying a = None /\
  AntColony.memory a = [nest] /\ AntColony.path a = [] /\
  AntColony.fatigue a = 0%Q /\ AntColony.movementProgress a = 0%Q.

(** * Properties *)

(** ** Numbers *)

Lemma Qltb_lt (a b : Q) : Qltb a b = true <-> (a < b)%Q.
Proof.
  unfold Qltb. rewrite negb_true_iff. split.
  - intros H. apply Qnot_le_lt. intros Hle.
    apply Qle_bool_iff in Hle. congruence.
  - intros H. destruct (Qle_bool b a) eqn:E; [|reflexivity].
    apply Qle_bool_iff in E. exfalso. eapply Qlt_not_le; eassumption.
Qed.

Lemma Qltb_ge (a b : Q) : Qltb a b = false <-> (b <= a)%Q.
Proof.
  unfold Qltb. rewrite negb_false_iff. apply Qle_bool_iff.
Qed.

Lemma js_min_spec (a b : Q) :
  ((a <= b)%Q /\ js_min a b = a) \/ ((b < a)%Q /\ js_min a b = b).
Proof.
  unfold js_min. destruct (Qle_bool a b) eqn:E.
  - left. split; [by apply Qle_bool_iff|done].
  - right. split; [|done]. apply Qltb_lt. unfold Qltb. by rewrite E.
Qed.

Lemma js_min_le_r (a b : Q) : (js_min a b <= b)%Q.
Proof. destruct (js_min_spec a b) as [[? ->]|[? ->]]; lra. Qed.

Lemma js_min_le_l (a b : Q) : (js_min a b <= a)%Q.
Proof. destruct (js_min_spec a b) as [[? ->]|[? ->]]; lra. Qed.

Lemma js_min_glb (a b c : Q) : (c <= a)%Q -> (c <= b)%Q -> (c <= js_min a b)%Q.
Proof. intros. destruct (js_min_spec a b) as [[? ->]|[? ->]]; lra. Qed.

(** ** Self-edges *)

Section SelfEdge.

Import Graph.

(** C10, as stated, fails: on the graph with the single node ["a"], which has
    no self-edge, [addEdge("a", "a")] returns [true] and leaves ["a"] twice
    in its own adjacency list, so that [hasEdge("a", "a")] is then true. *)
Lemma addEdge_self_not_ignored :
  hasEdge singleNode "a" "a" = false /\
  exists g', addEdge singleNode "a" "a" = Returned (true, g') /\
             hasEdge g' "a" "a" = true /\
             getNeighbors g' "a" = ["a"; "a"]%string.
Proof.
  split; [reflexivity|].
  eexists. split; [vm_compute; reflexivity|]. split; reflexivity.
Qed.

(** C10, amended: for a node [a] of the graph whose adjacency list [l] does
    not hold [a], [addEdge(a, a)] returns [true] and appends [a] twice to
    that list, changing nothing else; afterwards [hasEdge(a, a)] is true and
    [a] is among its own neighbours.  When [a] is already in [l] the call
    changes nothing. *)
Theorem addEdge_self (g : Graph.t) (a : string) (n : Node) (l : list string) :
  nodes g !! a = Some n ->
  edges g !! a = Some l ->
  (a ∉ l ->
   exists g', addEdge g a a = Returned (true, g') /\
              nodes g' = nodes g /\
              pheromones g' = pheromones g /\
              edges g' = <[a := l ++ [a; a]]> (edges g) /\
              hasEdge g' a a = true /\
              a ∈ getNeighbors g' a) /\
  (a ∈ l -> addEdge g a a = Returned (true, g)).
Proof.
  intros Hn He. split; intros Hl.
  - eexists. unfold addEdge, hasEdge, pushEdge. rewrite Hn, He. simpl.
    rewrite bool_decide_eq_false_2 by done.
    rewrite lookup_insert_eq. split; [reflexivity|]. simpl.
    rewrite insert_insert_eq, <- app_assoc. simpl.
    repeat split; try reflexivity.
    + rewrite lookup_insert_eq. apply bool_decide_eq_true_2. set_solver.
    + unfold getNeighbors. simpl. rewrite lookup_insert_eq. simpl. set_solver.
  - unfold addEdge, hasEdge. rewrite Hn, He. simpl.
    by rewrite bool_decide_eq_true_2.
Qed.

Lemma addEdge_self_witness :
  exists g', addEdge singleNode "a" "a" = Returned (true, g') /\
             hasEdge g' "a" "a" = true.
Proof.
  destruct (addEdge_self singleNode "a"
              (mkNode "a" NORMAL (mkPosition 0 0 0) 1 10 0 Infinity false false 0 0 None)
              [] eq_refl eq_refl) as [H _].
  destruct H as (g' & H1 & _ & _ & _ & H2 & _); [set_solver|].
  exists g'. split; assumption.
Defined.

End SelfEdge.

(** ** Role balancing *)

Section RoleBalancing.

Import AntColony.

Lemma roleCounts_app (l : list Ant) (a : Ant) (r : Role) :
  roleCounts (l ++ [a]) r = increment (roleCounts l) (role a) r.
Proof. unfold roleCounts. by rewrite fold_left_app. Qed.


Lemma roleCounts_nonneg (l : list Ant) (r : Role) : (0 <= roleCounts l r)%Z.
Proof.
  induction l as [|a l IH] using rev_ind; [reflexivity|].
  rewrite roleCounts_app. unfold increment. case_decide; lia.
Qed.







Example fiveWorkers_spawn_scout :
  (shortfall fiveWorkers WORKER = -2)%Z /\
  (shortfall fiveWorkers SCOUT = 1)%Z /\
  (shortfall fiveWorkers SOLDIER = 0)%Z /\
  determineAntRole fiveWorkers = SCOUT.
Proof. vm_compute. auto. Qed.


End RoleBalancing.

(** ** The pheromone field *)

Section PheromoneField.

Import AntColony.

Lemma clamp_bounded (l amount : Q) :
  (0 <= l)%Q -> (0 <= amount)%Q ->
  (0 <= js_min (l + amount) 5.0)%Q /\ (js_min (l + amount) 5.0 <= 5)%Q.
Proof.
  intros Hl Ha. split.
  - apply js_min_glb; lra.
  - pose proof (js_min_le_r (l + amount) 5.0). lra.
Qed.

Lemma default_level_nonneg (ph : gmap string PheromoneData) (k : string) :
  fieldBounded ph -> (0 <= level (default (mkData 0) (ph !! k)))%Q.
Proof.
  intros Hb. destruct (ph !! k) as [d|] eqn:E; simpl; [|lra].
  by apply (Hb k d).
Qed.

Lemma fieldBounded_insert (ph : gmap string PheromoneData) (k : string) (l : Q) :
  fieldBounded ph -> (0 <= l)%Q -> (l <= 5)%Q ->
  fieldBounded (<[k := mkData l]> ph).
Proof.
  intros Hb H0 H5 k' d. rewrite lookup_insert. case_decide.
  - intros [= <-]. simpl. split; assumption.
  - apply Hb.
Qed.

Lemma depositPheromone_bounded (c : t) (fromId toId type : string) (amount : Q) :
  (0 <= amount)%Q -> fieldBounded (pheromones c) ->
  fieldBounded (pheromones (depositPheromone c fromId toId type amount)).
Proof.
  intros Ha Hb. unfold depositPheromone. simpl.
  set (ph1 := <[pheromoneKey fromId toId type := _]> (pheromones c)).
  assert (Hb1 : fieldBounded ph1).
  { apply fieldBounded_insert; [done|apply clamp_bounded..];
      auto using default_level_nonneg. }
  apply fieldBounded_insert; [done|apply clamp_bounded..];
    auto using default_level_nonneg; lra.
Qed.

Lemma updatePheromones_bounded (deltaTime : Q) (c : t) :
  (0 <= pheromoneDecayRate (params c) * deltaTime)%Q ->
  (pheromoneDecayRate (params c) * deltaTime <= 1)%Q ->
  fieldBounded (pheromones c) ->
  fieldBounded (pheromones (updatePheromones deltaTime c)).
Proof.
  intros H0 H1 Hb k d. unfold updatePheromones. simpl.
  rewrite lookup_omap. destruct (pheromones c !! k) as [d0|] eqn:E; [|done].
  simpl. unfold decayEntry. case_match; [done|]. intros [= <-]. simpl.
  destruct (Hb k d0 E) as [Hl Hu].
  set (f := (pheromoneDecayRate (params c) * deltaTime)%Q) in *.
  split; [nra|nra].
Qed.

Lemma applyOp_params (c : t) (op : FieldOp) : params (applyOp c op) = params c.
Proof. destruct op; reflexivity. Qed.

Lemma getPheromoneLevel_bounded (c : t) (fromId toId type : string) :
  fieldBounded (pheromones c) ->
  (0 <= getPheromoneLevel c fromId toId type)%Q /\
  (getPheromoneLevel c fromId toId type <= 5)%Q.
Proof.
  intros Hb. unfold getPheromoneLevel.
  destruct (pheromones c !! _) as [d|] eqn:E; [by eapply Hb|lra].
Qed.

(** C4: from a field whose levels lie in [0, 5] (the empty field of a new
    colony is one), any sequence of deposits of non-negative amounts and of
    decay steps with [0 <= decayRate * dt <= 1] leaves every stored level,
    and every level read with [getPheromoneLevel], within [0, 5]. *)
Theorem pheromone_levels_bounded (c : t) (ops : list FieldOp) :
  fieldBounded (pheromones c) ->
  Forall (admissible (pheromoneDecayRate (params c))) ops ->
  fieldBounded (pheromones (fold_left applyOp ops c)) /\
  forall fromId toId type,
    (0 <= getPheromoneLevel (fold_left applyOp ops c) fromId toId type)%Q /\
    (getPheromoneLevel (fold_left applyOp ops c) fromId toId type <= 5)%Q.
Proof.
  intros Hb Hops.
  assert (H : fieldBounded (pheromones (fold_left applyOp ops c))).
  { revert c Hb Hops. induction ops as [|op ops IH]; intros c Hb Hops; [done|].
    inversion_clear Hops as [|? ? Hop Hrest]. simpl. apply IH.
    - destruct op as [f t' ty a|dt]; simpl in *.
      + by apply depositPheromone_bounded.
      + destruct Hop. by apply updatePheromones_bounded.
    - by rewrite applyOp_params. }
  split; [done|]. intros. by apply getPheromoneLevel_bounded.
Qed.

Lemma pheromone_levels_bounded_witness :
  fieldBounded
    (pheromones
       (fold_left applyOp
          [Deposit "a" "b" "FOOD" 4; Decay 1; Deposit "a" "b" "FOOD" 3]
          emptyColony)).
Proof.
  apply (pheromone_levels_bounded emptyColony
           [Deposit "a" "b" "FOOD" 4; Decay 1; Deposit "a" "b" "FOOD" 3]).
  - intros k d Hk. simpl in Hk. rewrite lookup_empty in Hk. discriminate.
  - repeat constructor; simpl; lra.
Defined.

(** *** One deposit *)

(** C7, as stated, fails when the two keys coincide: a deposit of 1 from
    ["a"] to ["a"] on the empty field leaves the level 1.5 under the key,
    not [min(0 + 1, 5.0) = 1]: the reverse update reads the entry the
    forward update has just written. *)
Lemma deposit_same_node_counterexample :
  getPheromoneLevel emptyColony "a" "a" "FOOD" = 0%Q /\
  Qeq_bool (getPheromoneLevel (depositPheromone emptyColony "a" "a" "FOOD" 1)
              "a" "a" "FOOD") 1.5 = true /\
  Qeq_bool (getPheromoneLevel (depositPheromone emptyColony "a" "a" "FOOD" 1)
              "a" "a" "FOOD")
           (js_min (getPheromoneLevel emptyColony "a" "a" "FOOD" + 1) 5.0) = false.
Proof. vm_compute. auto. Qed.

(** C7, amended: when the key of (from, to, type) and the key of
    (to, from, type) differ, a deposit sets the level of the first to
    [min(old + amount, 5.0)], the level of the second to
    [min(oldReverse + amount * 0.5, 5.0)] and changes no other entry; this
    holds for [depositPheromone] of the colony and for a successful
    [placePheromone] of the server. *)
Theorem deposit_levels (fromId toId type : string) (amount : Q) :
  pheromoneKey fromId toId type <> pheromoneKey toId fromId type ->
  (forall c : t,
     let c' := depositPheromone c fromId toId type amount in
     getPheromoneLevel c' fromId toId type
       = js_min (getPheromoneLevel c fromId toId type + amount) 5.0 /\
     getPheromoneLevel c' toId fromId type
       = js_min (getPheromoneLevel c toId fromId type + amount * 0.5) 5.0 /\
     forall k, k <> pheromoneKey fromId toId type ->
               k <> pheromoneKey toId fromId type ->
               pheromones c' !! k = pheromones c !! k) /\
  (forall (gm gm' : GameManager.t) (player : string),
     GameManager.placePheromone gm player fromId toId type amount = (true, gm') ->
     let ph := Graph.pheromones (GameManager.graph gm) in
     let ph' := Graph.pheromones (GameManager.graph gm') in
     storedLevel ph' (pheromoneKey fromId toId type)
       = js_min (storedLevel ph (pheromoneKey fromId toId type) + amount) 5.0 /\
     storedLevel ph' (pheromoneKey toId fromId type)
       = js_min (storedLevel ph (pheromoneKey toId fromId type) + amount * 0.5) 5.0 /\
     forall k, k <> pheromoneKey fromId toId type ->
               k <> pheromoneKey toId fromId type ->
               ph' !! k = ph !! k).
Proof.
  intros Hne. split.
  - intros c c'. subst c'. unfold getPheromoneLevel, depositPheromone. simpl.
    rewrite lookup_insert_ne by done. rewrite lookup_insert_eq.
    rewrite lookup_insert_eq. rewrite (lookup_insert_ne _ _ _ _ Hne).
    repeat split.
    + by destruct (pheromones c !! pheromoneKey fromId toId type).
    + by destruct (pheromones c !! pheromoneKey toId fromId type).
    + intros k H1 H2. by rewrite !lookup_insert_ne.
  - intros gm gm' player. unfold GameManager.placePheromone.
    destruct (GameManager.players gm !! player) as [p|]; [|discriminate].
    destruct (negb _); [discriminate|].
    destruct (Qltb _ _); [discriminate|].
    rewrite (bool_decide_eq_false_2 _ Hne). simpl.
    intros [= <-]. simpl. unfold storedLevel.
    rewrite lookup_insert_ne by done. rewrite !lookup_insert_eq.
    repeat split.
    + by destruct (Graph.pheromones (GameManager.graph gm) !! pheromoneKey fromId toId type).
    + by destruct (Graph.pheromones (GameManager.graph gm) !! pheromoneKey toId fromId type).
    + intros k H1 H2. by rewrite !lookup_insert_ne.
Qed.

Lemma deposit_levels_witness :
  getPheromoneLevel (depositPheromone emptyColony "a" "b" "FOOD" 1) "a" "b" "FOOD"
  = js_min (getPheromoneLevel emptyColony "a" "b" "FOOD" + 1) 5.0.
Proof.
  assert (H : pheromoneKey "a" "b" "FOOD" <> pheromoneKey "b" "a" "FOOD")
    by (vm_compute; discriminate).
  exact (proj1 (proj1 (deposit_levels "a" "b" "FOOD" 1 H) emptyColony)).
Defined.

Lemma comma_prefix_inj (s1 s2 r1 r2 : string) :
  commaFree s1 = true -> commaFree s2 = true ->
  s1 +:+ "," +:+ r1 = s2 +:+ "," +:+ r2 -> s1 = s2.
Proof.
  revert s2. induction s1 as [|a s1 IH]; intros [|b s2]; simpl; intros H1 H2 E.
  - reflexivity.
  - injection E as <- _. simpl in H2. discriminate.
  - injection E as -> _. simpl in H1. discriminate.
  - apply andb_prop in H1 as [_ H1]. apply andb_prop in H2 as [_ H2].
    injection E as -> E. f_equal. by apply IH.
Qed.

(** The two keys of a deposit differ as soon as the two node ids differ
    and hold no comma. *)
Lemma pheromoneKey_distinct (fromId toId type : string) :
  commaFree fromId = true -> commaFree toId = true -> fromId <> toId ->
  pheromoneKey fromId toId type <> pheromoneKey toId fromId type.
Proof.
  intros Hf Ht Hne E. apply Hne. unfold pheromoneKey in E.
  eapply comma_prefix_inj; eassumption.
Qed.

End PheromoneField.

(** ** Fatigue and rest *)

Section Fatigue.

Import AntColony.



Lemma updateFatigue_fatigue (dt : Q) (a : Ant) :
  fatigue (Ant.updateFatigue dt a) = (fatigue a + fatigueRate a * dt)%Q.
Proof. unfold Ant.updateFatigue. case_match; reflexivity. Qed.




End Fatigue.

(** ** The order of a colony tick *)

Section TickOrder.

Import AntColony.

Variable random : nat -> Q.

Lemma updateAnts_inOrder (deltaTime : Q) (todo : list Ant) :
  forall c done c1 ants1,
    updateAnts random deltaTime c done todo = Some (c1, ants1) ->
    exists rest1, ants1 = done ++ rest1 /\
                  antsInOrder random deltaTime c todo c1 rest1.
Proof.
  induction todo as [|a todo IH]; intros c done c1 ants1; simpl.
  - intros [= <- <-]. exists []. split; [by rewrite app_nil_r|constructor].
  - destruct (Ant.update random deltaTime c a) as [[c' a']|] eqn:E; [|discriminate].
    intros H. apply IH in H as (rest1 & -> & H).
    exists (a' :: rest1). split; [by rewrite <- app_assoc|].
    econstructor; eassumption.
Qed.

Lemma antsInOrder_length (deltaTime : Q) c l c1 l1 :
  antsInOrder random deltaTime c l c1 l1 -> length l1 = length l.
Proof. induction 1; simpl; congruence. Qed.

Lemma updateAntSpawning_effect (deltaTime : Q) (c : t) :
  let c' := updateAntSpawning deltaTime c in
  (ants c' = ants c \/ exists a, ants c' = ants c ++ [a]) /\
  pheromones c' = pheromones c /\ graph c' = graph c /\
  resources c' = resources c /\ params c' = params c.
Proof.
  unfold updateAntSpawning. repeat case_match; simpl; eauto 10.
Qed.

(** C3, amended: in a colony tick that returns, every ant is updated first,
    in the order of the ant collection, the first against the colony as the
    tick found it (the field not yet decayed by this tick) and each next one
    against the colony the previous ant left; then at most one ant is
    appended; the decay comes last, applied to the field the ants have
    left. *)
Theorem update_order (deltaTime : Q) (c c' : t) :
  update random deltaTime c = Some c' ->
  exists c1 ants1,
    antsInOrder random deltaTime c (ants c) c1 ants1 /\
    length ants1 = length (ants c) /\
    (ants c' = ants1 \/ exists a, ants c' = ants1 ++ [a]) /\
    pheromones c' =
      omap (decayEntry (pheromoneDecayRate (params c1)) deltaTime) (pheromones c1) /\
    (forall fromId toId type,
       let l := (getPheromoneLevel c1 fromId toId type
                 * (1 - pheromoneDecayRate (params c1) * deltaTime))%Q in
       getPheromoneLevel c' fromId toId type = if Qltb l 0.01 then 0%Q else l).
Proof.
  unfold update.
  destruct (updateAnts random deltaTime c [] (ants c)) as [[c1 ants1]|] eqn:E;
    [|discriminate].
  intros [= <-].
  apply updateAnts_inOrder in E as (rest1 & -> & H). cbn [app].
  exists c1, rest1. split; [assumption|].
  split; [by eapply antsInOrder_length|].
  destruct (updateAntSpawning_effect deltaTime (setAnts c1 rest1))
    as (Ha & Hp & _ & _ & Hpar).
  split; [exact Ha|].
  assert (Hph : pheromones (updatePheromones deltaTime
                              (updateAntSpawning deltaTime (setAnts c1 rest1)))
                = omap (decayEntry (pheromoneDecayRate (params c1)) deltaTime)
                    (pheromones c1)).
  { unfold updatePheromones at 1. cbn [pheromones setPheromones].
    rewrite Hp, Hpar. reflexivity. }
  split; [exact Hph|].
  intros fromId toId type. unfold getPheromoneLevel. rewrite Hph, lookup_omap.
  destruct (pheromones c1 !! pheromoneKey fromId toId type) as [d|]; simpl.
  - unfold decayEntry. by destruct (Qltb _ _).
  - reflexivity.
Qed.

End TickOrder.

(** C3, as stated, fails: the decay is the last step of a tick, not the
    first.  On [transitColony] the ant deposits on the saturated trail
    (the level stays 5) and the decay then lowers it to 4.75; with the decay
    first, as the claim has it, the level would end at 5. *)
Lemma tick_decay_last_counterexample :
  exists c1 c2,
    AntColony.update (λ _, 0%Q) 1 transitColony = Some c1 /\
    tickAsSpecified (λ _, 0%Q) 1 transitColony = Some c2 /\
    Qeq_bool (AntColony.getPheromoneLevel c1 "n" "m" "FOOD") 4.75 = true /\
    Qeq_bool (AntColony.getPheromoneLevel c2 "n" "m" "FOOD") 5 = true.
Proof. do 2 eexists. vm_compute. repeat split; reflexivity. Qed.

Lemma update_order_witness :
  exists c' c1 ants1,
    AntColony.update (λ _, 0%Q) 1 transitColony = Some c' /\
    antsInOrder (λ _, 0%Q) 1 transitColony (AntColony.ants transitColony) c1 ants1 /\
    length ants1 = 1%nat.
Proof.
  destruct (AntColony.update (λ _, 0%Q) 1 transitColony) as [c'|] eqn:E;
    [|vm_compute in E; discriminate].
  destruct (update_order (λ _, 0%Q) 1 transitColony c' E)
    as (c1 & ants1 & H1 & H2 & _).
  exists c', c1, ants1. repeat split; assumption.
Defined.

(** ** Resources and capacity *)

Section NodeResources.

Import Graph.

(** The regeneration of [updateNodes] respects the capacity: a node within
    its capacity stays within it. *)
Lemma updateNode_keeps_bound (dt : Q) (n : Node) :
  (resources n <= capacity n)%Q ->
  (resources (GameManager.updateNode dt n) <= capacity (GameManager.updateNode dt n))%Q.
Proof.
  intros H. unfold GameManager.updateNode.
  repeat case_match; simplify_eq; simpl; try assumption.
  all: apply js_min_le_r.
Qed.

(** C6 fails on the code: the node that [createDefaultGraph] adds for the
    grid cell (-5, -5), a FOOD_SOURCE, has resources 100 and capacity 10,
    whatever the graph so far and the generated id; [updateNodes] leaves
    these resources as they are. *)
Theorem corner_cell_exceeds_capacity (fresh : string) (height : Q) (g : Graph.t) :
  exists n,
    nodes (snd (addNode fresh (GameManager.cellNodeData (-5) (-5) height) g))
      !! fst (addNode fresh (GameManager.cellNodeData (-5) (-5) height) g) = Some n /\
    type n = FOOD_SOURCE /\
    resources n = 100%Q /\
    capacity n = 10%Q /\
    Qltb (capacity n) (resources n) = true /\
    forall dt, resources (GameManager.updateNode dt n) = 100%Q.
Proof.
  eexists. split; [apply lookup_insert_eq|]. simpl.
  do 4 (split; [reflexivity|]). intros dt. unfold GameManager.updateNode. simpl.
  repeat case_match; simplify_eq; reflexivity.
Qed.

End NodeResources.

(** ** Distances to the nest *)

Section Distances.

Import Graph.

Lemma getNeighbors_elem (g : Graph.t) (a b : string) :
  b ∈ getNeighbors g a <-> exists l, edges g !! a = Some l /\ b ∈ l.
Proof.
  unfold getNeighbors. destruct (edges g !! a) as [l|]; simpl.
  - split; [eauto|]. by intros (l' & [= <-] & H).
  - split; [by intros H%elem_of_nil|]. by intros (l' & [=] & _).
Qed.

Lemma closedEdges_spec (g : Graph.t) :
  closedEdges g <-> forall a b, b ∈ getNeighbors g a -> is_Some (nodes g !! b).
Proof.
  unfold closedEdges. rewrite map_Forall_lookup. split.
  - intros H a b (l & Hl & Hb)%getNeighbors_elem.
    specialize (H a l Hl). rewrite Forall_forall in H. by apply H.
  - intros H a l Hl. apply Forall_forall. intros b Hb. apply (H a).
    apply getNeighbors_elem. eauto.
Qed.

Lemma symmetricEdges_spec (g : Graph.t) :
  symmetricEdges g <-> forall a b, b ∈ getNeighbors g a -> a ∈ getNeighbors g b.
Proof.
  unfold symmetricEdges. rewrite map_Forall_lookup. split.
  - intros H a b (l & Hl & Hb)%getNeighbors_elem.
    specialize (H a l Hl). rewrite Forall_forall in H. by apply H.
  - intros H a l Hl. apply Forall_forall. intros b Hb. apply H.
    apply getNeighbors_elem. eauto.
Qed.

Lemma visit_shrinks (X V : gset string) (cur : string) :
  cur ∈ X -> cur ∉ V ->
  stdpp.base.size (X ∖ ({[cur]} ∪ V)) < stdpp.base.size (X ∖ V).
Proof.
  intros HX HV. apply subset_size. split.
  - intros x [Hx Hn]%elem_of_difference. apply elem_of_difference.
    split; [done|]. intros Hin. apply Hn. apply elem_of_union. by right.
  - intros Hsub. assert (Hc : cur ∈ X ∖ V) by (by apply elem_of_difference).
    apply Hsub, elem_of_difference in Hc as [_ Hc]. apply Hc.
    apply elem_of_union. left. by apply elem_of_singleton.
Qed.

Lemma hops_front (g : Graph.t) (a b c : string) (n : nat) :
  b ∈ getNeighbors g a -> hops g b c n -> hops g a c (S n).
Proof.
  intros Hab H. induction H as [|x y n H IH Hxy].
  - econstructor; [constructor|assumption].
  - econstructor; eassumption.
Qed.

Lemma hops_reverse (g : Graph.t) (a b : string) (n : nat) :
  symmetricEdges g -> hops g a b n -> hops g b a n.
Proof.
  intros Hsym H. rewrite symmetricEdges_spec in Hsym. induction H as [|x y n H IH Hxy].
  - constructor.
  - eapply hops_front; [apply Hsym; eassumption|assumption].
Qed.

Lemma distOf_insert_eq (ns : gmap string Node) (v : string) (n : Node) :
  distOf (<[v := n]> ns) v = Some (distanceToNest n).
Proof. unfold distOf. by rewrite lookup_insert_eq. Qed.

Lemma distOf_insert_ne (ns : gmap string Node) (v w : string) (n : Node) :
  v <> w -> distOf (<[v := n]> ns) w = distOf ns w.
Proof. intros H. unfold distOf. by rewrite lookup_insert_ne. Qed.

Lemma setDistance_twice (n : Node) (d d' : Distance) :
  setDistance (setDistance n d) d' = setDistance n d'.
Proof. reflexivity. Qed.

Lemma distanceToNest_set (n : Node) (d : Distance) :
  distanceToNest (setDistance n d) = d.
Proof. reflexivity. Qed.

Lemma dist_ltb_succ_false (k : nat) (d : Distance) :
  dist_ltb (Hops (S k)) d = false -> exists j, d = Hops j /\ j <= S k.
Proof.
  destruct d as [j|]; simpl; [|discriminate].
  intros H. apply bool_decide_eq_false in H. exists j. split; [done|lia].
Qed.

Lemma dist_ltb_succ_true (k j : nat) :
  dist_ltb (Hops (S k)) (Hops j) = true -> S k < j.
Proof. simpl. intros H. by apply bool_decide_eq_true in H. Qed.

Lemma relaxNeighbors_cons V cd nb rest ns q :
  relaxNeighbors V cd (nb :: rest) ns q =
  if bool_decide (nb ∈ V) then relaxNeighbors V cd rest ns q
  else match ns !! nb with
       | None => None
       | Some neighbor =>
         if dist_ltb (dist_succ cd) (distanceToNest neighbor)
         then relaxNeighbors V cd rest
                (<[nb := setDistance neighbor (dist_succ cd)]> ns) (q ++ [nb])
         else relaxNeighbors V cd rest ns q
       end.
Proof. reflexivity. Qed.

Lemma distanceLoop_cons fuel es ns cur q V :
  distanceLoop (S fuel) es ns (cur :: q) V =
  if bool_decide (cur ∈ V) then distanceLoop fuel es ns q V
  else match ns !! cur with
       | None => Threw
       | Some current =>
         match relaxNeighbors ({[cur]} ∪ V) (distanceToNest current)
                 (default [] (es !! cur)) ns q with
         | None => Threw
         | Some (ns', q') => distanceLoop fuel es ns' q' ({[cur]} ∪ V)
         end
       end.
Proof. reflexivity. Qed.

Variable g : Graph.t.
Variable T : string.
Hypothesis Hclosed :
  forall a b, b ∈ getNeighbors g a -> is_Some (nodes g !! b).

(** A visited node and one of its neighbours: the neighbour has a distance,
    at most one more than the node's. *)
Definition settled (ns : gmap string Node) (v nb : string) : Prop :=
  exists j jv, distOf ns nb = Some (Hops j) /\ distOf ns v = Some (Hops jv) /\ j <= S jv.

(** The invariant of the queue loop; [k] is the distance of the nodes at
    the front of the queue. *)
Record Core (ns : gmap string Node) (q : list string) (V : gset string) (k : nat)
  : Prop := mkCore {
  core_frame : forall v n, ns !! v = Some n ->
     exists n0, nodes g !! v = Some n0 /\ n = setDistance n0 (distanceToNest n);
  core_dom : forall v, is_Some (nodes g !! v) -> is_Some (ns !! v);
  core_target : distOf ns T = Some (Hops 0);
  core_sound : forall v j, distOf ns v = Some (Hops j) -> hops g T v j;
  core_seen : forall v j, distOf ns v = Some (Hops j) -> v ∈ V \/ v ∈ q;
  core_level : exists q1 q2, q = q1 ++ q2 /\
     Forall (λ v, distOf ns v = Some (Hops k)) q1 /\
     Forall (λ v, distOf ns v = Some (Hops (S k))) q2;
  core_visited : forall v, v ∈ V -> exists j, distOf ns v = Some (Hops j) /\ j <= k;
  core_fresh : NoDup q /\ forall v, v ∈ q -> v ∉ V
}.

Lemma core_queue_dist ns q V k v :
  Core ns q V k -> v ∈ q -> exists j, distOf ns v = Some (Hops j) /\ j <= S k.
Proof.
  intros HC Hv. destruct (core_level _ _ _ _ HC) as (q1 & q2 & -> & H1 & H2).
  rewrite Forall_forall in H1, H2.
  apply elem_of_app in Hv as [Hv|Hv]; eauto.
Qed.

(** Raising one node from [Infinity] to [S k] and pushing it on the queue
    keeps the invariant. *)
Lemma core_push ns q V k cur nb neighbor :
  Core ns q V k ->
  distOf ns cur = Some (Hops k) ->
  nb ∈ getNeighbors g cur ->
  nb ∉ V ->
  ns !! nb = Some neighbor ->
  distanceToNest neighbor = Infinity ->
  Core (<[nb := setDistance neighbor (Hops (S k))]> ns) (q ++ [nb]) V k.
Proof.
  intros HC Hcur Hnb HnV Hlk Hinf.
  assert (Hne : forall v j, distOf ns v = Some (Hops j) -> nb <> v).
  { intros v j Hv ->. unfold distOf in Hv. rewrite Hlk in Hv. simpl in Hv. congruence. }
  assert (Hkeep : forall v j, distOf ns v = Some (Hops j) ->
            distOf (<[nb := setDistance neighbor (Hops (S k))]> ns) v = Some (Hops j)).
  { intros v j Hv. rewrite distOf_insert_ne; [done|]. eapply Hne; eassumption. }
  assert (Hnq : nb ∉ q).
  { intros Hq. destruct (core_queue_dist _ _ _ _ _ HC Hq) as (j & Hj & _).
    by eapply Hne. }
  destruct HC as [Hframe Hdom Htarget Hsound Hseen Hlevel Hvis [Hnd Hfresh]].
  split.
  - intros v n. rewrite lookup_insert. case_decide as E.
    + subst v. intros [= <-]. destruct (Hframe nb neighbor Hlk) as (n0 & H0 & Hn).
      exists n0. split; [done|]. rewrite Hn. reflexivity.
    + apply Hframe.
  - intros v Hv. rewrite lookup_insert. case_decide; [by eexists|by apply Hdom].
  - by apply Hkeep.
  - intros v j. destruct (decide (nb = v)) as [<-|E].
    + rewrite distOf_insert_eq. simpl. intros [= <-].
      econstructor; [|exact Hnb]. by apply Hsound.
    + rewrite distOf_insert_ne by done. apply Hsound.
  - intros v j. destruct (decide (nb = v)) as [<-|E].
    + intros _. right. apply elem_of_app. right. by apply list_elem_of_singleton.
    + rewrite distOf_insert_ne by done. intros Hv.
      destruct (Hseen v j Hv); [by left|right; apply elem_of_app; by left].
  - destruct Hlevel as (q1 & q2 & -> & H1 & H2).
    exists q1, (q2 ++ [nb]). split; [by rewrite app_assoc|].
    split.
    + eapply Forall_impl; [exact H1|]. intros v Hv. by apply Hkeep.
    + apply Forall_app. split.
      * eapply Forall_impl; [exact H2|]. intros v Hv. by apply Hkeep.
      * constructor; [|constructor]. by rewrite distOf_insert_eq.
  - intros v Hv. destruct (Hvis v Hv) as (j & Hj & Hle). exists j. split; [|done].
    by apply Hkeep.
  - split.
    + apply NoDup_app. split; [done|]. split; [|apply NoDup_singleton].
      intros x Hx Hx'. apply list_elem_of_singleton in Hx'. by subst x.
    + intros v Hv. apply elem_of_app in Hv as [Hv|Hv]; [by apply Hfresh|].
      apply list_elem_of_singleton in Hv. by subst v.
Qed.

Lemma settled_push ns nb neighbor d v w :
  ns !! nb = Some neighbor ->
  distanceToNest neighbor = Infinity ->
  settled ns v w ->
  settled (<[nb := setDistance neighbor d]> ns) v w.
Proof.
  intros Hlk Hinf (j & jv & Hw & Hv & Hle).
  assert (Hne : forall x i, distOf ns x = Some (Hops i) -> nb <> x).
  { intros x i Hx ->. unfold distOf in Hx. rewrite Hlk in Hx. simpl in Hx. congruence. }
  exists j, jv. rewrite !distOf_insert_ne by (eapply Hne; eassumption). done.
Qed.


(** The loop over the neighbours of [cur], a visited node at distance [k]:
    it does not throw, keeps the invariant and settles every neighbour of
    [cur]. *)
Lemma relaxNeighbors_ok cur V k (HcurV : cur ∈ V) :
  forall todo ns q,
    (forall nb, nb ∈ todo -> nb ∈ getNeighbors g cur) ->
    distOf ns cur = Some (Hops k) ->
    Core ns q V k ->
    (forall v nb, v ∈ V -> nb ∈ getNeighbors g v ->
                  ~ (v = cur /\ nb ∈ todo) -> settled ns v nb) ->
    exists ns' q',
      relaxNeighbors V (Hops k) todo ns q = Some (ns', q') /\
      Core ns' q' V k /\
      (forall v nb, v ∈ V -> nb ∈ getNeighbors g v -> settled ns' v nb).
Proof.
  induction todo as [|nb rest IH]; intros ns q Hsub Hcur HC Hset.
  - exists ns, q. split; [reflexivity|]. split; [assumption|].
    intros v x Hv Hx. apply Hset; [done..|]. intros [_ Hin]. by apply elem_of_nil in Hin.
  - assert (Hnb : nb ∈ getNeighbors g cur) by (apply Hsub; left).
    assert (Hsub' : forall x, x ∈ rest -> x ∈ getNeighbors g cur)
      by (intros x Hx; apply Hsub; by right).
    (* what remains to show once [nb] itself is settled *)
    assert (Hnext : forall ns1,
              settled ns1 cur nb ->
              (forall v x, settled ns v x -> settled ns1 v x) ->
              forall v x, v ∈ V -> x ∈ getNeighbors g v ->
                          ~ (v = cur /\ x ∈ rest) -> settled ns1 v x).
    { intros ns1 Hone Hmono v x Hv Hx Hnot.
      destruct (decide (v = cur /\ x = nb)) as [[-> ->]|Hd]; [exact Hone|].
      apply Hmono, Hset; [done..|]. intros [-> Hin].
      apply elem_of_cons in Hin as [->|Hin]; [by apply Hd|by apply Hnot]. }
    rewrite relaxNeighbors_cons. cbn [dist_succ]. case_bool_decide as HnbV.
    + apply IH; [done..|]. apply Hnext; [|done].
      destruct (core_visited _ _ _ _ HC nb HnbV) as (j & Hj & Hle).
      exists j, k. repeat split; [done..|lia].
    + destruct (core_dom _ _ _ _ HC nb (Hclosed _ _ Hnb)) as [neighbor Hlk].
      rewrite Hlk.
      destruct (dist_ltb (Hops (S k)) (distanceToNest neighbor)) eqn:Hlt.
      * assert (Hinf : distanceToNest neighbor = Infinity).
        { destruct (distanceToNest neighbor) as [j|] eqn:Hd; [|done]. exfalso.
          apply dist_ltb_succ_true in Hlt.
          assert (Hj : distOf ns nb = Some (Hops j))
            by (unfold distOf; by rewrite Hlk; simpl; rewrite Hd).
          destruct (core_seen _ _ _ _ HC nb j Hj) as [?|Hq]; [done|].
          destruct (core_queue_dist _ _ _ _ _ HC Hq) as (j' & Hj' & Hle).
          rewrite Hj in Hj'. injection Hj' as <-. lia. }
        assert (Hne : nb <> cur).
        { intros ->. unfold distOf in Hcur. rewrite Hlk in Hcur. simpl in Hcur.
          congruence. }
        apply IH; [done| |by eapply core_push|].
        -- by rewrite distOf_insert_ne.
        -- apply Hnext.
           ++ exists (S k), k. rewrite distOf_insert_eq, distOf_insert_ne by done.
              repeat split; [done|lia].
           ++ intros v x. by apply settled_push.
      * apply dist_ltb_succ_false in Hlt as (j & Hj & Hle).
        apply IH; [done..|]. apply Hnext; [|done].
        exists j, k. unfold distOf at 1. rewrite Hlk. simpl. rewrite Hj.
        repeat split; [done|lia].
Qed.

(** The queue loop returns when it has as much fuel as there are nodes not
    yet visited, and then the queue is empty, the invariant holds and every
    visited node is settled. *)
Lemma distanceLoop_ok :
  forall fuel ns q V k,
    Core ns q V k ->
    (forall v nb, v ∈ V -> nb ∈ getNeighbors g v -> settled ns v nb) ->
    stdpp.base.size (dom (nodes g) ∖ V) <= fuel ->
    exists ns' V' k',
      distanceLoop fuel (edges g) ns q V = Returned ns' /\
      Core ns' [] V' k' /\
      (forall v nb, v ∈ V' -> nb ∈ getNeighbors g v -> settled ns' v nb).
Proof.
  induction fuel as [|fuel IH]; intros ns q V k HC Hset Hfuel;
    (destruct q as [|cur q]; [exists ns, V, k; simpl; auto|]).
  all: assert (Hq : cur ∈ cur :: q) by left.
  all: destruct (core_queue_dist _ _ _ _ _ HC Hq) as (kc & Hkc & _).
  all: assert (HcurV : cur ∉ V) by (by apply (proj2 (core_fresh _ _ _ _ HC))).
  all: assert (Hnode : cur ∈ dom (nodes g)).
  1, 3: (unfold distOf in Hkc; destruct (ns !! cur) as [n|] eqn:E; [|done];
         destruct (core_frame _ _ _ _ HC cur n E) as (n0 & H0 & _);
         apply elem_of_dom; by eexists).
  all: pose proof (visit_shrinks _ _ _ Hnode HcurV) as Hlt.
  - lia.
  - rewrite distanceLoop_cons, bool_decide_eq_false_2 by done.
    unfold distOf in Hkc. destruct (ns !! cur) as [current|] eqn:Hlk; [|done].
    simpl in Hkc. injection Hkc as Hkc. rewrite Hkc.
    assert (Hdist : distOf ns cur = Some (Hops kc))
      by (unfold distOf; rewrite Hlk; simpl; by rewrite Hkc).
    (* the invariant once [cur] has left the queue and is visited *)
    assert (HC' : Core ns q ({[cur]} ∪ V) kc).
    { destruct HC as [Hframe Hdom Htarget Hsound Hseen Hlevel Hvis [Hnd Hfresh]].
      apply NoDup_cons in Hnd as [Hcq Hnd].
      destruct Hlevel as (q1 & q2 & Hq12 & H1 & H2).
      assert (Hk : k <= kc /\ exists q1' q2', q = q1' ++ q2' /\
                Forall (λ v, distOf ns v = Some (Hops kc)) q1' /\
                Forall (λ v, distOf ns v = Some (Hops (S kc))) q2').
      { destruct q1 as [|x q1]; simpl in Hq12.
        - subst q2. apply Forall_cons in H2 as [Hx H2].
          rewrite Hdist in Hx. injection Hx as ->.
          split; [lia|]. exists q, []. rewrite app_nil_r. auto.
        - injection Hq12 as <- ->. apply Forall_cons in H1 as [Hx H1].
          rewrite Hdist in Hx. injection Hx as ->.
          split; [lia|]. exists q1, q2. auto. }
      destruct Hk as [Hle Hlevel'].
      split; try assumption.
      - intros v j Hv. destruct (Hseen v j Hv) as [?|Hin]; [left; apply elem_of_union; by right|].
        apply elem_of_cons in Hin as [->|?]; [|by right].
        left. apply elem_of_union. left. by apply elem_of_singleton.
      - intros v Hv. apply elem_of_union in Hv as [Hv|Hv].
        + apply elem_of_singleton in Hv as ->. exists kc. split; [done|lia].
        + destruct (Hvis v Hv) as (j & Hj & ?). exists j. split; [done|lia].
      - split; [done|]. intros v Hv Hin. apply elem_of_union in Hin as [Hin|Hin].
        + apply elem_of_singleton in Hin as ->. done.
        + eapply Hfresh; [right; eassumption|done]. }
    assert (HcurV' : cur ∈ ({[cur]} ∪ V : gset string))
      by (apply elem_of_union; left; by apply elem_of_singleton).
    destruct (relaxNeighbors_ok cur ({[cur]} ∪ V) kc HcurV'
                (getNeighbors g cur) ns q ltac:(auto) Hdist HC')
      as (ns' & q' & Hrelax & HC'' & Hset'').
    { intros v x Hv Hx Hnot. apply Hset; [|done].
      apply elem_of_union in Hv as [Hv|Hv]; [|done].
      apply elem_of_singleton in Hv as ->. exfalso. by apply Hnot. }
    unfold getNeighbors in Hrelax. rewrite Hrelax.
    apply (IH ns' q' ({[cur]} ∪ V) kc); [done..|lia].
Qed.


(** The state in which [calculateDistances] enters the loop. *)
Lemma initial_core (n0 : Node) :
  nodes g !! T = Some n0 ->
  Core (<[T := setDistance (setDistance n0 Infinity) (Hops 0)]>
          ((λ n, setDistance n Infinity) <$> nodes g))
       [T] ∅ 0.
Proof.
  intros HT.
  assert (Hfin : forall v j,
            distOf (<[T := setDistance (setDistance n0 Infinity) (Hops 0)]>
                      ((λ n, setDistance n Infinity) <$> nodes g)) v = Some (Hops j) ->
            v = T /\ j = 0).
  { intros v j. destruct (decide (T = v)) as [<-|E].
    - rewrite distOf_insert_eq. simpl. by intros [= <-].
    - rewrite distOf_insert_ne by done. unfold distOf. rewrite lookup_fmap.
      destruct (nodes g !! v); simpl; discriminate. }
  split.
  - intros v n. rewrite lookup_insert. case_decide as E.
    + subst v. intros [= <-]. by exists n0.
    + rewrite lookup_fmap. destruct (nodes g !! v) as [m|]; simpl; [|done].
      intros [= <-]. by exists m.
  - intros v Hv. rewrite lookup_insert. case_decide; [by eexists|].
    rewrite lookup_fmap. destruct Hv as [m ->]. by eexists.
  - by rewrite distOf_insert_eq.
  - intros v j Hv. apply Hfin in Hv as [-> ->]. constructor.
  - intros v j Hv. apply Hfin in Hv as [-> ->]. right. left.
  - exists [T], []. repeat split; [|constructor].
    constructor; [|constructor]. by rewrite distOf_insert_eq.
  - intros v Hv. by apply elem_of_empty in Hv.
  - split; [apply NoDup_singleton|]. intros v _ Hv. by apply elem_of_empty in Hv.
Qed.

Lemma calculateDistances_closed (fuel : nat) :
  is_Some (nodes g !! T) ->
  symmetricEdges g ->
  stdpp.base.size (dom (nodes g)) <= fuel ->
  exists g',
    calculateDistances fuel g T = Returned g' /\
    edges g' = edges g /\
    pheromones g' = pheromones g /\
    (forall v, is_Some (nodes g' !! v) <-> is_Some (nodes g !! v)) /\
    (forall v n', nodes g' !! v = Some n' ->
       exists n, nodes g !! v = Some n /\ n' = setDistance n (distanceToNest n')) /\
    distOf (nodes g') T = Some (Hops 0) /\
    (forall N L, shortestHops g N T L -> distOf (nodes g') N = Some (Hops L)) /\
    (forall N, is_Some (nodes g !! N) -> (forall L, ~ hops g N T L) ->
               distOf (nodes g') N = Some Infinity).
Proof.
  intros [n0 HT] Hsym Hfuel.
  unfold calculateDistances. rewrite lookup_fmap, HT. simpl.
  destruct (distanceLoop_ok fuel _ [T] ∅ 0 (initial_core n0 HT))
    as (ns' & V' & k' & Hloop & HC & Hset).
  { intros v nb Hv. by apply elem_of_empty in Hv. }
  { by rewrite difference_empty_L. }
  rewrite Hloop. eexists. split; [reflexivity|]. simpl.
  destruct HC as [Hframe Hdom Htarget Hsound Hseen _ _ _].
  (* every node that a path from [T] reaches has a distance no longer than
     the path *)
  assert (Hupper : forall v L, hops g T v L ->
            exists j, distOf ns' v = Some (Hops j) /\ j <= L).
  { intros v L H. induction H as [|b c n H IH Hbc].
    - exists 0. split; [done|lia].
    - destruct IH as (j & Hj & Hle).
      destruct (Hseen b j Hj) as [Hb|Hb]; [|by apply elem_of_nil in Hb].
      destruct (Hset b c Hb Hbc) as (jc & jb & Hc & Hb' & Hle').
      rewrite Hj in Hb'. injection Hb' as <-. exists jc. split; [done|lia]. }
  repeat split; try done.
  - intros [n' Hn']. destruct (Hframe v n' Hn') as (n & Hn & _). by eexists.
  - apply Hdom.
  - intros N L [Hpath Hleast].
    destruct (Hupper N L (hops_reverse _ _ _ _ Hsym Hpath)) as (j & Hj & Hle).
    rewrite Hj. do 2 f_equal.
    apply Hsound, (hops_reverse _ _ _ _ Hsym), Hleast in Hj. lia.
  - intros N HN Hnone. destruct (Hdom N HN) as [n Hn].
    unfold distOf. rewrite Hn. simpl.
    destruct (distanceToNest n) as [j|] eqn:Hd; [exfalso|done].
    apply (Hnone j), (hops_reverse _ _ _ _ Hsym), Hsound.
    unfold distOf. rewrite Hn. simpl. by rewrite Hd.
Qed.

End Distances.

(** C1: on a graph whose adjacency lists are symmetric and name only nodes,
    with as much fuel as there are nodes, [calculateDistances(T)] for a node
    [T] returns; it changes nothing but the [distanceToNest] fields; [T]
    gets distance 0, every node with a shortest hop-path of length [L] to
    [T] gets distance [L], and every node from which [T] cannot be reached
    gets [Infinity]. *)
Theorem calculateDistances_correct (g : Graph.t) (T : string) (fuel : nat) :
  is_Some (Graph.nodes g !! T) ->
  closedEdges g ->
  symmetricEdges g ->
  stdpp.base.size (dom (Graph.nodes g)) <= fuel ->
  exists g',
    Graph.calculateDistances fuel g T = Returned g' /\
    Graph.edges g' = Graph.edges g /\
    Graph.pheromones g' = Graph.pheromones g /\
    (forall v, is_Some (Graph.nodes g' !! v) <-> is_Some (Graph.nodes g !! v)) /\
    (forall v n', Graph.nodes g' !! v = Some n' ->
       exists n, Graph.nodes g !! v = Some n /\
                 n' = Graph.setDistance n (Graph.distanceToNest n')) /\
    distOf (Graph.nodes g') T = Some (Graph.Hops 0) /\
    (forall N L, shortestHops g N T L ->
                 distOf (Graph.nodes g') N = Some (Graph.Hops L)) /\
    (forall N, is_Some (Graph.nodes g !! N) -> (forall L, ~ hops g N T L) ->
               distOf (Graph.nodes g') N = Some Graph.Infinity).
Proof.
  intros HT Hclosed Hsym Hfuel.
  apply calculateDistances_closed; [by apply closedEdges_spec|done..].
Qed.

(** *** A line of three nodes and a node apart *)

Example lineGraph_distances :
  exists g', Graph.calculateDistances 4 lineGraph "a" = Returned g' /\
             distOf (Graph.nodes g') "a" = Some (Graph.Hops 0) /\
             distOf (Graph.nodes g') "b" = Some (Graph.Hops 1) /\
             distOf (Graph.nodes g') "c" = Some (Graph.Hops 2) /\
             distOf (Graph.nodes g') "d" = Some Graph.Infinity.
Proof. eexists. split; [vm_compute; reflexivity|]. repeat split. Qed.

Lemma calculateDistances_correct_witness :
  exists g', Graph.calculateDistances 4 lineGraph "a" = Returned g' /\
             distOf (Graph.nodes g') "a" = Some (Graph.Hops 0).
Proof.
  destruct (calculateDistances_correct lineGraph "a" 4) as (g' & H & _ & _ & _ & _ & H0 & _).
  - by eexists.
  - apply (bool_decide_unpack (closedEdges lineGraph)). vm_compute. exact I.
  - apply (bool_decide_unpack (symmetricEdges lineGraph)). vm_compute. exact I.
  - vm_compute. lia.
  - exists g'. split; assumption.
Defined.

(** *** Graphs built with [addNode] and [addEdge] *)

Section BuiltGraphs.

Import Graph.

Lemma empty_closed_symmetric : closedEdges Graph.empty /\ symmetricEdges Graph.empty.
Proof. split; apply map_Forall_empty. Qed.

(** Adding a node under an id that is not yet in use keeps the adjacency
    lists closed and symmetric. *)
Lemma addNode_closed_symmetric (fresh : string) (nd : NodeData) (g : Graph.t) :
  nodes g !! fst (addNode fresh nd g) = None ->
  closedEdges g -> symmetricEdges g ->
  closedEdges (snd (addNode fresh nd g)) /\ symmetricEdges (snd (addNode fresh nd g)).
Proof.
  rewrite !closedEdges_spec, !symmetricEdges_spec. simpl.
  set (i := str_or (nd_id nd) fresh). intros Hi Hc Hs.
  assert (Hnb : forall a b,
            b ∈ getNeighbors (snd (addNode fresh nd g)) a -> b ∈ getNeighbors g a /\ a <> i).
  { intros a b. unfold getNeighbors. simpl. fold i. rewrite lookup_insert.
    case_decide as E; simpl; [by intros Hx%elem_of_nil|]. by intros. }
  split.
  - intros a b [Hab _]%Hnb. simpl. fold i. rewrite lookup_insert.
    case_decide; [by eexists|by eapply Hc].
  - intros a b [Hab Hne]%Hnb. unfold getNeighbors. simpl. fold i.
    rewrite lookup_insert. case_decide as E.
    + subst b. apply Hc in Hab. rewrite Hi in Hab. by destruct Hab.
    + by apply Hs.
Qed.

(** The neighbours after [addEdge(a, b)] has pushed both ends. *)
Lemma pushEdge_both (es es1 es2 : gmap string (list string)) (a b : string) :
  pushEdge es a b = Some es1 ->
  pushEdge es1 b a = Some es2 ->
  forall x y,
    y ∈ default [] (es2 !! x) <->
    y ∈ default [] (es !! x) \/ (x = a /\ y = b) \/ (x = b /\ y = a).
Proof.
  unfold pushEdge.
  destruct (es !! a) as [l1|] eqn:Ha; [|discriminate]. intros [= <-].
  destruct (<[a:=l1 ++ [b]]> es !! b) as [l2|] eqn:Hb; [|discriminate]. intros [= <-].
  intros x y. rewrite lookup_insert. case_decide as E1; simpl.
  - subst x. rewrite lookup_insert in Hb. case_decide as E2.
    + subst b. injection Hb as <-. rewrite Ha. simpl.
      rewrite !elem_of_app, !list_elem_of_singleton. intuition (subst; auto; congruence).
    + rewrite Hb. simpl. rewrite elem_of_app, list_elem_of_singleton. intuition (subst; auto; congruence).
  - rewrite lookup_insert. case_decide as E2; simpl.
    + subst x. rewrite Ha. simpl. rewrite elem_of_app, list_elem_of_singleton.
      intuition (subst; auto; congruence).
    + intuition (subst; auto; congruence).
Qed.

(** [addEdge] keeps the adjacency lists closed and symmetric. *)
Lemma addEdge_closed_symmetric (g g' : Graph.t) (a b : string) (r : bool) :
  addEdge g a b = Returned (r, g') ->
  closedEdges g -> symmetricEdges g ->
  closedEdges g' /\ symmetricEdges g'.
Proof.
  unfold addEdge.
  destruct (bool_decide (nodes g !! a = None) || bool_decide (nodes g !! b = None))
    eqn:Hnodes; [by intros [= <- <-]|].
  destruct (hasEdge g a b); [by intros [= <- <-]|].
  destruct (pushEdge (edges g) a b) as [es1|] eqn:H1; [|discriminate].
  destruct (pushEdge es1 b a) as [es2|] eqn:H2; [|discriminate].
  intros [= <- <-]. rewrite !closedEdges_spec, !symmetricEdges_spec.
  intros Hc Hs.
  apply orb_false_iff in Hnodes as [Ha Hb].
  apply bool_decide_eq_false in Ha, Hb.
  assert (Hnb := pushEdge_both _ _ _ _ _ H1 H2).
  unfold getNeighbors in *. simpl. split.
  - intros x y [H|[[-> ->]|[-> ->]]]%Hnb.
    + by eapply Hc.
    + by apply not_eq_None_Some.
    + by apply not_eq_None_Some.
  - intros x y H%Hnb. apply Hnb. intuition (subst; auto; congruence).
Qed.

End BuiltGraphs.

(** ** Paths *)

Section Paths.

Import Graph.

Variable sqrtQ : Q -> Q.
Variable g : Graph.t.
Variable startNodeId endNodeId : string.








End Paths.




Section Divergence.

Import Graph.

Lemma reconstructLoop_cycle (cf : gmap string string) (a b : string) :
  cf !! a = Some b -> cf !! b = Some a ->
  a <> EmptyString -> b <> EmptyString ->
  forall fuel path,
    reconstructLoop fuel cf a path = OutOfFuel /\
    reconstructLoop fuel cf b path = OutOfFuel.
Proof.
  intros Ha Hb Hna Hnb. induction fuel as [|fuel IH]; intros path; simpl;
    rewrite Ha, Hb; repeat case_decide; try done.
  split; apply IH.
Qed.

Variable sqrtQ : Q -> Q.

Lemma findPath_line_two_steps (fuel : nat) :
  exists fa fb fc,
    findPath sqrtQ (S (S fuel)) lineGraph "a" "c"
    = findPathLoop sqrtQ fuel lineGraph "c" (lineSearch fa fb fc).
Proof.
  do 3 eexists. unfold lineSearch. reflexivity.
Qed.


Lemma findPathLoop_step (fuel : nat) (g : Graph.t) (e : string) (st : Search)
    (first : string) (rest : list string) :
  openSet st = first :: rest ->
  findPathLoop sqrtQ (S fuel) g e st =
  (let '(current, lowestIndex) :=
     lowestFrom (fScore st) rest 1 first (fScore st !! first) 0 in
   if decide (current = e) then reconstructPath fuel (cameFrom st) current
   else match expand sqrtQ g e current (getNeighbors g current)
                (mkSearch (delete lowestIndex (openSet st)) (cameFrom st)
                   (gScore st) (fScore st)) with
        | None => Threw
        | Some st' => findPathLoop sqrtQ fuel g e st'
        end).
Proof. intros H. simpl. rewrite H. reflexivity. Qed.

(** Walking back from ["c"] runs into the cycle between ["a"] and ["b"]. *)
Lemma reconstructPath_line (fa fb fc : Q) (fuel : nat) :
  reconstructPath fuel (cameFrom (lineSearch fa fb fc)) "c" = OutOfFuel.
Proof.
  unfold reconstructPath. destruct fuel as [|fuel]; [reflexivity|].
  change (reconstructLoop (S fuel) (cameFrom (lineSearch fa fb fc)) "c" ["c"%string])
    with (reconstructLoop fuel (cameFrom (lineSearch fa fb fc)) "b" ["b"; "c"]%string).
  by apply (reconstructLoop_cycle _ "a" "b").
Qed.

Lemma lineSearch_diverges (fa fb fc : Q) (fuel : nat) :
  findPathLoop sqrtQ fuel lineGraph "c" (lineSearch fa fb fc) = OutOfFuel.
Proof.
  destruct fuel as [|fuel]; [reflexivity|].
  rewrite (findPathLoop_step fuel lineGraph "c" (lineSearch fa fb fc)
             "a" ["c"%string] eq_refl).
  assert (Hlow : lowestFrom (fScore (lineSearch fa fb fc)) ["c"%string] 1 "a"
                   (fScore (lineSearch fa fb fc) !! "a"%string) 0
                 = if Qltb fc fa then ("c"%string, 1) else ("a"%string, 0))
    by reflexivity.
  rewrite Hlow. destruct (Qltb fc fa).
  - rewrite decide_True by done. apply reconstructPath_line.
  - rewrite decide_False by done.
    assert (Hex : expand sqrtQ lineGraph "c" "a" (getNeighbors lineGraph "a")
                    (mkSearch (delete 0 (openSet (lineSearch fa fb fc)))
                       (cameFrom (lineSearch fa fb fc))
                       (gScore (lineSearch fa fb fc))
                       (fScore (lineSearch fa fb fc)))
                  = Some (mkSearch ["c"%string] (cameFrom (lineSearch fa fb fc))
                            (gScore (lineSearch fa fb fc))
                            (fScore (lineSearch fa fb fc))))
      by reflexivity.
    rewrite Hex. destruct fuel as [|fuel]; [reflexivity|].
    rewrite (findPathLoop_step fuel lineGraph "c"
               (mkSearch ["c"%string] (cameFrom (lineSearch fa fb fc))
                  (gScore (lineSearch fa fb fc)) (fScore (lineSearch fa fb fc)))
               "c" [] eq_refl).
    cbn [lowestFrom]. rewrite decide_True by done. apply reconstructPath_line.
Qed.

End Divergence.

(** C2 fails on the code.  On [lineGraph], where no node is disrupted and
    the least number of hops from ["a"] to ["c"] is 2, [findPath("a", "c")]
    returns nothing, whatever the fuel and whatever [Math.sqrt] computes:
    expanding ["b"] re-opens the start node (its gScore 0 is falsy) with
    [cameFrom["a"] = "b"], and [reconstructPath] then walks the cycle
    between ["a"] and ["b"] for ever. *)
Theorem findPath_two_hops_never_returns (sqrtQ : Q -> Q) (fuel : nat) :
  Graph.findPath sqrtQ fuel lineGraph "a" "c" = OutOfFuel /\
  shortestHops lineGraph "a" "c" 2 /\
  map_Forall (λ _ n, Graph.disrupted n = false) (Graph.nodes lineGraph).
Proof.
  split; [|split].
  - destruct fuel as [|[|fuel]]; [reflexivity..|].
    destruct (findPath_line_two_steps sqrtQ fuel) as (fa & fb & fc & ->).
    apply lineSearch_diverges.
  - split.
    + apply (hops_more _ _ "b"); [apply (hops_more _ _ "a"); [constructor|]|];
        vm_compute; repeat constructor.
    + intros L' H. destruct L' as [|[|L']]; [| |lia].
      * inversion H.
      * inversion H as [|b c n Hb Hc]; subst. inversion Hb; subst.
        vm_compute in Hc. apply list_elem_of_singleton in Hc. discriminate.
  - apply (bool_decide_unpack _). vm_compute. exact I.
Qed.

(** * Further properties *)

(** ** Building and reading a graph *)

Section Building.

Import Graph.

Lemma addEdge_cases (g : Graph.t) (a b : string) :
  (addEdge g a b = Returned (false, g) /\
   (nodes g !! a = None \/ nodes g !! b = None)) \/
  (is_Some (nodes g !! a) /\ is_Some (nodes g !! b) /\
   ((addEdge g a b = Returned (true, g) /\ hasEdge g a b = true) \/
    (hasEdge g a b = false /\
     ((addEdge g a b = Threw /\ (edges g !! a = None \/ edges g !! b = None)) \/
      exists es1 es2,
        pushEdge (edges g) a b = Some es1 /\ pushEdge es1 b a = Some es2 /\
        addEdge g a b = Returned (true, mkGraph (nodes g) es2 (pheromones g)))))).
Proof.
  unfold addEdge.
  destruct (nodes g !! a) as [na|] eqn:Ha; [|left; simpl; auto].
  destruct (nodes g !! b) as [nb|] eqn:Hb; [|left; simpl; auto].
  right. split; [by eexists|]. split; [by eexists|]. simpl.
  destruct (hasEdge g a b); [left; auto|]. right. split; [done|].
  unfold pushEdge.
  destruct (edges g !! a) as [la|] eqn:Ea; [|left; auto].
  cbv beta iota. rewrite lookup_insert. case_decide as E.
  - subst b. right. do 2 eexists. split; [reflexivity|].
    rewrite !lookup_insert_eq. split; reflexivity.
  - destruct (edges g !! b) as [lb|] eqn:Eb; [|left; auto].
    right. do 2 eexists. split; [reflexivity|].
    rewrite !lookup_insert_ne, !Eb by done. split; reflexivity.
Qed.

Lemma hasEdge_elem (g : Graph.t) (a b : string) :
  hasEdge g a b = true <-> b ∈ getNeighbors g a.
Proof.
  unfold hasEdge, getNeighbors. destruct (edges g !! a) as [l|]; simpl.
  - apply bool_decide_eq_true.
  - split; [done|by intros H%elem_of_nil].
Qed.

(** X1: a call of [addEdge] that returns leaves the nodes and the pheromones
    alone; it returns false exactly when an endpoint is no node; the
    adjacency lists gain the entries a->b and b->a when it returns true and
    [a] did not list [b], and nothing otherwise; the same call on the result
    changes nothing more. *)
Theorem addEdge_effect (g g' : Graph.t) (a b : string) (r : bool) :
  addEdge g a b = Returned (r, g') ->
  nodes g' = nodes g /\ pheromones g' = pheromones g /\
  (r = false <-> nodes g !! a = None \/ nodes g !! b = None) /\
  (forall x y,
     y ∈ getNeighbors g' x <->
     y ∈ getNeighbors g x \/
     (r = true /\ hasEdge g a b = false /\ ((x = a /\ y = b) \/ (x = b /\ y = a)))) /\
  addEdge g' a b = Returned (r, g').
Proof.
  intros Hadd.
  destruct (addEdge_cases g a b)
    as [[H Hn]|(Ha & Hb & [[H He]|[He [[H _]|(es1 & es2 & H1 & H2 & H)]]])];
    rewrite H in Hadd; try discriminate; injection Hadd as <- <-.
  - repeat split; auto; try tauto. intros [?|(? & _)]; [done|discriminate].
  - repeat split; auto; try discriminate.
    + intros [E|E]; rewrite E in *; by destruct Ha, Hb.
    + rewrite He. intros [?|(_ & ? & _)]; [done|discriminate].
  - assert (Hnb : forall x y,
              y ∈ getNeighbors (mkGraph (nodes g) es2 (pheromones g)) x <->
              y ∈ getNeighbors g x \/ (x = a /\ y = b) \/ (x = b /\ y = a)).
    { intros x y. unfold getNeighbors. simpl. by apply pushEdge_both with es1. }
    repeat split; auto; try discriminate.
    + intros [E|E]; rewrite E in *; by destruct Ha, Hb.
    + rewrite Hnb. tauto.
    + rewrite Hnb. tauto.
    + unfold addEdge. simpl.
      destruct Ha as [na ->], Hb as [nb ->]. simpl.
      assert (hasEdge (mkGraph (nodes g) es2 (pheromones g)) a b = true) as ->; [|done].
      apply hasEdge_elem, Hnb. auto.
Qed.

Lemma addEdge_effect_witness :
  addEdge lineGraph "a" "c"
  = Returned (true, connect lineGraph "a" "c") /\
  nodes (connect lineGraph "a" "c") = nodes lineGraph.
Proof.
  assert (H : addEdge lineGraph "a" "c" = Returned (true, connect lineGraph "a" "c"))
    by (vm_compute; reflexivity).
  split; [exact H|]. exact (proj1 (addEdge_effect _ _ _ _ _ H)).
Defined.

Lemma built_invariant (g : Graph.t) :
  built g ->
  closedEdges g /\ symmetricEdges g /\
  (forall a, is_Some (edges g !! a) <-> is_Some (nodes g !! a)) /\
  pheromones g = ∅ /\
  (forall a n, nodes g !! a = Some n ->
     id n = a /\ boosted n = false /\ disrupted n = false).
Proof.
  induction 1 as [|fresh nd g Hb (Hc & Hs & Hd & Hp & Hn) _ Hfresh
                  |g a b r g' Hb (Hc & Hs & Hd & Hp & Hn) _ _ Hadd].
  - destruct empty_closed_symmetric as [Hc Hs].
    split; [done|]. split; [done|]. split; [intros a; simpl; rewrite !lookup_empty; split; intros [? ?]; discriminate|].
    split; [reflexivity|].
    intros a n. simpl. by rewrite lookup_empty.
  - destruct (addNode_closed_symmetric fresh nd g Hfresh Hc Hs) as [Hc' Hs'].
    split; [done|]. split; [done|]. simpl. split; [|split; [done|]].
    + intros a. rewrite !lookup_insert. case_decide; [by split; eauto|apply Hd].
    + intros a n. rewrite lookup_insert. case_decide as E; [|apply Hn].
      intros [= <-]. by simpl.
  - destruct (addEdge_closed_symmetric _ _ _ _ _ Hadd Hc Hs) as [Hc' Hs'].
    split; [done|]. split; [done|].
    destruct (addEdge_cases g a b)
      as [[H _]|(Ha & Hb' & [[H _]|[He [[H _]|(es1 & es2 & H1 & H2 & H)]]])];
      rewrite H in Hadd; try discriminate; injection Hadd as <- <-;
      try (split; [exact Hd|split; [exact Hp|exact Hn]]).
    simpl. split; [|split; [done|exact Hn]].
    intros x. rewrite <- Hd. revert H1 H2. unfold pushEdge.
    destruct (edges g !! a) as [la|] eqn:Ea; [|discriminate]. intros [= <-].
    destruct (<[a:=la ++ [b]]> (edges g) !! b) as [lb|] eqn:Eb; [|discriminate].
    intros [= <-]. rewrite !lookup_insert.
    repeat case_decide; subst; rewrite ?Ea; try done.
    all: try (rewrite lookup_insert_ne in Eb by done; rewrite Eb).
    all: split; eauto; intros _; apply Hd; assumption.
Qed.

(** X2: in every graph built from the empty one by [addNode] under ids not
    yet in use and by [addEdge], the ids being none of the names a plain
    object inherits, each listed neighbour is a node, the adjacency lists
    are symmetric, an id has an adjacency list exactly when it is a node,
    there are no pheromones, every node is stored under its own id with no
    effect active, and for ids that are none of the inherited names
    [addEdge] never throws and [hasEdge] is symmetric. *)
Theorem built_wellformed (g : Graph.t) :
  built g ->
  closedEdges g /\ symmetricEdges g /\
  (forall a, is_Some (edges g !! a) <-> is_Some (nodes g !! a)) /\
  pheromones g = ∅ /\
  (forall a n, nodes g !! a = Some n ->
     id n = a /\ boosted n = false /\ disrupted n = false) /\
  (forall a b, ownKey a = true -> ownKey b = true ->
               exists r g', addEdge g a b = Returned (r, g')) /\
  (forall a b, ownKey a = true -> ownKey b = true ->
               hasEdge g a b = hasEdge g b a).
Proof.
  intros Hb. destruct (built_invariant g Hb) as (Hc & Hs & Hd & Hp & Hn).
  do 5 (split; [assumption|]). split.
  - intros a b _ _.
    destruct (addEdge_cases g a b)
      as [[H _]|(Ha & Hb' & [[H _]|[He [[H [E|E]]|(es1 & es2 & H1 & H2 & H)]]])];
      eauto.
    + apply Hd in Ha. rewrite E in Ha. by destruct Ha.
    + apply Hd in Hb'. rewrite E in Hb'. by destruct Hb'.
  - intros a b _ _. rewrite symmetricEdges_spec in Hs.
    destruct (hasEdge g a b) eqn:E1, (hasEdge g b a) eqn:E2; try done.
    + apply hasEdge_elem, Hs, hasEdge_elem in E1. congruence.
    + apply hasEdge_elem, Hs, hasEdge_elem in E2. congruence.
Qed.

Lemma lineGraph_built : built lineGraph.
Proof.
  set (g0 := snd (addNode "" (nodeAt "a" 0) Graph.empty)).
  set (g1 := snd (addNode "" (nodeAt "b" 10) g0)).
  set (g2 := snd (addNode "" (nodeAt "c" 20) g1)).
  set (g3 := snd (addNode "" (nodeAt "d" 50) g2)).
  assert (H3 : built g3).
  { repeat (apply built_node; [|reflexivity|vm_compute; reflexivity]).
    apply built_empty. }
  apply (built_edge (connect g3 "a" "b") "b" "c" true);
    [|reflexivity|reflexivity|vm_compute; reflexivity].
  apply (built_edge g3 "a" "b" true);
    [exact H3|reflexivity|reflexivity|vm_compute; reflexivity].
Qed.

Lemma built_wellformed_witness :
  closedEdges lineGraph /\ symmetricEdges lineGraph /\
  hasEdge lineGraph "c" "b" = hasEdge lineGraph "b" "c".
Proof.
  destruct (built_wellformed lineGraph lineGraph_built) as (Hc & Hs & _ & _ & _ & _ & Hh).
  split; [exact Hc|]. split; [exact Hs|]. apply Hh; reflexivity.
Defined.

(** X3: [addNode] with an id that is already in use resets that node's
    adjacency list while its neighbours keep listing it: the edge survives
    in one direction only and the adjacency lists are no longer symmetric. *)
Theorem addNode_existing_id (fresh : string) (nd : NodeData) (g : Graph.t)
    (a b : string) :
  nd_id nd = Some a -> a <> "" -> a <> b ->
  hasEdge g b a = true ->
  let g' := snd (addNode fresh nd g) in
  fst (addNode fresh nd g) = a /\
  getNeighbors g' a = [] /\
  hasEdge g' b a = true /\ hasEdge g' a b = false /\
  ~ symmetricEdges g'.
Proof.
  intros Hid Ha Hab He g'.
  assert (Hfst : fst (addNode fresh nd g) = a).
  { simpl. unfold str_or. rewrite Hid. by destruct a. }
  assert (Hedges : edges g' = <[a := []]> (edges g)).
  { unfold g'. simpl in *. by rewrite Hfst. }
  assert (H1 : getNeighbors g' a = []).
  { unfold getNeighbors. by rewrite Hedges, lookup_insert_eq. }
  assert (H2 : hasEdge g' b a = true).
  { unfold hasEdge in *. by rewrite Hedges, lookup_insert_ne. }
  split; [done|]. split; [done|]. split; [done|]. split.
  - unfold hasEdge. rewrite Hedges, lookup_insert_eq. apply bool_decide_eq_false.
    by intros H%elem_of_nil.
  - rewrite symmetricEdges_spec. intros Hs.
    specialize (Hs b a). rewrite H1 in Hs.
    eapply elem_of_nil, Hs, hasEdge_elem, H2.
Qed.



Lemma addNode_existing_id_witness :
  hasEdge (snd (addNode "" (nodeAt "b" 0) lineGraph)) "a" "b" = true /\
  hasEdge (snd (addNode "" (nodeAt "b" 0) lineGraph)) "b" "a" = false.
Proof.
  destruct (addNode_existing_id "" (nodeAt "b" 0) lineGraph "b" "a")
    as (_ & _ & H1 & H2 & _);
    [reflexivity|done|done|vm_compute; reflexivity|].
  split; assumption.
Defined.
End Building.

Section Lookups.

Import Graph.

(** X4: [getNodeIdByPosition] returns the first key, in the order of the
    iteration, whose node matches the position; the keys before it belong
    to nodes that do not match; [null] means that no node matches. *)
Theorem getNodeIdByPosition_first_match (keys : list string) (g : Graph.t)
    (pos : Position) (r : option string) :
  getNodeIdByPosition keys g pos = Returned r ->
  match r with
  | Some i =>
    exists pre post nd,
      keys = pre ++ i :: post /\ noMatch g pos pre /\
      nodes g !! i = Some nd /\ arePositionsEqual (position nd) pos = true
  | None => noMatch g pos keys
  end.
Proof.
  revert r. induction keys as [|k keys IH]; intros r; simpl.
  - intros [= <-]. constructor.
  - destruct (nodes g !! k) as [n|] eqn:Hk; [|discriminate].
    destruct (arePositionsEqual (position n) pos) eqn:Hp.
    + intros [= <-]. exists [], keys, n. repeat split; auto. constructor.
    + intros H. specialize (IH r H). destruct r as [i|].
      * destruct IH as (pre & post & nd & -> & Hpre & Hi & Hm).
        exists (k :: pre), post, nd. repeat split; auto.
        constructor; eauto.
      * constructor; eauto.
Qed.

Lemma getNodeIdByPosition_first_match_witness :
  exists pre post nd,
    ["a"; "b"; "c"; "d"]%string = pre ++ "b"%string :: post /\
    noMatch lineGraph (mkPosition 10 7 0) pre /\
    nodes lineGraph !! "b"%string = Some nd /\
    arePositionsEqual (position nd) (mkPosition 10 7 0) = true.
Proof.
  apply (getNodeIdByPosition_first_match ["a"; "b"; "c"; "d"]%string lineGraph
           (mkPosition 10 7 0) (Some "b"%string)).
  vm_compute. reflexivity.
Defined.

Lemma grid_coordinate (a b : Z) :
  Qltb (Qabs (inject_Z (a * GameManager.spacing) - inject_Z (b * GameManager.spacing))) 0.1
  = bool_decide (a = b).
Proof.
  unfold Qltb, Qle_bool, Qabs, Qminus, Qplus, Qopp, inject_Z, GameManager.spacing.
  cbn [Qnum Qden]. 
  destruct (bool_decide (a = b)) eqn:E.
  - apply bool_decide_eq_true in E. subst b. apply negb_true_iff, Z.leb_gt. lia.
  - apply bool_decide_eq_false in E. apply negb_false_iff, Z.leb_le. lia.
Qed.

(** X5: on the grid of [createDefaultGraph], [arePositionsEqual] holds
    between two cell positions exactly when the grid coordinates agree,
    whatever the heights. *)
Theorem grid_cells_distinguished (x z x' z' : Z) (h h' : Q) :
  arePositionsEqual (cellPosition x z h) (cellPosition x' z' h')
  = bool_decide (x = x' /\ z = z').
Proof.
  unfold arePositionsEqual.
  change (px (cellPosition x z h)) with (inject_Z (x * GameManager.spacing)).
  change (pz (cellPosition x z h)) with (inject_Z (z * GameManager.spacing)).
  change (px (cellPosition x' z' h')) with (inject_Z (x' * GameManager.spacing)).
  change (pz (cellPosition x' z' h')) with (inject_Z (z' * GameManager.spacing)).
  rewrite !grid_coordinate.
  destruct (bool_decide (x = x')) eqn:E1, (bool_decide (z = z')) eqn:E2; simpl;
    symmetry; [apply bool_decide_eq_true|apply bool_decide_eq_false..];
    try apply bool_decide_eq_true in E1; try apply bool_decide_eq_true in E2;
    try apply bool_decide_eq_false in E1; try apply bool_decide_eq_false in E2;
    tauto.
Qed.

Lemma ltb_irrefl (a : string) : String.ltb a a = false.
Proof.
  unfold String.ltb.
  destruct (String.compare a a) eqn:E; try reflexivity.
  pose proof (String.compare_antisym a a) as H. rewrite E in H. discriminate.
Qed.

Lemma ltb_asym (a b : string) : String.ltb a b = true -> String.ltb b a = false.
Proof.
  unfold String.ltb. rewrite (String.compare_antisym b a).
  by destruct (String.compare a b).
Qed.

Lemma ltb_total (a b : string) :
  a <> b -> String.ltb a b = true \/ String.ltb b a = true.
Proof.
  intros Hab. unfold String.ltb. rewrite (String.compare_antisym b a).
  destruct (String.compare a b) eqn:E; simpl; auto.
  by apply String.compare_eq_iff in E.
Qed.

Lemma getEdges_elem (keys : list string) (g : Graph.t) (l : list (string * string)) :
  getEdges keys g = Returned l ->
  forall a b, (a, b) ∈ l <->
              a ∈ keys /\ b ∈ getNeighbors g a /\ String.ltb a b = true.
Proof.
  revert l. induction keys as [|k keys IH]; intros l; simpl.
  - intros [= <-] a b. split; [by intros H%elem_of_nil|].
    by intros [H%elem_of_nil _].
  - destruct (edges g !! k) as [lk|] eqn:Hk; [|discriminate].
    destruct (getEdges keys g) as [l'| |]; try discriminate.
    intros [= <-] a b. rewrite elem_of_app, (IH l' eq_refl), elem_of_cons.
    rewrite list_elem_of_fmap. split.
    + intros [(y & [= -> ->] & Hy)|(Ha & Hb & Hlt)].
      * apply list_elem_of_In, filter_In in Hy as [Hy Hlt]. apply list_elem_of_In in Hy.
        split; [by left|].
        split; [|done]. unfold getNeighbors. by rewrite Hk.
      * auto.
    + intros ([->|Ha] & Hb & Hlt); [left|by right].
      exists b. split; [done|]. apply list_elem_of_In, filter_In. split; [|done].
      apply list_elem_of_In. unfold getNeighbors in Hb. by rewrite Hk in Hb.
Qed.

(** X6: [getEdges] lists the pair (a, b) exactly when [a] is a key, [b] is
    in the adjacency list of [a] and [a < b] as strings; so no self-edge is
    listed, no pair is listed in both directions, and in a symmetric graph
    every edge between two distinct keys is listed in one direction. *)
Theorem getEdges_spec (keys : list string) (g : Graph.t) (l : list (string * string)) :
  getEdges keys g = Returned l ->
  (forall a b, (a, b) ∈ l <->
               a ∈ keys /\ b ∈ getNeighbors g a /\ String.ltb a b = true) /\
  (forall a, (a, a) ∉ l) /\
  (forall a b, (a, b) ∈ l -> (b, a) ∉ l) /\
  (symmetricEdges g ->
   forall a b, a ∈ keys -> b ∈ keys -> b ∈ getNeighbors g a -> a <> b ->
               (a, b) ∈ l \/ (b, a) ∈ l).
Proof.
  intros H. pose proof (getEdges_elem keys g l H) as He.
  split; [exact He|]. split; [|split].
  - intros a Ha. apply He in Ha as (_ & _ & Hlt). rewrite ltb_irrefl in Hlt. discriminate.
  - intros a b Hab Hba. apply He in Hab as (_ & _ & H1). apply He in Hba as (_ & _ & H2).
    apply ltb_asym in H1. congruence.
  - intros Hs a b Ha Hb Hab Hne. rewrite symmetricEdges_spec in Hs.
    destruct (ltb_total a b Hne) as [Hlt|Hlt]; [left|right]; apply He; auto.
Qed.

Lemma getEdges_spec_witness :
  getEdges ["a"; "b"; "c"; "d"]%string lineGraph
  = Returned [("a", "b"); ("b", "c")]%string /\
  ("b"%string, "a"%string) ∉ [("a", "b"); ("b", "c")]%string.
Proof.
  assert (H : getEdges ["a"; "b"; "c"; "d"]%string lineGraph
              = Returned [("a", "b"); ("b", "c")]%string) by (vm_compute; reflexivity).
  split; [exact H|].
  apply (proj1 (proj2 (proj2 (getEdges_spec _ _ _ H)))). by left.
Defined.

End Lookups.

(** ** Distances and paths once more *)

Section DistancesAgain.

Import Graph.

Lemma calculateDistances_throws (fuel : nat) (g : Graph.t) (T : string) :
  nodes g !! T = None ->
  calculateDistances (S fuel) g T = Threw.
Proof.
  intros HT. unfold calculateDistances.
  rewrite lookup_fmap, HT. simpl.
  rewrite bool_decide_eq_false_2 by (by intros H%elem_of_empty).
  by rewrite lookup_fmap, HT.
Qed.

(** X7: [calculateDistances] for an id that is no node throws; it never
    returns. *)
Theorem calculateDistances_unknown_target (fuel : nat) (g : Graph.t) (T : string) :
  nodes g !! T = None ->
  calculateDistances (S fuel) g T = Threw /\
  forall g', calculateDistances 0 g T <> Returned g'.
Proof.
  intros HT. split; [by apply calculateDistances_throws|].
  intros g'. unfold calculateDistances. simpl. discriminate.
Qed.

Lemma calculateDistances_unknown_target_witness :
  calculateDistances 1 lineGraph "z" = Threw.
Proof. apply (calculateDistances_unknown_target 0 lineGraph "z"). reflexivity. Defined.

Lemma forget_insert (ns : gmap string Node) (k : string) (n : Node) (d : Distance) :
  ns !! k = Some n ->
  forgetDistances (<[k := setDistance n d]> ns) = forgetDistances ns.
Proof.
  intros Hk. unfold forgetDistances. apply map_eq. intros i.
  rewrite !lookup_fmap, lookup_insert. case_decide as E; [|done].
  subst i. by rewrite Hk.
Qed.

Lemma relaxNeighbors_frame (V : gset string) (cd : Distance) (nbs : list string) :
  forall ns q ns' q',
    relaxNeighbors V cd nbs ns q = Some (ns', q') ->
    forgetDistances ns' = forgetDistances ns.
Proof.
  induction nbs as [|nb nbs IH]; intros ns q ns' q'.
  - by intros [= <- <-].
  - rewrite relaxNeighbors_cons.
    destruct (bool_decide (nb ∈ V)); [apply IH|].
    destruct (ns !! nb) as [n|] eqn:Hn; [|discriminate].
    destruct (dist_ltb _ _); [|apply IH].
    intros H%IH. rewrite H. by apply forget_insert.
Qed.

Lemma distanceLoop_frame (es : gmap string (list string)) :
  forall fuel ns q V ns',
    distanceLoop fuel es ns q V = Returned ns' ->
    forgetDistances ns' = forgetDistances ns.
Proof.
  induction fuel as [|fuel IH]; intros ns q V ns'; destruct q as [|c q]; simpl;
    try (by intros [= <-]); try discriminate.
  destruct (bool_decide (c ∈ V)); [apply IH|].
  destruct (ns !! c) as [n|]; [|discriminate].
  destruct (relaxNeighbors _ _ _ _ _) as [[ns1 q1]|] eqn:Hr; [|discriminate].
  intros H%IH. rewrite H. by eapply relaxNeighbors_frame.
Qed.

Lemma forget_forget (ns : gmap string Node) :
  forgetDistances (forgetDistances ns) = forgetDistances ns.
Proof.
  unfold forgetDistances. rewrite <- map_fmap_compose. apply map_fmap_ext.
  by intros i [] _.
Qed.

Lemma calculateDistances_frame (fuel : nat) (g g' : Graph.t) (T : string) :
  calculateDistances fuel g T = Returned g' ->
  forgetDistances (nodes g') = forgetDistances (nodes g) /\
  edges g' = edges g /\ pheromones g' = pheromones g.
Proof.
  unfold calculateDistances.
  destruct (distanceLoop _ _ _ _ _) as [ns| |] eqn:Hl; try discriminate.
  intros [= <-]. simpl. split; [|done].
  apply distanceLoop_frame in Hl. rewrite Hl.
  fold (forgetDistances (nodes g)).
  destruct (forgetDistances (nodes g) !! T) as [n|] eqn:HT.
  - rewrite forget_insert by done. apply forget_forget.
  - apply forget_forget.
Qed.

(** X8: a returning [calculateDistances] changes nothing but the distances,
    and calling it again with the same target returns the same graph. *)
Theorem calculateDistances_idempotent (fuel : nat) (g g' : Graph.t) (T : string) :
  calculateDistances fuel g T = Returned g' ->
  forgetDistances (nodes g') = forgetDistances (nodes g) /\
  edges g' = edges g /\ pheromones g' = pheromones g /\
  calculateDistances fuel g' T = Returned g'.
Proof.
  intros H. destruct (calculateDistances_frame fuel g g' T H) as (Hn & He & Hp).
  split; [done|]. split; [done|]. split; [done|].
  revert H. unfold calculateDistances.
  fold (forgetDistances (nodes g)). fold (forgetDistances (nodes g')).
  rewrite Hn, He, Hp.
  destruct (distanceLoop _ _ _ _ _) as [ns| |]; try discriminate.
  intros [= <-]. reflexivity.
Qed.

Lemma calculateDistances_idempotent_witness :
  exists g',
    calculateDistances 4 lineGraph "a" = Returned g' /\
    calculateDistances 4 g' "a" = Returned g'.
Proof.
  destruct (calculateDistances 4 lineGraph "a") as [g'| |] eqn:H;
    [|vm_compute in H; discriminate..].
  exists g'. split; [reflexivity|].
  exact (proj2 (proj2 (proj2 (calculateDistances_idempotent 4 lineGraph g' "a" H)))).
Defined.

End DistancesAgain.

Section PathsAgain.

Import Graph.

Variable sqrtQ : Q -> Q.
Variable g : Graph.t.
Variable startNodeId endNodeId : string.







End PathsAgain.





(** ** The game: commands and ticks *)

Section Game.

Import GameManager.

Lemma command_cases (refuse : Graph.Node -> bool) (cost : Q)
    (change : Graph.Node -> Graph.Node) (gm : GameManager.t) (p n : string) :
  (command refuse cost change gm p n = (false, gm) /\
   (players gm !! p = None \/ Graph.nodes (graph gm) !! n = None \/
    (exists nd, Graph.nodes (graph gm) !! n = Some nd /\ refuse nd = true) \/
    (exists pl, players gm !! p = Some pl /\ (energy pl < cost)%Q))) \/
  (exists pl nd,
     players gm !! p = Some pl /\ Graph.nodes (graph gm) !! n = Some nd /\
     refuse nd = false /\ (cost <= energy pl)%Q /\
     command refuse cost change gm p n
     = (true, mkGame (<[p := setEnergy pl (energy pl - cost)]> (players gm))
                (setGraphNodes (graph gm) (<[n := change nd]> (Graph.nodes (graph gm)))))).
Proof.
  unfold command.
  destruct (players gm !! p) as [pl|] eqn:Hp; [|left; auto].
  destruct (Graph.nodes (graph gm) !! n) as [nd|] eqn:Hn; [|left; auto].
  destruct (refuse nd) eqn:Hr; [left; split; [done|]; right; right; left; eauto|].
  destruct (Qltb (energy pl) cost) eqn:He.
  - left. split; [done|]. do 3 right. exists pl. split; [done|]. by apply Qltb_lt.
  - right. exists pl, nd. repeat split; auto. by apply Qltb_ge.
Qed.

(** X11: for a node id that is none of the names a plain object inherits,
    [boostNode], [disruptNode] and [expandNode] are all-or-nothing.  For an
    unknown player or node they return false; a call that returns false
    leaves the game as it was; a call that returns true charges exactly the
    price to the player, who had that much, and changes no node but the
    target, which keeps its id, type, position, resources and distance;
    edges and pheromones stay. *)
Theorem commands_atomic
    (cmd : GameManager.t -> string -> string -> bool * GameManager.t) (cost : Q)
    (gm : GameManager.t) (p n : string) :
  priced cmd cost ->
  ownKey n = true ->
  let gm' := snd (cmd gm p n) in
  (players gm !! p = None -> cmd gm p n = (false, gm)) /\
  (Graph.nodes (graph gm) !! n = None -> cmd gm p n = (false, gm)) /\
  (fst (cmd gm p n) = false -> gm' = gm) /\
  (fst (cmd gm p n) = true ->
   (exists pl, players gm !! p = Some pl /\ (cost <= energy pl)%Q /\
               players gm' = <[p := setEnergy pl (energy pl - cost)]> (players gm)) /\
   (forall m, m <> n ->
              Graph.nodes (graph gm') !! m = Graph.nodes (graph gm) !! m) /\
   (exists nd nd', Graph.nodes (graph gm) !! n = Some nd /\
                   Graph.nodes (graph gm') !! n = Some nd' /\
                   Graph.id nd' = Graph.id nd /\ Graph.type nd' = Graph.type nd /\
                   Graph.position nd' = Graph.position nd /\
                   Graph.resources nd' = Graph.resources nd /\
                   Graph.distanceToNest nd' = Graph.distanceToNest nd) /\
   Graph.edges (graph gm') = Graph.edges (graph gm) /\
   Graph.pheromones (graph gm') = Graph.pheromones (graph gm)).
Proof.
  intros Hcmd _ gm'.
  assert (Hshape : exists refuse change,
            cmd = command refuse cost change /\
            forall nd, Graph.id (change nd) = Graph.id nd /\
                       Graph.type (change nd) = Graph.type nd /\
                       Graph.position (change nd) = Graph.position nd /\
                       Graph.resources (change nd) = Graph.resources nd /\
                       Graph.distanceToNest (change nd) = Graph.distanceToNest nd).
  { destruct Hcmd as [[-> ->]|[[-> ->]|[-> ->]]]; do 2 eexists; split;
      try reflexivity; by intros nd. }
  destruct Hshape as (refuse & change & -> & Hchange). subst gm'.
  destruct (command_cases refuse cost change gm p n)
    as [[H Hwhy]|(pl & nd & Hp & Hn & Hr & He & H)]; rewrite H; simpl.
  - repeat split; auto; discriminate.
  - split; [by rewrite Hp|]. split; [by rewrite Hn|]. split; [discriminate|].
    intros _. split; [by eauto|]. split; [|split; [|done]].
    + intros m Hm. by rewrite lookup_insert_ne.
    + exists nd, (change nd). rewrite lookup_insert_eq. split; [done|]. split; [done|].
      apply Hchange.
Qed.

Lemma commands_atomic_witness :
  fst (disruptNode lineGame "p1" "a") = true /\
  Graph.edges (graph (snd (disruptNode lineGame "p1" "a"))) = Graph.edges (graph lineGame).
Proof.
  destruct (commands_atomic disruptNode 40 lineGame "p1" "a") as (_ & _ & _ & H).
  - right. left. split; reflexivity.
  - reflexivity.
  - assert (Ht : fst (disruptNode lineGame "p1" "a") = true) by (vm_compute; reflexivity).
    split; [exact Ht|]. destruct (H Ht) as (_ & _ & _ & He & _). exact He.
Defined.

(** *** What one operation does to a player and to a node *)

Lemma placePheromone_cases (gm : GameManager.t) (p f t ty : string) (a : Q) :
  placePheromone gm p f t ty a = (false, gm) \/
  exists pl gph,
    players gm !! p = Some pl /\ (a * 5 <= energy pl)%Q /\
    Graph.hasEdge (graph gm) f t = true /\
    placePheromone gm p f t ty a
    = (true, mkGame (<[p := setEnergy pl (energy pl - a * 5)]> (players gm)) gph) /\
    Graph.nodes gph = Graph.nodes (graph gm) /\
    Graph.edges gph = Graph.edges (graph gm).
Proof.
  unfold placePheromone.
  destruct (players gm !! p) as [pl|] eqn:Hp; [|by left].
  destruct (Graph.hasEdge (graph gm) f t) eqn:He; simpl; [|by left].
  destruct (Qltb (energy pl) (a * 5)) eqn:Hc; [by left|].
  right. do 2 eexists. split; [done|]. split; [by apply Qltb_ge|].
  split; [done|]. split; [reflexivity|]. split; reflexivity.
Qed.

Lemma command_energy (refuse : Graph.Node -> bool) (cost : Q)
    (change : Graph.Node -> Graph.Node) (gm : GameManager.t) (p n : string) :
  (0 <= cost)%Q -> energyBounded gm ->
  energyBounded (snd (command refuse cost change gm p n)).
Proof.
  intros Hcost Hb k pl'.
  destruct (command_cases refuse cost change gm p n)
    as [[-> _]|(pl & nd & Hp & _ & _ & Hc & ->)]; simpl; [apply Hb|].
  rewrite lookup_insert. case_decide; [|apply Hb].
  intros [= <-]. simpl. specialize (Hb p pl Hp). lra.
Qed.

Lemma runOp_energy (gm : GameManager.t) (op : GameOp) :
  saneOp op -> energyBounded gm -> energyBounded (runOp gm op).
Proof.
  intros Hsane Hb. destruct op as [dt|p f t ty a|p n|p n|p n|p]; simpl in *.
  - intros k pl'. unfold update, updatePlayers, updateNodes, updatePheromones. simpl.
    rewrite lookup_fmap. destruct (players gm !! k) as [pl|] eqn:Hk; [|discriminate].
    intros [= <-]. simpl. specialize (Hb k pl Hk).
    destruct (js_min_spec (energy pl + 2 * dt) 100) as [[? ->]|[? ->]]; lra.
  - intros k pl'. destruct (placePheromone_cases gm p f t ty a)
      as [->|(pl & gph & Hp & Hc & _ & -> & _)]; simpl; [apply Hb|].
    rewrite lookup_insert. case_decide; [|apply Hb].
    intros [= <-]. simpl. specialize (Hb p pl Hp). lra.
  - apply command_energy; [lra|done].
  - apply command_energy; [lra|done].
  - apply command_energy; [lra|done].
  - intros k pl'. unfold removePlayer. simpl.
    intros H%lookup_delete_Some. apply (Hb k). tauto.
Qed.

(** X12: along every run of ticks that do not go back in time and of commands
    with non-negative amounts, the energy of every player stays between 0
    and 100. *)
Theorem energy_bounded (gm : GameManager.t) (ops : list GameOp) :
  Forall saneOp ops -> energyBounded gm -> energyBounded (runOps gm ops).
Proof.
  intros Hs. revert gm. induction Hs as [|op ops Hop Hs IH]; intros gm Hb; simpl.
  - exact Hb.
  - apply IH. by apply runOp_energy.
Qed.

Lemma lineGame_energy : energyBounded lineGame.
Proof.
  intros k p. unfold lineGame. simpl. intros H.
  apply lookup_singleton_Some in H as [_ <-]. simpl. lra.
Qed.

Lemma energy_bounded_witness :
  exists p,
    players (runOps lineGame [Disrupt "p1" "a"; Tick 1; Place "p1" "a" "b" "FOOD" 2])
      !! "p1"%string = Some p /\
    (0 <= energy p <= 100)%Q.
Proof.
  destruct (players (runOps lineGame [Disrupt "p1" "a"; Tick 1; Place "p1" "a" "b" "FOOD" 2])
              !! "p1"%string) as [p|] eqn:Hp; [|vm_compute in Hp; discriminate].
  exists p. split; [reflexivity|].
  apply (energy_bounded lineGame [Disrupt "p1" "a"; Tick 1; Place "p1" "a" "b" "FOOD" 2])
    with (k := "p1"%string); [|exact lineGame_energy|exact Hp].
  repeat constructor; simpl; lra.
Defined.

(** X13: [placePheromone] with a negative amount on an edge without an entry
    succeeds, credits the player five times the amount and stores a
    negative level. *)
Theorem placePheromone_negative_amount (gm : GameManager.t)
    (p f t ty : string) (pl : Player) (a : Q) :
  players gm !! p = Some pl ->
  Graph.hasEdge (graph gm) f t = true ->
  (a < 0)%Q -> (0 <= energy pl)%Q ->
  let key := pheromoneKey f t ty in
  Graph.pheromones (graph gm) !! key = None ->
  pheromoneKey t f ty <> key ->
  fst (placePheromone gm p f t ty a) = true /\
  exists pl' e,
    players (snd (placePheromone gm p f t ty a)) !! p = Some pl' /\
    (energy pl' == energy pl - 5 * a)%Q /\ (energy pl < energy pl')%Q /\
    Graph.pheromones (graph (snd (placePheromone gm p f t ty a))) !! key = Some e /\
    (Graph.level e == a)%Q /\ (Graph.level e < 0)%Q.
Proof.
  intros Hp He Ha Hen key Hk Hne. unfold placePheromone.
  rewrite Hp, He. simpl.
  assert (Hc : Qltb (energy pl) (a * 5) = false) by (apply Qltb_ge; lra).
  rewrite Hc. simpl. split; [done|].
  rewrite lookup_insert_eq. fold key. rewrite Hk. simpl.
  rewrite !andb_false_r. rewrite lookup_insert_ne by done. rewrite lookup_insert_eq.
  do 2 eexists. split; [reflexivity|]. simpl. split; [ring|]. split; [lra|].
  split; [reflexivity|]. simpl.
  destruct (js_min_spec (0 + a) 5.0) as [[? ->]|[? ->]]; split; lra.
Qed.

Lemma placePheromone_negative_amount_witness :
  fst (placePheromone lineGame "p1" "a" "b" "FOOD" (-10)) = true.
Proof.
  apply (placePheromone_negative_amount lineGame "p1" "a" "b" "FOOD"
           (mkPlayer "p1" "Player 1" 100 0) (-10)).
  - reflexivity.
  - vm_compute. reflexivity.
  - reflexivity.
  - simpl. lra.
  - reflexivity.
  - vm_compute. discriminate.
Defined.

Lemma command_nodes (refuse : Graph.Node -> bool) (cost : Q)
    (change : Graph.Node -> Graph.Node) (gm : GameManager.t) (p n k : string) :
  option_Forall2 (λ nd nd', nd' = nd \/ (refuse nd = false /\ nd' = change nd))
    (Graph.nodes (graph gm) !! k)
    (Graph.nodes (graph (snd (command refuse cost change gm p n))) !! k) /\
  Graph.edges (graph (snd (command refuse cost change gm p n))) = Graph.edges (graph gm).
Proof.
  destruct (command_cases refuse cost change gm p n)
    as [[-> _]|(pl & nd & Hp & Hn & Hr & He & ->)]; simpl.
  - split; [|done]. destruct (Graph.nodes (graph gm) !! k); constructor; auto.
  - split; [|done]. rewrite lookup_insert. case_decide as E.
    + subst k. rewrite Hn. constructor. auto.
    + destruct (Graph.nodes (graph gm) !! k); constructor; auto.
Qed.

Lemma runOp_nodes (gm : GameManager.t) (op : GameOp) (k : string) :
  option_Forall2 (nodeMoves op)
    (Graph.nodes (graph gm) !! k) (Graph.nodes (graph (runOp gm op)) !! k) /\
  Graph.edges (graph (runOp gm op)) = Graph.edges (graph gm).
Proof.
  destruct op as [dt|p f t ty a|p n|p n|p n|p]; simpl;
    unfold boostNode, disruptNode, expandNode.
  - split; [|done]. rewrite lookup_fmap.
    destruct (Graph.nodes (graph gm) !! k); constructor. by right.
  - destruct (placePheromone_cases gm p f t ty a)
      as [->|(pl & gph & _ & _ & _ & -> & Hn & He)]; simpl.
    + split; [|done]. destruct (Graph.nodes (graph gm) !! k); constructor; by left.
    + rewrite Hn, He. split; [|done].
      destruct (Graph.nodes (graph gm) !! k); constructor; by left.
  - destruct (command_nodes Graph.boosted 30
                (λ n, setEffects n true 30 (Graph.disrupted n) (Graph.disruptTimer n)
                        (Graph.size n) (Graph.capacity n)) gm p n k) as [H He].
    split; [|exact He]. destruct H as [nd nd' [->|[? ->]]|]; constructor;
      [by left|by right].
  - destruct (command_nodes
                (λ n, bool_decide (Graph.type n = Graph.NEST) || Graph.disrupted n) 40
                (λ n, setEffects n (Graph.boosted n) (Graph.boostTimer n) true 20
                        (Graph.size n) (Graph.capacity n)) gm p n k) as [H He].
    split; [|exact He]. destruct H as [nd nd' [->|[Hr ->]]|]; constructor;
      [by left|right].
    apply orb_false_iff in Hr as [Hr1 Hr2]. apply bool_decide_eq_false in Hr1. auto.
  - destruct (command_nodes (λ n, Qle_bool 3 (Graph.size n)) 50
                (λ n, setEffects n (Graph.boosted n) (Graph.boostTimer n)
                        (Graph.disrupted n) (Graph.disruptTimer n)
                        (Graph.size n + 1) (Graph.capacity n * 1.5)) gm p n k) as [H He].
    split; [|exact He]. destruct H as [nd nd' [->|[Hr ->]]|]; constructor;
      [by left|right]. split; [|done].
    apply Qltb_lt. unfold Qltb. by rewrite Hr.
  - split; [|done]. destruct (Graph.nodes (graph gm) !! k); constructor; by left.
Qed.

(** An invariant of the single node moves holds along every run. *)
Lemma runOps_nodes (P : Graph.Node -> Graph.Node -> Prop) (Q : GameOp -> Prop) :
  (forall n, P n n) ->
  (forall op n1 n2 n3, Q op -> P n1 n2 -> nodeMoves op n2 n3 -> P n1 n3) ->
  forall ops gm k,
    Forall Q ops ->
    option_Forall2 P (Graph.nodes (graph gm) !! k)
      (Graph.nodes (graph (runOps gm ops)) !! k) /\
    Graph.edges (graph (runOps gm ops)) = Graph.edges (graph gm).
Proof.
  intros Hrefl Hstep ops gm k Hq. revert gm.
  assert (Hgen : forall gm0 gm,
            option_Forall2 P (Graph.nodes (graph gm0) !! k) (Graph.nodes (graph gm) !! k) /\
            Graph.edges (graph gm) = Graph.edges (graph gm0) ->
            option_Forall2 P (Graph.nodes (graph gm0) !! k)
              (Graph.nodes (graph (runOps gm ops)) !! k) /\
            Graph.edges (graph (runOps gm ops)) = Graph.edges (graph gm0)).
  { induction Hq as [|op ops Hop Hq IH]; intros gm0 gm [Hn He]; simpl; [done|].
    apply IH. destruct (runOp_nodes gm op k) as [Hm He'].
    split; [|congruence].
    destruct Hn as [n1 n2 H12|]; inversion Hm; subst; constructor.
    eapply Hstep; eauto. }
  intros gm. apply Hgen. split; [|done].
  destruct (Graph.nodes (graph gm) !! k); constructor. apply Hrefl.
Qed.

End Game.

Section GameRuns.

Import GameManager.

Lemma updateNode_effects (dt : Q) (n : Graph.Node) :
  (0 <= dt)%Q -> effectsTimed n -> effectsTimed (updateNode dt n).
Proof.
  intros Hdt (Hb & Hd & Hnest). unfold effectsTimed, updateNode.
  destruct (Graph.boosted n) eqn:Eb, (Graph.disrupted n) eqn:Ed;
    repeat match goal with
    | |- context [Qle_bool ?a ?b] =>
      let E := fresh "E" in
      destruct (Qle_bool a b) eqn:E;
      [apply Qle_bool_iff in E|
       assert (b < a)%Q by (apply Qltb_lt; unfold Qltb; by rewrite E); clear E]
    | |- context [bool_decide ?P] => destruct (bool_decide P)
    | |- context [Qltb ?a ?b] => destruct (Qltb a b)
    end; simpl; repeat split; try lra; try done; try (intros; by auto).
Qed.

Lemma nodeMoves_effects (op : GameOp) (n n' : Graph.Node) :
  saneOp op -> nodeMoves op n n' -> effectsTimed n -> effectsTimed n'.
Proof.
  intros Hs [->|Hm] Ht; [done|].
  destruct op as [dt|p f t ty a|p k|p k|p k|p]; simpl in *; try done.
  - subst n'. by apply updateNode_effects.
  - destruct Hm as [Hb ->]. destruct Ht as (H1 & H2 & H3).
    unfold effectsTimed. simpl. repeat split; try lra; done.
  - destruct Hm as (Hty & Hd & ->). destruct Ht as (H1 & H2 & H3).
    unfold effectsTimed. simpl. repeat split; try lra; done.
  - destruct Hm as (Hsz & ->). exact Ht.
Qed.

(** X14: along every run with ticks that do not go back in time, the effect
    flags of every node stay in step with its timers (boosted with a timer
    above 0 and at most 30, disrupted with a timer above 0 and at most 20,
    a timer of 0 otherwise) and a nest is never disrupted. *)
Theorem effects_timed (gm : GameManager.t) (ops : list GameOp) :
  Forall saneOp ops ->
  (forall k n, Graph.nodes (graph gm) !! k = Some n -> effectsTimed n) ->
  forall k n, Graph.nodes (graph (runOps gm ops)) !! k = Some n -> effectsTimed n.
Proof.
  intros Hs Hgm k n' Hk.
  destruct (runOps_nodes (λ n1 n2, effectsTimed n1 -> effectsTimed n2) saneOp)
    with (ops := ops) (gm := gm) (k := k) as [H _]; auto.
  - intros op n1 n2 n3 Hop H12 H23 H1. eapply nodeMoves_effects; eauto.
  - rewrite Hk in H. inversion H as [n1 n2 H12 Heq1 Heq2|]. subst.
    apply H12. apply (Hgm k). done.
Qed.

Lemma lineGame_effects (k : string) (n : Graph.Node) :
  Graph.nodes (graph lineGame) !! k = Some n -> effectsTimed n.
Proof.
  intros Hk.
  destruct (built_invariant lineGraph lineGraph_built) as (_ & _ & _ & _ & Hn).
  assert (Hz : Forall (λ n, Graph.boostTimer n = 0%Q /\ Graph.disruptTimer n = 0%Q)
                 (map snd (map_to_list (Graph.nodes lineGraph)))).
  { vm_compute. repeat constructor. }
  destruct (Hn k n Hk) as (_ & Hb & Hd).
  rewrite Forall_forall in Hz. destruct (Hz n) as [Hbt Hdt].
  { apply list_elem_of_fmap. exists (k, n). split; [done|]. by apply elem_of_map_to_list. }
  unfold effectsTimed. rewrite Hb, Hd, Hbt, Hdt. repeat split; done.
Qed.

Lemma effects_timed_witness :
  exists n,
    Graph.nodes (graph (runOps lineGame [Disrupt "p1" "a"; Tick 1; Boost "p1" "b"]))
      !! "a"%string = Some n /\
    effectsTimed n.
Proof.
  destruct (Graph.nodes (graph (runOps lineGame [Disrupt "p1" "a"; Tick 1; Boost "p1" "b"]))
              !! "a"%string) as [n|] eqn:Hn; [|vm_compute in Hn; discriminate].
  exists n. split; [reflexivity|].
  apply (effects_timed lineGame [Disrupt "p1" "a"; Tick 1; Boost "p1" "b"])
    with (k := "a"%string); [|exact lineGame_effects|exact Hn].
  repeat constructor; simpl; lra.
Defined.

Lemma nodeMoves_identity (op : GameOp) (n n' : Graph.Node) :
  nodeMoves op n n' ->
  sameIdentity n n' /\ (Graph.resources n <= Graph.resources n')%Q.
Proof.
  intros [->|Hm]; [repeat split; lra|].
  destruct op as [dt|p f t ty a|p k|p k|p k|p]; simpl in *; try done.
  - subst n'. unfold sameIdentity, updateNode.
    destruct (Graph.boosted n), (Graph.disrupted n);
      repeat match goal with
      | |- context [Qle_bool ?a ?b] => destruct (Qle_bool a b)
      | |- context [bool_decide ?P] => destruct (bool_decide P)
      | |- context [Qltb ?a ?b] =>
        let E := fresh "E" in destruct (Qltb a b) eqn:E; [apply Qltb_lt in E|]
      end; simpl; repeat split; try lra.
    all: destruct (js_min_spec (Graph.resources n + 1) (Graph.capacity n))
           as [[? ->]|[? ->]]; lra.
  - destruct Hm as [_ ->]. repeat split; simpl; lra.
  - destruct Hm as (_ & _ & ->). repeat split; simpl; lra.
  - destruct Hm as (_ & ->). repeat split; simpl; lra.
Qed.

(** X15: no run of the game adds or removes a node or an edge or changes the
    id, type, position or distance of a node, and the resources of a node
    never decrease. *)
Theorem world_structure_fixed (gm : GameManager.t) (ops : list GameOp) (k : string) :
  Graph.edges (graph (runOps gm ops)) = Graph.edges (graph gm) /\
  option_Forall2
    (λ n n', sameIdentity n n' /\ (Graph.resources n <= Graph.resources n')%Q)
    (Graph.nodes (graph gm) !! k) (Graph.nodes (graph (runOps gm ops)) !! k).
Proof.
  destruct (runOps_nodes
              (λ n n', sameIdentity n n' /\ (Graph.resources n <= Graph.resources n')%Q)
              (λ _, True))
    with (ops := ops) (gm := gm) (k := k) as [H He].
  - intros n. repeat split; lra.
  - intros op n1 n2 n3 _ [(Ha & Hb & Hc & Hd) Hr] Hm.
    apply nodeMoves_identity in Hm as [(Ha' & Hb' & Hc' & Hd') Hr'].
    repeat split; try congruence. lra.
  - apply Forall_forall. done.
  - done.
Qed.

Lemma nodeMoves_expanded (op : GameOp) (j : nat) (n1 n2 n3 : Graph.Node) :
  expanded j n1 n2 -> nodeMoves op n2 n3 ->
  expanded j n1 n3 \/ expanded (S j) n1 n3.
Proof.
  intros (Hs & Hc & Hj) [->|Hm]; [by left|].
  destruct op as [dt|p f t ty a|p k|p k|p k|p]; simpl in *; try done.
  - left. subst n3. unfold expanded, updateNode.
    destruct (Graph.boosted n2), (Graph.disrupted n2);
      repeat match goal with
      | |- context [Qle_bool ?a ?b] => destruct (Qle_bool a b)
      | |- context [bool_decide ?P] => destruct (bool_decide P)
      | |- context [Qltb ?a ?b] => destruct (Qltb a b)
      end; simpl; done.
  - left. destruct Hm as [_ ->]. done.
  - left. destruct Hm as (_ & _ & ->). done.
  - right. destruct Hm as (Hlt & ->). unfold expanded.
    cbn [Graph.size Graph.capacity setEffects].
    split; [|split].
    + rewrite Hs, Nat2Z.inj_succ, <- Z.add_1_r, inject_Z_plus. ring.
    + rewrite Hc, Nat2Z.inj_succ, <- Z.add_1_r.
      rewrite Qpower_plus by done. simpl. ring.
    + right. lra.
Qed.

(** X16: along every run a node has been expanded some [j] times: its size
    has grown by [j], its capacity by the factor 1.5 to the [j], and its
    size is below 4 once it has been expanded. *)
Theorem expansion_limited (gm : GameManager.t) (ops : list GameOp) (k : string) :
  option_Forall2 (λ n n', exists j, expanded j n n')
    (Graph.nodes (graph gm) !! k) (Graph.nodes (graph (runOps gm ops)) !! k).
Proof.
  destruct (runOps_nodes (λ n n', exists j, expanded j n n') (λ _, True))
    with (ops := ops) (gm := gm) (k := k) as [H He].
  - intros n. exists 0%nat. unfold expanded. simpl. repeat split; try ring. by left.
  - intros op n1 n2 n3 _ [j Hj] Hm.
    destruct (nodeMoves_expanded op j n1 n2 n3 Hj Hm); eauto.
  - apply Forall_forall. done.
  - done.
Qed.

End GameRuns.

Section GameTicks.

Import GameManager.

Lemma elapsed_nonneg (dts : list Q) : Forall (λ d, (0 <= d)%Q) dts -> (0 <= elapsed dts)%Q.
Proof. induction 1; simpl; lra. Qed.

Lemma runOps_ticks (gm : GameManager.t) (dts : list Q) (k : string) :
  Graph.nodes (graph (runOps gm (map Tick dts))) !! k
  = (λ n, afterTicks n dts) <$> Graph.nodes (graph gm) !! k.
Proof.
  revert gm. induction dts as [|d dts IH]; intros gm; simpl.
  - by destruct (Graph.nodes (graph gm) !! k).
  - rewrite IH. unfold update, updatePlayers, updateNodes, updatePheromones. simpl.
    rewrite lookup_fmap. by destruct (Graph.nodes (graph gm) !! k).
Qed.

Lemma updateNode_disrupted (dt : Q) (n : Graph.Node) :
  Graph.disrupted (updateNode dt n)
  = Graph.disrupted n && Qltb 0 (Graph.disruptTimer n - dt) /\
  (Graph.disrupted (updateNode dt n) = true ->
   Graph.disruptTimer (updateNode dt n) = (Graph.disruptTimer n - dt)%Q).
Proof.
  unfold updateNode, Qltb.
  destruct (Graph.boosted n), (Graph.disrupted n);
    repeat match goal with
    | |- context [Qle_bool ?a ?b] => destruct (Qle_bool a b)
    | |- context [bool_decide ?P] => destruct (bool_decide P)
    end; simpl; split; done.
Qed.

Lemma updateNode_boosted (dt : Q) (n : Graph.Node) :
  Graph.boosted (updateNode dt n)
  = Graph.boosted n && Qltb 0 (Graph.boostTimer n - dt) /\
  (Graph.boosted (updateNode dt n) = true ->
   Graph.boostTimer (updateNode dt n) = (Graph.boostTimer n - dt)%Q).
Proof.
  unfold updateNode, Qltb.
  destruct (Graph.boosted n), (Graph.disrupted n);
    repeat match goal with
    | |- context [Qle_bool ?a ?b] => destruct (Qle_bool a b)
    | |- context [bool_decide ?P] => destruct (bool_decide P)
    end; simpl; split; done.
Qed.

Lemma Qltb_shift (d e T : Q) : Qltb e (T - d) = Qltb (d + e) T.
Proof.
  destruct (Qltb (d + e) T) eqn:E.
  - apply Qltb_lt in E. apply Qltb_lt. lra.
  - apply Qltb_ge in E. apply Qltb_ge. lra.
Qed.

Lemma afterTicks_disrupted (dts : list Q) :
  Forall (λ d, (0 <= d)%Q) dts ->
  forall n,
    (Graph.disrupted n = true -> (0 < Graph.disruptTimer n)%Q) ->
    Graph.disrupted (afterTicks n dts)
    = Graph.disrupted n && Qltb (elapsed dts) (Graph.disruptTimer n).
Proof.
  induction 1 as [|d dts Hd Hdts IH]; intros n Hpos; simpl.
  - destruct (Graph.disrupted n); [|done]. symmetry. by apply Qltb_lt, Hpos.
  - destruct (updateNode_disrupted d n) as [H1 H2].
    fold (afterTicks (updateNode d n) dts). rewrite IH.
    + rewrite H1. destruct (Graph.disrupted n); [|done]. simpl.
      destruct (Qltb 0 (Graph.disruptTimer n - d)) eqn:E; simpl.
      * rewrite H2 by (by rewrite H1). apply Qltb_shift.
      * symmetry. apply Qltb_ge. apply Qltb_ge in E.
        pose proof (elapsed_nonneg dts Hdts). lra.
    + intros Hdis. rewrite (H2 Hdis). rewrite H1 in Hdis.
      apply andb_true_iff in Hdis as [_ Hlt]. by apply Qltb_lt.
Qed.

Lemma afterTicks_boosted (dts : list Q) :
  Forall (λ d, (0 <= d)%Q) dts ->
  forall n,
    (Graph.boosted n = true -> (0 < Graph.boostTimer n)%Q) ->
    Graph.boosted (afterTicks n dts)
    = Graph.boosted n && Qltb (elapsed dts) (Graph.boostTimer n).
Proof.
  induction 1 as [|d dts Hd Hdts IH]; intros n Hpos; simpl.
  - destruct (Graph.boosted n); [|done]. symmetry. by apply Qltb_lt, Hpos.
  - destruct (updateNode_boosted d n) as [H1 H2].
    fold (afterTicks (updateNode d n) dts). rewrite IH.
    + rewrite H1. destruct (Graph.boosted n); [|done]. simpl.
      destruct (Qltb 0 (Graph.boostTimer n - d)) eqn:E; simpl.
      * rewrite H2 by (by rewrite H1). apply Qltb_shift.
      * symmetry. apply Qltb_ge. apply Qltb_ge in E.
        pose proof (elapsed_nonneg dts Hdts). lra.
    + intros Hb. rewrite (H2 Hb). rewrite H1 in Hb.
      apply andb_true_iff in Hb as [_ Hlt]. by apply Qltb_lt.
Qed.

Lemma updateNode_timers (dt : Q) (n : Graph.Node) :
  (0 <= dt)%Q -> effectsTimed n ->
  (Graph.boostTimer (updateNode dt n) <= Graph.boostTimer n)%Q /\
  (Graph.disruptTimer (updateNode dt n) <= Graph.disruptTimer n)%Q.
Proof.
  intros Hdt (Hb & Hd & _). unfold updateNode.
  destruct (Graph.boosted n) eqn:Eb, (Graph.disrupted n) eqn:Ed;
    repeat match goal with
    | |- context [Qle_bool ?a ?b] => destruct (Qle_bool a b)
    | |- context [bool_decide ?P] => destruct (bool_decide P)
    | |- context [Qltb ?a ?b] => destruct (Qltb a b)
    end; simpl; split; lra.
Qed.

Lemma afterTicks_timers (dts : list Q) :
  Forall (λ d, (0 <= d)%Q) dts ->
  forall n,
    effectsTimed n ->
    effectsTimed (afterTicks n dts) /\
    (Graph.boostTimer (afterTicks n dts) <= Graph.boostTimer n)%Q /\
    (Graph.disruptTimer (afterTicks n dts) <= Graph.disruptTimer n)%Q.
Proof.
  induction 1 as [|d dts Hd Hdts IH]; intros n Hn; simpl.
  - split; [done|]. split; lra.
  - fold (afterTicks (updateNode d n) dts).
    destruct (updateNode_timers d n Hd Hn) as [H1 H2].
    destruct (IH (updateNode d n) (updateNode_effects d n Hd Hn)) as (He & H3 & H4).
    split; [done|]. split; lra.
Qed.

Lemma elapsed_elem (dts : list Q) (d : Q) :
  Forall (λ d, (0 <= d)%Q) dts -> d ∈ dts -> (d <= elapsed dts)%Q.
Proof.
  induction 1 as [|x dts Hx Hdts IH]; [by intros H%elem_of_nil|].
  pose proof (elapsed_nonneg dts Hdts). simpl.
  intros [->|Hin]%elem_of_cons; [lra|]. specialize (IH Hin). lra.
Qed.

(** X17: ticks of non-negative lengths never switch an effect on and never
    raise a timer: a node that is boosted (disrupted) after the ticks was
    so before, and its timer is above 0 and not above the earlier one; if
    one of the ticks is at least as long as the timer the node had, the
    effect is off after the ticks; after a single tick the effect is on
    exactly when it was on and the tick was shorter than the timer. *)
Theorem effects_last (gm : GameManager.t) (k : string) (n : Graph.Node)
    (dts : list Q) :
  Graph.nodes (graph gm) !! k = Some n ->
  effectsTimed n ->
  Forall (λ d, (0 <= d)%Q) dts ->
  exists n',
    Graph.nodes (graph (runOps gm (map Tick dts))) !! k = Some n' /\
    (Graph.boosted n' = true ->
     Graph.boosted n = true /\ (0 < Graph.boostTimer n' <= Graph.boostTimer n)%Q) /\
    (Graph.disrupted n' = true ->
     Graph.disrupted n = true /\
     (0 < Graph.disruptTimer n' <= Graph.disruptTimer n)%Q) /\
    (forall d, d ∈ dts -> (Graph.boostTimer n <= d)%Q -> Graph.boosted n' = false) /\
    (forall d, d ∈ dts -> (Graph.disruptTimer n <= d)%Q -> Graph.disrupted n' = false) /\
    (forall d, dts = [d] ->
               Graph.boosted n' = Graph.boosted n && Qltb d (Graph.boostTimer n) /\
               Graph.disrupted n' = Graph.disrupted n && Qltb d (Graph.disruptTimer n)).
Proof.
  intros Hk Hn Hdts. exists (afterTicks n dts).
  rewrite runOps_ticks, Hk. split; [done|].
  destruct (afterTicks_timers dts Hdts n Hn) as ((Hb' & Hd' & _) & Hbt & Hdt).
  destruct Hn as (Hb & Hd & _).
  assert (Hbo : Graph.boosted (afterTicks n dts)
                = Graph.boosted n && Qltb (elapsed dts) (Graph.boostTimer n)).
  { apply afterTicks_boosted; [done|]. intros E. rewrite E in Hb. tauto. }
  assert (Hdi : Graph.disrupted (afterTicks n dts)
                = Graph.disrupted n && Qltb (elapsed dts) (Graph.disruptTimer n)).
  { apply afterTicks_disrupted; [done|]. intros E. rewrite E in Hd. tauto. }
  split; [|split; [|split; [|split]]].
  - intros E. rewrite E in Hb'. rewrite E in Hbo.
    symmetry in Hbo. apply andb_true_iff in Hbo as [Hbn _]. split; [done|]. lra.
  - intros E. rewrite E in Hd'. rewrite E in Hdi.
    symmetry in Hdi. apply andb_true_iff in Hdi as [Hdn _]. split; [done|]. lra.
  - intros d Hin Hle. rewrite Hbo. apply andb_false_iff. right. apply Qltb_ge.
    pose proof (elapsed_elem dts d Hdts Hin). lra.
  - intros d Hin Hle. rewrite Hdi. apply andb_false_iff. right. apply Qltb_ge.
    pose proof (elapsed_elem dts d Hdts Hin). lra.
  - intros d ->. rewrite Hbo, Hdi. simpl.
    assert (Hq : forall t, Qltb (d + 0) t = Qltb d t).
    { intros t. destruct (Qltb d t) eqn:E.
      - apply Qltb_lt in E. apply Qltb_lt. lra.
      - apply Qltb_ge in E. apply Qltb_ge. lra. }
    by rewrite !Hq.
Qed.

Lemma effects_last_witness :
  exists n',
    Graph.nodes (graph (runOps (snd (disruptNode lineGame "p1" "a")) (map Tick [12; 25]%Q)))
      !! "a"%string = Some n' /\
    Graph.disrupted n' = false.
Proof.
  destruct (effects_last (snd (disruptNode lineGame "p1" "a")) "a"
              (Graph.mkNode "a" Graph.NORMAL (Graph.mkPosition 0 0 0) 1 10 0
                 Graph.Infinity false true 0 20 None) [12; 25]%Q)
    as (n' & Hn' & _ & _ & _ & Hd & _).
  - vm_compute. reflexivity.
  - unfold effectsTimed. simpl. repeat split; try lra; try done.
  - repeat constructor; lra.
  - exists n'. split; [exact Hn'|]. apply (Hd 25%Q); [|simpl; lra].
    right. by left.
Defined.



End GameTicks.

Section ServerField.

Import GameManager.

Lemma command_pheromones (refuse : Graph.Node -> bool) (cost : Q)
    (change : Graph.Node -> Graph.Node) (gm : GameManager.t) (p n : string) :
  Graph.pheromones (graph (snd (command refuse cost change gm p n)))
  = Graph.pheromones (graph gm).
Proof.
  destruct (command_cases refuse cost change gm p n)
    as [[-> _]|(pl & nd & _ & _ & _ & _ & ->)]; done.
Qed.

Lemma placed_level (l a : Q) :
  (0 <= l <= 5)%Q -> (0 <= a)%Q -> (0 <= js_min (l + a) 5.0 <= 5)%Q.
Proof.
  intros Hl Ha. destruct (js_min_spec (l + a) 5.0) as [[? ->]|[? ->]]; lra.
Qed.

Lemma runOp_field (gm : GameManager.t) (op : GameOp) :
  saneOp op -> serverFieldBounded gm -> serverFieldBounded (runOp gm op).
Proof.
  intros Hs Hb. destruct op as [dt|p f t ty a|p n|p n|p n|p]; simpl in *.
  - intros k e. unfold update, updatePlayers, updateNodes, updatePheromones. simpl.
    rewrite lookup_omap. destruct (Graph.pheromones (graph gm) !! k) as [e0|] eqn:Hk;
      [|discriminate]. simpl.
    destruct (Qltb _ _) eqn:E; [discriminate|]. intros [= <-]. simpl.
    apply Qltb_ge in E. specialize (Hb k e0 Hk). split; [lra|]. nra.
  - intros k e. unfold placePheromone.
    destruct (players gm !! p) as [pl|]; [|apply Hb].
    destruct (Graph.hasEdge (graph gm) f t); simpl; [|apply Hb].
    destruct (Qltb (energy pl) (a * 5)); [apply Hb|]. simpl.
    set (ph := Graph.pheromones (graph gm)).
    assert (Hdef : forall key,
              (0 <= Graph.level (default (Graph.mkEntry 0 None) (ph !! key)) <= 5)%Q).
    { intros key. destruct (ph !! key) as [e0|] eqn:Hk; simpl; [by apply (Hb key)|lra]. }
    assert (Hhalf : (0 <= a * 0.5)%Q) by lra.
    rewrite lookup_insert. case_decide.
    { intros [= <-]. simpl. apply placed_level; [|done].
      destruct (_ && _); simpl; [apply placed_level; auto|apply Hdef]. }
    rewrite lookup_insert. case_decide; [|apply Hb].
    intros [= <-]. destruct (_ && _); simpl.
    + apply placed_level; [|done]. simpl. apply placed_level; auto.
    + apply placed_level; auto.
  - intros k e. unfold boostNode. rewrite command_pheromones. apply Hb.
  - intros k e. unfold disruptNode. rewrite command_pheromones. apply Hb.
  - intros k e. unfold expandNode. rewrite command_pheromones. apply Hb.
  - exact Hb.
Qed.

Lemma runOps_field (gm : GameManager.t) (ops : list GameOp) :
  Forall saneOp ops -> serverFieldBounded gm -> serverFieldBounded (runOps gm ops).
Proof.
  intros Hs. revert gm. induction Hs as [|op ops Hop Hs IH]; intros gm Hb; simpl.
  - exact Hb.
  - apply IH. by apply runOp_field.
Qed.

(** X19: along every run with non-negative tick lengths and amounts the
    pheromone levels of the server stay between 0 and 5, and right after a
    tick every stored level is at least 0.01. *)
Theorem server_field_bounded (gm : GameManager.t) (ops : list GameOp) :
  Forall saneOp ops -> serverFieldBounded gm ->
  serverFieldBounded (runOps gm ops) /\
  forall dt k e,
    (0 <= dt)%Q ->
    Graph.pheromones (graph (runOps gm (ops ++ [Tick dt]))) !! k = Some e ->
    (0.01 <= Graph.level e <= 5)%Q.
Proof.
  intros Hs Hb. pose proof (runOps_field gm ops Hs Hb) as Hops.
  split; [exact Hops|]. intros dt k e Hdt. unfold runOps. rewrite foldl_app. simpl.
  fold (runOps gm ops). intros He.
  assert (Hb' : serverFieldBounded (runOp (runOps gm ops) (Tick dt)))
    by (by apply runOp_field).
  split; [|by apply (Hb' k e)].
  revert He. simpl. unfold update, updatePlayers, updateNodes, updatePheromones. simpl.
  rewrite lookup_omap.
  destruct (Graph.pheromones (graph (runOps gm ops)) !! k) as [e0|]; [|discriminate].
  simpl. destruct (Qltb _ _) eqn:E; [discriminate|]. intros [= <-]. simpl.
  by apply Qltb_ge in E.
Qed.

Lemma server_field_bounded_witness :
  exists e,
    Graph.pheromones (graph (runOps lineGame ([Place "p1" "a" "b" "FOOD" 2] ++ [Tick 1])))
      !! "a,b,FOOD"%string = Some e /\
    (0.01 <= Graph.level e <= 5)%Q.
Proof.
  destruct (Graph.pheromones
              (graph (runOps lineGame ([Place "p1" "a" "b" "FOOD" 2] ++ [Tick 1])))
              !! "a,b,FOOD"%string) as [e|] eqn:He; [|vm_compute in He; discriminate].
  exists e. split; [reflexivity|].
  destruct (server_field_bounded lineGame [Place "p1" "a" "b" "FOOD" 2]) as [_ H].
  - repeat constructor. simpl. lra.
  - intros k e0 Hk. vm_compute in Hk. discriminate.
  - apply (H 1%Q "a,b,FOOD"%string e); [lra|exact He].
Defined.

(** *** The published pheromones *)

Lemma splitComma_commaFree (s : string) : commaFree s = true -> splitComma s = [s].
Proof.
  induction s as [|c s IH]; simpl; [done|].
  intros [Hc Hs]%andb_true_iff. apply negb_true_iff in Hc. rewrite Hc.
  by rewrite (IH Hs).
Qed.

Lemma splitComma_prefix (s r : string) :
  commaFree s = true -> splitComma (s +:+ "," +:+ r) = s :: splitComma r.
Proof.
  induction s as [|c s IH]; simpl; [done|].
  intros [Hc Hs]%andb_true_iff. apply negb_true_iff in Hc. rewrite Hc.
  by rewrite (IH Hs).
Qed.

Lemma splitComma_key (f t ty : string) :
  commaFree f = true -> commaFree t = true -> commaFree ty = true ->
  splitComma (pheromoneKey f t ty) = [f; t; ty].
Proof.
  intros Hf Ht Hty. unfold pheromoneKey.
  by rewrite (splitComma_prefix f _ Hf), (splitComma_prefix t _ Ht),
    (splitComma_commaFree ty Hty).
Qed.

(** X20: [updateGameState] publishes only levels above 0.01, each with a
    [fromId]; an entry stored under the key of comma-free ids and type is
    published with exactly these fields, exactly when its level exceeds
    0.01. *)
Theorem published_pheromones (entries : list (string * Graph.PheromoneEntry)) :
  (forall e, e ∈ publishPheromones entries ->
             (0.01 < pub_level e)%Q /\ is_Some (pub_fromId e)) /\
  (forall f t ty data,
     commaFree f = true -> commaFree t = true -> commaFree ty = true ->
     (pheromoneKey f t ty, data) ∈ entries ->
     (mkPublished (Some f) (Some t) (Some ty) (Graph.level data) (Graph.playerId data)
        ∈ publishPheromones entries
      <-> (0.01 < Graph.level data)%Q)).
Proof.
  assert (Hspec : forall e,
            e ∈ publishPheromones entries <->
            exists key data,
              (key, data) ∈ entries /\ (0.01 < Graph.level data)%Q /\
              e = mkPublished (splitComma key !! 0%nat) (splitComma key !! 1%nat)
                    (splitComma key !! 2%nat) (Graph.level data) (Graph.playerId data)).
  { intros e. induction entries as [|[key data] entries IH]; simpl.
    - split; [by intros H%elem_of_nil|]. by intros (? & ? & H%elem_of_nil & _).
    - destruct (Qltb 0.01 (Graph.level data)) eqn:E.
      + apply Qltb_lt in E. rewrite elem_of_cons, IH. split.
        * intros [->|(k & d & Hin & Hl & ->)].
          -- exists key, data. split; [by left|done].
          -- exists k, d. split; [by right|done].
        * intros (k & d & Hin & Hl & ->). apply elem_of_cons in Hin as [[= -> ->]|Hin];
            [by left|right; eauto].
      + apply Qltb_ge in E. rewrite IH. split.
        * intros (k & d & Hin & Hl & ->). exists k, d. split; [by right|done].
        * intros (k & d & Hin & Hl & ->). apply elem_of_cons in Hin as [[= -> ->]|Hin];
            [lra|eauto]. }
  split.
  - intros e (key & data & _ & Hl & ->)%Hspec. simpl. split; [done|].
    destruct key as [|c key]; simpl; [by eexists|].
    destruct (Ascii.eqb _ _); [by eexists|]. destruct (splitComma key); by eexists.
  - intros f t ty data Hf Ht Hty Hin. rewrite Hspec. split.
    + intros (key & d & _ & Hl & [= _ _ _ Hlev _]). by rewrite Hlev.
    + intros Hl. exists (pheromoneKey f t ty), data. split; [done|]. split; [done|].
      by rewrite splitComma_key.
Qed.

Lemma published_pheromones_witness :
  mkPublished (Some "a"%string) (Some "b"%string) (Some "FOOD"%string) 2 (Some "p1"%string)
    ∈ publishPheromones
        [("a,b,FOOD"%string, Graph.mkEntry 2 (Some "p1"%string));
         ("b,a,FOOD"%string, Graph.mkEntry 0.01 (Some "p1"%string))].
Proof.
  destruct (published_pheromones
              [("a,b,FOOD"%string, Graph.mkEntry 2 (Some "p1"%string));
               ("b,a,FOOD"%string, Graph.mkEntry 0.01 (Some "p1"%string))]) as [_ H].
  apply (H "a" "b" "FOOD" (Graph.mkEntry 2 (Some "p1"%string)))%string;
    [reflexivity..|by left|simpl; lra].
Defined.

End ServerField.

(** ** The ants and the colony *)

Section AntSteps.

Import AntColony.

Variable random : nat -> Q.

Lemma pick_member (rnd : Q) (items : list (string * Q)) :
  forall cum n, Ant.pick rnd cum items = Some n -> n ∈ map fst items.
Proof.
  induction items as [|[i p] items IH]; intros cum n; simpl; [discriminate|].
  destruct (Qle_bool rnd (cum + p)).
  - intros [= <-]. by left.
  - intros H. right. by eapply IH.
Qed.

Lemma selectBasedOnProbability_member (c c1 : t) (probs : list (string * Q))
    (sel : option string) :
  Ant.selectBasedOnProbability random c probs = (sel, c1) ->
  drew c c1 /\
  match sel with
  | Some n => n ∈ map fst probs
  | None => probs = []
  end.
Proof.
  unfold Ant.selectBasedOnProbability.
  destruct (Qeq_bool _ 0).
  - intros [= <- <-]. split; [by left|].
    destruct probs as [|[n p] probs]; simpl; [done|by left].
  - set (normalized := map _ probs).
    assert (Hfst : map fst normalized = map fst probs).
    { unfold normalized. rewrite map_map. by apply map_ext. }
    destruct (Ant.pick _ 0 normalized) as [n|] eqn:Hp.
    + intros [= <- <-]. split; [by right|]. rewrite <- Hfst. by eapply pick_member.
    + intros [= <- <-]. split; [by right|].
      destruct (last normalized) as [[n p]|] eqn:Hl; simpl.
      * rewrite <- Hfst. apply list_elem_of_fmap. exists (n, p). split; [done|].
        rewrite last_lookup in Hl. by eapply list_elem_of_lookup_2.
      * apply last_None in Hl. unfold normalized in Hl.
        by destruct probs.
Qed.

Lemma calculateMovementProbabilities_ids (c : t) (a : Ant) (neighbors : list string) :
  forall probs,
    Ant.calculateMovementProbabilities c a neighbors = Some probs ->
    map fst probs = neighbors.
Proof.
  induction neighbors as [|n neighbors IH]; intros probs; simpl.
  - by intros [= <-].
  - destruct (Graph.getNode (graph c) n); [|discriminate].
    destruct (Ant.calculateMovementProbabilities c a neighbors) as [tl|]; [|discriminate].
    intros [= <-]. simpl. f_equal. by apply IH.
Qed.

Lemma closest_member (g : Graph.t) (neighbors : list string) :
  forall best d r,
    Ant.closest g neighbors best d = Some r ->
    r = best \/ exists n, r = Some n /\ n ∈ neighbors.
Proof.
  induction neighbors as [|n neighbors IH]; intros best d r; simpl.
  - intros [= <-]. by left.
  - destruct (Graph.getNode g n) as [node|]; [|discriminate].
    destruct (Graph.dist_ltb _ _); intros H; apply IH in H as [->|(m & -> & Hm)].
    + right. exists n. split; [done|by left].
    + right. exists m. split; [done|by right].
    + by left.
    + right. exists m. split; [done|by right].
Qed.

Lemma truthy_Some (s : option string) :
  truthy s = true -> exists n, s = Some n /\ n <> EmptyString.
Proof.
  destruct s as [n|]; simpl; [|discriminate].
  intros H. exists n. split; [done|]. apply negb_true_iff, bool_decide_eq_false in H. done.
Qed.

(** What [checkForResources] can do. *)
Lemma checkForResources_cases (c c' : t) (a a' : Ant) :
  Ant.checkForResources c a = Some (c', a') ->
  exists node,
    Graph.nodes (graph c) !! currentNodeId a = Some node /\
    ((c' = c /\ a' = a) \/
     (Graph.type node = Graph.FOOD_SOURCE /\ (0 < Graph.resources node)%Q /\
      truthy (carrying a) = false /\
      a' = Ant.setState (Ant.setCarrying a (Some "FOOD"%string)) RETURNING /\
      exists node',
        c' = setGraph c (GameManager.setGraphNodes (graph c)
                           (<[currentNodeId a := node']> (Graph.nodes (graph c)))) /\
        (Graph.resources node' == Graph.resources node - 1)%Q /\
        sameIdentity node node' /\ Graph.capacity node' = Graph.capacity node) \/
     (Graph.type node = Graph.NEST /\ truthy (carrying a) = true /\
      c' = addResource c (default EmptyString (carrying a)) 1 /\
      a' = Ant.setState (Ant.setPath (Ant.setCarrying a None) [currentNodeId a]) FOLLOWING)).
Proof.
  unfold Ant.checkForResources, Graph.getNode.
  destruct (Graph.nodes (graph c) !! currentNodeId a) as [node|] eqn:Hn; [|discriminate].
  intros H. exists node. split; [done|].
  destruct (bool_decide (Graph.type node = Graph.FOOD_SOURCE)) eqn:Ef.
  - apply bool_decide_eq_true in Ef.
    rewrite bool_decide_eq_false_2 in H by (rewrite Ef; discriminate).
    destruct (Qltb 0 (Graph.resources node)) eqn:Er;
      [destruct (truthy (carrying a)) eqn:Ec|]; simpl in H; injection H as <- <-.
    + by left.
    + right. left. apply Qltb_lt in Er. repeat split; auto.
      eexists. split; [reflexivity|]. simpl. repeat split; try ring.
    + by left.
  - simpl in H. destruct (bool_decide (Graph.type node = Graph.NEST)) eqn:En;
      [destruct (truthy (carrying a)) eqn:Ec|]; simpl in H; injection H as <- <-.
    + right. right. apply bool_decide_eq_true in En. done.
    + by left.
    + by left.
Qed.

(** What one update of an ant can do; [a1] is the ant after
    [updateFatigue]. *)
Lemma update_cases (dt : Q) (c c' : t) (a a' : Ant) :
  Ant.update random dt c a = Some (c', a') ->
  let a1 := Ant.updateFatigue dt a in
  (Qltb (movementProgress a1) 1 = true /\
   Ant.updateMovement random dt c a1 = Some (c', a')) \/
  (Qltb (movementProgress a1) 1 = false /\
   ((state a1 = RESTING /\ c' = c /\ a' = Ant.rest dt a1) \/
    (state a1 = RETURNING /\ drew c c' /\
     (a' = a1 \/ exists n, nextNode c a n /\ a' = Ant.moveToNode a1 (Some n))) \/
    (state a1 = EXPLORING /\ c' = c /\ a' = Ant.setState a1 RETURNING) \/
    (state a1 = EXPLORING /\ drew c c' /\ a' = a1) \/
    ((state a1 = EXPLORING \/ state a1 = FOLLOWING) /\
     exists c1 n, drew c c1 /\ nextNode c a n /\
                  Ant.checkForResources c1 (Ant.moveToNode a1 (Some n)) = Some (c', a')) \/
    (state a1 = FOLLOWING /\
     exists c1, drew c c1 /\
                Ant.checkForResources c1 (Ant.setState a1 EXPLORING) = Some (c', a')))).
Proof.
  intros H a1. unfold Ant.update in H. fold a1 in H.
  assert (Hcur : currentNodeId a1 = currentNodeId a).
  { unfold a1, Ant.updateFatigue. by destruct (_ && _). }
  destruct (Qltb (movementProgress a1) 1) eqn:Hp.
  { left. split; [done|]. exact H. }
  right. split; [done|].
  destruct (state a1) eqn:Hs.
  - (* explore *)
    unfold Ant.explore in H. rewrite Hcur in H.
    destruct (Graph.getNeighbors (graph c) (currentNodeId a)) as [|n0 nbs] eqn:Hnb.
    { injection H as <- <-. right. right. left. done. }
    destruct (Ant.calculateMovementProbabilities c a1 (n0 :: nbs)) as [probs|] eqn:Hcalc;
      [|discriminate].
    apply calculateMovementProbabilities_ids in Hcalc.
    destruct (Ant.selectBasedOnProbability random c probs) as [sel c1] eqn:Hsel.
    apply selectBasedOnProbability_member in Hsel as [Hdrew Hmem].
    destruct (truthy sel) eqn:Ht; simpl in H.
    + apply truthy_Some in Ht as (n & -> & Hne).
      do 4 right. left. split; [by left|]. exists c1, n. split; [done|].
      split; [|done]. split; [done|]. rewrite Hnb, <- Hcalc. done.
    + injection H as <- <-. do 3 right. left. done.
  - (* returnToNest *)
    unfold Ant.returnToNest in H. rewrite Hcur in H.
    destruct (Ant.closest (graph c) _ None Graph.Infinity) as [best|] eqn:Hc;
      [|discriminate].
    right. left. split; [done|].
    destruct (truthy best) eqn:Ht.
    + injection H as <- <-. split; [by left|]. right.
      apply truthy_Some in Ht as (n & -> & Hne). exists n. split; [|done].
      split; [done|].
      apply closest_member in Hc as [?|(m & [= <-] & Hm)]; [discriminate|done].
    + destruct (Graph.getNeighbors (graph c) (currentNodeId a)) as [|n0 nbs] eqn:Hnb.
      { injection H as <- <-. split; [by left|by left]. }
      injection H as <- <-. split; [by right|].
      set (chosen := if (_ <? 0)%Z then None else _).
      destruct (truthy chosen) eqn:Hch.
      * apply truthy_Some in Hch as (n & Hn & Hne). right. exists n.
        rewrite Hn. split; [|done]. split; [done|].
        unfold chosen in Hn. destruct (_ <? 0)%Z; [discriminate|].
        rewrite Hnb. by eapply list_elem_of_lookup_2.
      * left. unfold Ant.moveToNode. destruct chosen; [|done]. by rewrite Hch.
  - (* rest *)
    injection H as <- <-. left. done.
  - (* followTrail *)
    unfold Ant.followTrail in H. rewrite Hcur in H.
    destruct (Ant.selectBasedOnProbability random c _) as [sel c1] eqn:Hsel.
    apply selectBasedOnProbability_member in Hsel as [Hdrew Hmem].
    destruct (truthy sel) eqn:Ht.
    + apply truthy_Some in Ht as (n & -> & Hne).
      do 4 right. left. split; [by right|]. exists c1, n. split; [done|].
      split; [|done]. split; [done|].
      rewrite map_map in Hmem. simpl in Hmem. by rewrite map_id in Hmem.
    + do 5 right. split; [done|]. by exists c1.
Qed.

End AntSteps.

Section AntProperties.

Import AntColony.

Variable random : nat -> Q.

Lemma updateFatigue_fields (dt : Q) (a : Ant) :
  let a1 := Ant.updateFatigue dt a in
  currentNodeId a1 = currentNodeId a /\ previousNodeId a1 = previousNodeId a /\
  role a1 = role a /\ carrying a1 = carrying a /\ memory a1 = memory a /\
  memorySize a1 = memorySize a /\ path a1 = path a /\
  movementProgress a1 = movementProgress a /\ movementSpeed a1 = movementSpeed a /\
  (state a1 = state a \/ state a1 = RESTING).
Proof.
  unfold Ant.updateFatigue. destruct (_ && _); simpl; repeat split; auto.
Qed.

Lemma updateMovement_fields (dt : Q) (c c' : t) (a a' : Ant) :
  Ant.updateMovement random dt c a = Some (c', a') ->
  a' = Ant.setProgress a
         (if Qltb 1 (movementProgress a + movementSpeed a * dt)
          then 1%Q else (movementProgress a + movementSpeed a * dt)%Q) /\
  graph c' = graph c /\ resources c' = resources c /\ ants c' = ants c /\
  params c' = params c /\ nestId c' = nestId c.
Proof.
  unfold Ant.updateMovement, Ant.shouldDepositPheromone, Ant.depositPheromone,
    depositPheromone. simpl.
  destruct (Graph.getNodePosition _ _); [|discriminate].
  destruct (Graph.getNodePosition _ _); [|discriminate].
  destruct (state a); repeat case_match; intros [= <- <-]; simplify_eq; done.
Qed.

Lemma moveToNode_fields (a : Ant) (n : string) :
  n <> EmptyString ->
  let a' := Ant.moveToNode a (Some n) in
  currentNodeId a' = n /\ previousNodeId a' = Some (currentNodeId a) /\
  movementProgress a' = 0%Q /\ state a' = state a /\ carrying a' = carrying a /\
  role a' = role a /\ memorySize a' = memorySize a /\
  movementSpeed a' = movementSpeed a /\ fatigue a' = fatigue a /\
  memory a' = (if bool_decide (memorySize a < length (memory a ++ [n]))%nat
               then tail (memory a ++ [n]) else memory a ++ [n]).
Proof.
  intros Hn. unfold Ant.moveToNode. simpl.
  rewrite bool_decide_eq_false_2 by done. simpl. repeat split; done.
Qed.

Lemma drew_fields (c c1 : t) :
  drew c c1 ->
  graph c1 = graph c /\ resources c1 = resources c /\ ants c1 = ants c /\
  params c1 = params c /\ nestId c1 = nestId c /\ pheromones c1 = pheromones c.
Proof. intros [->| ->]; done. Qed.

(** X21: in one update an ant keeps its node, or it moves to a listed
    neighbour of its node, remembers the node it left as previous and
    restarts its progress at 0; it moves only when its progress had reached
    1. *)
Theorem ant_moves_along_edges (dt : Q) (c c' : t) (a a' : Ant) :
  Ant.update random dt c a = Some (c', a') ->
  (currentNodeId a' = currentNodeId a /\ previousNodeId a' = previousNodeId a) \/
  (nextNode c a (currentNodeId a') /\
   previousNodeId a' = Some (currentNodeId a) /\
   movementProgress a' = 0%Q /\ (1 <= movementProgress a)%Q).
Proof.
  intros H. apply update_cases in H.
  destruct (updateFatigue_fields dt a)
    as (Hcur & Hprev & _ & _ & _ & _ & _ & Hprog & _).
  set (a1 := Ant.updateFatigue dt a) in *.
  assert (Hmoved : forall n, nextNode c a n ->
            Qltb (movementProgress a1) 1 = false ->
            nextNode c a (currentNodeId (Ant.moveToNode a1 (Some n))) /\
            previousNodeId (Ant.moveToNode a1 (Some n)) = Some (currentNodeId a) /\
            movementProgress (Ant.moveToNode a1 (Some n)) = 0%Q /\
            (1 <= movementProgress a)%Q).
  { intros n Hn Hp. destruct (moveToNode_fields a1 n (proj1 Hn)) as (-> & -> & -> & _).
    rewrite Hcur. repeat split; try apply Hn. rewrite <- Hprog. by apply Qltb_ge. }
  assert (Hcheck : forall c1 a2,
            Ant.checkForResources c1 a2 = Some (c', a') ->
            currentNodeId a' = currentNodeId a2 /\
            previousNodeId a' = previousNodeId a2 /\
            movementProgress a' = movementProgress a2).
  { intros c1 a2 Hc. apply checkForResources_cases in Hc
      as (node & _ & [[_ ->]|[(_ & _ & _ & -> & _)|(_ & _ & _ & ->)]]); done. }
  destruct H as [[_ Hm]|[Hp [(_ & _ & ->)|[(_ & _ & [->|(n & Hn & ->)])|
                 [(_ & _ & ->)|[(_ & _ & ->)|[(_ & c1 & n & _ & Hn & Hc)|
                 (_ & c1 & _ & Hc)]]]]]]].
  - apply updateMovement_fields in Hm as (-> & _). left. simpl. by rewrite Hcur, Hprev.
  - left. unfold Ant.rest. destruct (Qle_bool _ 0); simpl; by rewrite Hcur, Hprev.
  - left. by rewrite Hcur, Hprev.
  - right. by apply Hmoved.
  - left. simpl. by rewrite Hcur, Hprev.
  - left. by rewrite Hcur, Hprev.
  - right. apply Hcheck in Hc as (-> & -> & ->). by apply Hmoved.
  - left. apply Hcheck in Hc as (-> & -> & _). simpl. by rewrite Hcur, Hprev.
Qed.

Lemma moveToNode_memory (a : Ant) (n : string) :
  n <> EmptyString ->
  (length (memory a) <= memorySize a)%nat ->
  is_Some (last (memory a)) ->
  (length (memory (Ant.moveToNode a (Some n))) <= memorySize a)%nat /\
  last (memory (Ant.moveToNode a (Some n))) = Some n.
Proof.
  intros Hn Hlen [x Hlast].
  destruct (moveToNode_fields a n Hn) as (_ & _ & _ & _ & _ & _ & _ & _ & _ & ->).
  assert (Hl : length (memory a ++ [n]) = S (length (memory a)))
    by (rewrite length_app; simpl; lia).
  case_bool_decide as E.
  - destruct (memory a) as [|y mem] eqn:Hm; [discriminate|]. simpl in *.
    split; [rewrite length_app; simpl; lia|]. apply last_snoc.
  - split; [lia|apply last_snoc].
Qed.

(** X22: for a non-negative tick length an update keeps the progress of an
    ant within [0, 1], its fatigue and speed non-negative, its memory
    within its size and ending with the node it is on; role, memory size
    and speed never change. *)
Theorem ant_stays_in_range (dt : Q) (c c' : t) (a a' : Ant) :
  (0 <= dt)%Q -> antInRange a ->
  Ant.update random dt c a = Some (c', a') ->
  antInRange a' /\ role a' = role a /\ memorySize a' = memorySize a /\
  movementSpeed a' = movementSpeed a.
Proof.
  intros Hdt (Hprog & Hfat & Hspeed & Hlen & Hlast) H. apply update_cases in H.
  destruct (updateFatigue_fields dt a)
    as (Hcur1 & _ & Hrole1 & Hcarry1 & Hmem1 & Hsize1 & _ & Hprog1 & Hspeed1 & _).
  pose proof (updateFatigue_fatigue dt a) as Hfat1.
  set (a1 := Ant.updateFatigue dt a) in *.
  assert (Hrate : (0 <= fatigueRate a * dt)%Q).
  { unfold fatigueRate. destruct (truthy (carrying a)); nra. }
  assert (H1 : antInRange a1 /\ role a1 = role a /\ memorySize a1 = memorySize a /\
               movementSpeed a1 = movementSpeed a).
  { unfold antInRange. rewrite Hprog1, Hfat1, Hspeed1, Hmem1, Hsize1, Hcur1.
    repeat split; auto; lra. }
  destruct H1 as ((Hp1 & Hf1 & Hs1 & Hl1 & Hlast1) & Hr1 & Hsz1 & Hsp1).
  assert (Hmoved : forall n, n <> EmptyString ->
            antInRange (Ant.moveToNode a1 (Some n)) /\
            role (Ant.moveToNode a1 (Some n)) = role a /\
            memorySize (Ant.moveToNode a1 (Some n)) = memorySize a /\
            movementSpeed (Ant.moveToNode a1 (Some n)) = movementSpeed a).
  { intros n Hn.
    destruct (moveToNode_memory a1 n Hn Hl1) as [Hlen' Hlast']; [by rewrite Hlast1|].
    destruct (moveToNode_fields a1 n Hn)
      as (Hc & _ & Hp & _ & _ & Hr & Hsz & Hsp & Hf & _).
    unfold antInRange. rewrite Hc, Hp, Hr, Hsz, Hsp, Hf.
    repeat split; auto; try lra; congruence. }
  assert (Hcheck : forall c1 a2,
            Ant.checkForResources c1 a2 = Some (c', a') ->
            antInRange a2 /\ role a2 = role a /\ memorySize a2 = memorySize a /\
            movementSpeed a2 = movementSpeed a ->
            antInRange a' /\ role a' = role a /\ memorySize a' = memorySize a /\
            movementSpeed a' = movementSpeed a).
  { intros c1 a2 Hc Ha2. apply checkForResources_cases in Hc
      as (node & _ & [[_ ->]|[(_ & _ & _ & -> & _)|(_ & _ & _ & ->)]]); done. }
  destruct H as [[_ Hm]|[Hp [(_ & _ & ->)|[(_ & _ & [->|(n & Hn & ->)])|
                 [(_ & _ & ->)|[(_ & _ & ->)|[(_ & c1 & n & _ & Hn & Hc)|
                 (_ & c1 & _ & Hc)]]]]]]].
  - apply updateMovement_fields in Hm as (-> & _). unfold antInRange. simpl.
    repeat split; auto; destruct (Qltb 1 _) eqn:E; try lra;
      try (apply Qltb_ge in E; lra); nra.
  - unfold Ant.rest, antInRange. simpl.
    destruct (Qle_bool _ 0) eqn:E; simpl; repeat split; auto; try lra.
    assert (Hlt : Qltb 0 (fatigue a1 - 0.2 * dt) = true)
      by (unfold Qltb; by rewrite E).
    apply Qltb_lt in Hlt. lra.
  - done.
  - apply Hmoved, Hn.
  - done.
  - done.
  - eapply Hcheck; [exact Hc|]. apply Hmoved, Hn.
  - eapply Hcheck; [exact Hc|]. done.
Qed.

End AntProperties.

Section AntExamples.

Import AntColony.

Lemma ant_moves_along_edges_witness :
  exists c' a',
    Ant.update (λ _, 0%Q) 1 transitColony
      homingAnt
    = Some (c', a') /\
    currentNodeId a' = "m"%string.
Proof.
  destruct (Ant.update (λ _, 0%Q) 1 transitColony
              homingAnt)
    as [[c' a']|] eqn:H; [|vm_compute in H; discriminate].
  exists c', a'. split; [reflexivity|].
  destruct (ant_moves_along_edges _ _ _ _ _ _ H) as [[Hsame _]|[[_ Hnb] _]].
  - vm_compute in H. injection H as _ <-. discriminate.
  - simpl in Hnb. vm_compute in H. injection H as _ <-. reflexivity.
Defined.

Lemma ant_stays_in_range_witness :
  exists c' a',
    Ant.update (λ _, 0%Q) 1 transitColony
      homingAnt
    = Some (c', a') /\
    antInRange a'.
Proof.
  destruct (Ant.update (λ _, 0%Q) 1 transitColony
              homingAnt)
    as [[c' a']|] eqn:H; [|vm_compute in H; discriminate].
  exists c', a'. split; [reflexivity|].
  apply (ant_stays_in_range (λ _, 0%Q) 1 transitColony c' homingAnt a'); [lra| |exact H].
  unfold antInRange. simpl. repeat split; try lra; try lia.
Defined.

End AntExamples.

Section ColonyProperties.

Import AntColony.

Variable random : nat -> Q.

Lemma updateFatigue_carrier (dt : Q) (a : Ant) :
  carrierReturns a -> carrierReturns (Ant.updateFatigue dt a).
Proof.
  intros Ha. destruct (updateFatigue_fields dt a)
    as (_ & _ & _ & Hc & _ & _ & _ & _ & _ & Hs).
  unfold carrierReturns. rewrite Hc. intros Ht. destruct Hs as [-> | ->]; auto.
Qed.

Lemma not_carrying (a : Ant) :
  carrierReturns a -> state a = EXPLORING \/ state a = FOLLOWING ->
  truthy (carrying a) = false.
Proof.
  intros Ha Hs. destruct (truthy (carrying a)) eqn:E; [|done].
  destruct (Ha E) as [H|H]; rewrite H in Hs; by destruct Hs.
Qed.

Lemma checkForResources_carrier (c c' : t) (a a' : Ant) :
  truthy (carrying a) = false ->
  Ant.checkForResources c a = Some (c', a') ->
  resources c' = resources c /\ params c' = params c /\ nestId c' = nestId c /\
  ants c' = ants c /\ spawnTimer c' = spawnTimer c /\ pheromones c' = pheromones c /\
  carrierReturns a'.
Proof.
  intros Hc H. apply checkForResources_cases in H
    as (node & _ & [[-> ->]|[(_ & _ & _ & -> & node' & -> & _)|(_ & Ht & _)]]).
  - repeat split; auto. intros Ht. congruence.
  - repeat split; auto. intros _. by left.
  - congruence.
Qed.

Lemma update_carrier (dt : Q) (c c' : t) (a a' : Ant) :
  carrierReturns a ->
  Ant.update random dt c a = Some (c', a') ->
  resources c' = resources c /\ carrierReturns a'.
Proof.
  intros Ha H. apply update_cases in H.
  pose proof (updateFatigue_carrier dt a Ha) as Ha1.
  set (a1 := Ant.updateFatigue dt a) in *.
  destruct H as [[_ Hm]|[Hp [(Hs & -> & ->)|[(Hs & Hd & [->|(n & Hn & ->)])|
                 [(Hs & -> & ->)|[(Hs & Hd & ->)|[(Hs & c1 & n & Hd & Hn & Hc)|
                 (Hs & c1 & Hd & Hc)]]]]]]].
  - apply updateMovement_fields in Hm as (-> & _ & Hr & _). split; [done|]. exact Ha1.
  - split; [done|]. unfold Ant.rest, carrierReturns.
    destruct (Qle_bool _ 0); simpl; [|auto].
    destruct (truthy (carrying a1)); [by left|discriminate].
  - apply drew_fields in Hd as (_ & Hr & _). done.
  - apply drew_fields in Hd as (_ & Hr & _). split; [done|].
    destruct (moveToNode_fields a1 n (proj1 Hn)) as (_ & _ & _ & Hst & Hca & _).
    unfold carrierReturns. rewrite Hst, Hca. exact Ha1.
  - split; [done|]. intros _. by left.
  - apply drew_fields in Hd as (_ & Hr & _). done.
  - apply drew_fields in Hd as (_ & Hr & _).
    destruct (moveToNode_fields a1 n (proj1 Hn)) as (_ & _ & _ & Hst & Hca & _).
    apply checkForResources_carrier in Hc as (Hr' & _ & _ & _ & _ & _ & Ha').
    + split; [congruence|done].
    + rewrite Hca. by apply not_carrying.
  - apply drew_fields in Hd as (_ & Hr & _).
    apply checkForResources_carrier in Hc as (Hr' & _ & _ & _ & _ & _ & Ha').
    + split; [congruence|done].
    + simpl. apply not_carrying; auto.
Qed.

Lemma antsInOrder_carrier (dt : Q) (c c1 : t) (l l1 : list Ant) :
  antsInOrder random dt c l c1 l1 ->
  Forall carrierReturns l ->
  resources c1 = resources c /\ Forall carrierReturns l1.
Proof.
  induction 1 as [c|c a c1 a1 rest c2 rest1 Hup Hrest IH]; intros Hall.
  - done.
  - apply Forall_cons in Hall as [Ha Hall].
    destruct (update_carrier dt c c1 a a1 Ha Hup) as [Hr Ha1].
    destruct (IH Hall) as [Hr' Hall']. split; [congruence|by constructor].
Qed.

Lemma updateAntSpawning_ants (dt : Q) (c : t) :
  let c' := updateAntSpawning dt c in
  (ants c' = ants c \/
   (exists r, ants c' = ants c ++ [newAnt (nestId c) r]) /\
   (inject_Z (Z.of_nat (length (ants c))) < maxAnts (params c))%Q) /\
  nestId c' = nestId c.
Proof.
  cbv zeta. unfold updateAntSpawning.
  destruct (Qle_bool (maxAnts (params c)) _) eqn:E; [split; [by left|done]|].
  assert (Hlt : (inject_Z (Z.of_nat (length (ants c))) < maxAnts (params c))%Q).
  { apply Qltb_lt. unfold Qltb. by rewrite E. }
  destruct (Qeq_bool (antSpawnRate (params c)) 0); [split; [left|]; reflexivity|].
  destruct (Qle_bool (1 / antSpawnRate (params c)) _); [|split; [left|]; reflexivity].
  split; [|reflexivity]. right. split; [|done]. eexists. reflexivity.
Qed.

Lemma update_carriers (dt : Q) (c c' : t) :
  Forall carrierReturns (ants c) ->
  update random dt c = Some c' ->
  resources c' = resources c /\ Forall carrierReturns (ants c').
Proof.
  intros Hall. unfold update.
  destruct (updateAnts random dt c [] (ants c)) as [[c1 ants1]|] eqn:Hu; [|discriminate].
  intros [= <-]. apply updateAnts_inOrder in Hu as (rest1 & -> & Hord). simpl in *.
  destruct (antsInOrder_carrier dt c c1 (ants c) rest1 Hord Hall) as [Hr Hall1].
  destruct (updateAntSpawning_effect dt (setAnts c1 rest1)) as (_ & _ & _ & Hr2 & _).
  destruct (updateAntSpawning_ants dt (setAnts c1 rest1)) as [[Ha|[[r Ha] _]] _].
  - simpl in *. split; [congruence|]. by rewrite Ha.
  - simpl in *. split; [congruence|]. rewrite Ha. apply Forall_app. split; [done|].
    constructor; [|constructor]. intros Ht. destruct r; discriminate.
Qed.

(** X23: in a colony whose carrying ants are all returning or resting, as the
    ants it spawns are and stay, no run of ticks changes the resources of
    the colony: [checkForResources] is reached only from [explore] and
    [followTrail], where the ant carries nothing, so [addResource] is never
    called. *)
Theorem harvest_never_delivered (dts : list Q) (c c' : t) :
  Forall carrierReturns (ants c) ->
  runColony random dts c = Some c' ->
  resources c' = resources c /\ Forall carrierReturns (ants c').
Proof.
  revert c. induction dts as [|dt dts IH]; intros c Hall; simpl.
  - by intros [= <-].
  - destruct (update random dt c) as [c1|] eqn:Hu; [|discriminate].
    destruct (update_carriers dt c c1 Hall Hu) as [Hr Hall1].
    intros H. destruct (IH c1 Hall1 H) as [Hr' Hall']. split; [congruence|done].
Qed.

(** X24: an update of an ant changes the graph only by a pickup: the node the
    ant is on afterwards is a food source that had resources, it loses
    exactly one unit, the ant carried nothing before and is returning with
    food afterwards. *)
Theorem pickup_accounting (dt : Q) (c c' : t) (a a' : Ant) :
  Ant.update random dt c a = Some (c', a') ->
  graph c' = graph c \/
  exists node node',
    Graph.nodes (graph c) !! currentNodeId a' = Some node /\
    Graph.type node = Graph.FOOD_SOURCE /\ (0 < Graph.resources node)%Q /\
    graph c' = GameManager.setGraphNodes (graph c)
                 (<[currentNodeId a' := node']> (Graph.nodes (graph c))) /\
    (Graph.resources node' == Graph.resources node - 1)%Q /\
    sameIdentity node node' /\
    truthy (carrying a) = false /\ carrying a' = Some "FOOD"%string /\
    state a' = RETURNING.
Proof.
  intros H. apply update_cases in H.
  destruct (updateFatigue_fields dt a) as (_ & _ & _ & Hcarry & _).
  set (a1 := Ant.updateFatigue dt a) in *.
  assert (Hcheck : forall c1 a2,
            drew c c1 -> carrying a2 = carrying a ->
            Ant.checkForResources c1 a2 = Some (c', a') ->
            graph c' = graph c \/
            exists node node',
              Graph.nodes (graph c) !! currentNodeId a' = Some node /\
              Graph.type node = Graph.FOOD_SOURCE /\ (0 < Graph.resources node)%Q /\
              graph c' = GameManager.setGraphNodes (graph c)
                           (<[currentNodeId a' := node']> (Graph.nodes (graph c))) /\
              (Graph.resources node' == Graph.resources node - 1)%Q /\
              sameIdentity node node' /\
              truthy (carrying a) = false /\ carrying a' = Some "FOOD"%string /\
              state a' = RETURNING).
  { intros c1 a2 Hd Hca Hc. apply drew_fields in Hd as (Hg & _).
    apply checkForResources_cases in Hc
      as (node & Hn & [[-> ->]|[(Hty & Hres & Ht & -> & node' & -> & Hr & Hid & _)|
                                (_ & _ & -> & _)]]).
    - by left.
    - right. exists node, node'. simpl. rewrite <- Hg, <- Hca. repeat split; auto;
        apply Hid.
    - by left. }
  destruct H as [[_ Hm]|[Hp [(Hs & -> & ->)|[(Hs & Hd & _)|
                 [(Hs & -> & ->)|[(Hs & Hd & ->)|[(Hs & c1 & n & Hd & Hn & Hc)|
                 (Hs & c1 & Hd & Hc)]]]]]]].
  - apply updateMovement_fields in Hm as (_ & Hg & _). by left.
  - by left.
  - apply drew_fields in Hd as (Hg & _). by left.
  - by left.
  - apply drew_fields in Hd as (Hg & _). by left.
  - eapply Hcheck; [exact Hd| |exact Hc].
    destruct (moveToNode_fields a1 n (proj1 Hn)) as (_ & _ & _ & _ & -> & _). done.
  - eapply Hcheck; [exact Hd| |exact Hc]. done.
Qed.

Lemma update_colony_fields (dt : Q) (c c' : t) (a a' : Ant) :
  Ant.update random dt c a = Some (c', a') ->
  params c' = params c /\ nestId c' = nestId c /\ ants c' = ants c.
Proof.
  intros H. apply update_cases in H.
  assert (Hcheck : forall c1 a2,
            drew c c1 -> Ant.checkForResources c1 a2 = Some (c', a') ->
            params c' = params c /\ nestId c' = nestId c /\ ants c' = ants c).
  { intros c1 a2 Hd Hc. apply drew_fields in Hd as (_ & _ & Ha & Hp & Hn & _).
    apply checkForResources_cases in Hc
      as (node & _ & [[-> _]|[(_ & _ & _ & _ & node' & -> & _)|(_ & _ & -> & _)]]);
      simpl; auto. }
  destruct H as [[_ Hm]|[Hp [(Hs & -> & ->)|[(Hs & Hd & _)|
                 [(Hs & -> & ->)|[(Hs & Hd & ->)|[(Hs & c1 & n & Hd & Hn & Hc)|
                 (Hs & c1 & Hd & Hc)]]]]]]]; eauto.
  - apply updateMovement_fields in Hm as (_ & _ & _ & Ha0 & Hp0 & Hn0). auto.
  - apply drew_fields in Hd as (_ & _ & Ha0 & Hp0 & Hn0 & _). auto.
  - apply drew_fields in Hd as (_ & _ & Ha0 & Hp0 & Hn0 & _). auto.
Qed.

Lemma antsInOrder_fields (dt : Q) (c c1 : t) (l l1 : list Ant) :
  antsInOrder random dt c l c1 l1 ->
  params c1 = params c /\ nestId c1 = nestId c /\ length l1 = length l /\
  Forall2 (λ a a', role a' = role a) l l1.
Proof.
  induction 1 as [c|c a c1 a1 rest c2 rest1 Hup Hrest IH].
  - repeat split; auto.
  - destruct (update_colony_fields dt c c1 a a1 Hup) as (Hp & Hn & _).
    destruct IH as (Hp' & Hn' & Hl & Hr).
    assert (Hrole : role a1 = role a).
    { apply update_cases in Hup.
      destruct (updateFatigue_fields dt a) as (_ & _ & Hro & _).
      set (x := Ant.updateFatigue dt a) in *.
      assert (Hcheck : forall cx a2, Ant.checkForResources cx a2 = Some (c1, a1) ->
                                     role a1 = role a2).
      { intros cx a2 Hc. apply checkForResources_cases in Hc
          as (node & _ & [[_ ->]|[(_ & _ & _ & -> & _)|(_ & _ & _ & ->)]]); done. }
      destruct Hup as [[_ Hm]|[_ [(_ & _ & ->)|[(_ & _ & [->|(n & Hn0 & ->)])|
                 [(_ & _ & ->)|[(_ & _ & ->)|[(_ & cx & n & _ & Hn0 & Hc)|
                 (_ & cx & _ & Hc)]]]]]]]; try done.
      - apply updateMovement_fields in Hm as (-> & _). done.
      - unfold Ant.rest. by destruct (Qle_bool _ 0).
      - destruct (moveToNode_fields x n (proj1 Hn0)) as (_ & _ & _ & _ & _ & -> & _). done.
      - apply Hcheck in Hc as ->.
        destruct (moveToNode_fields x n (proj1 Hn0)) as (_ & _ & _ & _ & _ & -> & _). done.
      - apply Hcheck in Hc as ->. done. }
    repeat split; simpl; try congruence. by constructor.
Qed.

(** X25: with an integer [maxAnts] that the colony does not exceed, a tick
    keeps every ant with its role, adds at most one and does not exceed
    [maxAnts]; the parameters and the nest stay. *)
Theorem population_capped (dt : Q) (c c' : t) (m : nat) :
  (maxAnts (params c) == inject_Z (Z.of_nat m))%Q ->
  (length (ants c) <= m)%nat ->
  update random dt c = Some c' ->
  (length (ants c) <= length (ants c') <= m)%nat /\
  (length (ants c') <= S (length (ants c)))%nat /\
  Forall2 (λ a a', role a' = role a) (ants c) (take (length (ants c)) (ants c')) /\
  params c' = params c /\ nestId c' = nestId c.
Proof.
  intros Hmax Hlen. unfold update.
  destruct (updateAnts random dt c [] (ants c)) as [[c1 ants1]|] eqn:Hu; [|discriminate].
  intros [= <-]. apply updateAnts_inOrder in Hu as (rest1 & -> & Hord). simpl in *.
  destruct (antsInOrder_fields dt c c1 (ants c) rest1 Hord) as (Hp & Hn & Hl & Hroles).
  destruct (updateAntSpawning_effect dt (setAnts c1 rest1)) as (_ & _ & _ & _ & Hp2).
  destruct (updateAntSpawning_ants dt (setAnts c1 rest1)) as [Hants Hn2].
  simpl in *. rewrite Hp2, Hn2, Hp, Hn.
  destruct Hants as [Ha|[[r Ha] Hlt]]; rewrite Ha.
  - rewrite Hl, <- Hl, firstn_all. repeat split; auto; lia.
  - rewrite length_app. simpl. rewrite Hl.
    rewrite <- Hl, take_app_length. repeat split; auto; try lia.
    rewrite Hl, Hp, Hmax in Hlt. rewrite <- Zlt_Qlt in Hlt. lia.
Qed.

End ColonyProperties.

Section ColonyExamples.

Import AntColony.

Lemma harvest_never_delivered_witness :
  exists c',
    runColony (λ _, 0%Q) [1; 1]%Q transitColony = Some c' /\
    resources c' = resources transitColony.
Proof.
  destruct (runColony (λ _, 0%Q) [1; 1]%Q transitColony) as [c'|] eqn:H;
    [|vm_compute in H; discriminate].
  exists c'. split; [reflexivity|].
  apply (harvest_never_delivered (λ _, 0%Q) [1; 1]%Q transitColony c'); [|exact H].
  constructor; [|constructor]. intros _. by left.
Defined.

Lemma pickup_accounting_witness :
  exists c' a',
    Ant.update (λ _, 0%Q) 1 foragingColony scoutingAnt = Some (c', a') /\
    (graph c' = graph foragingColony \/ carrying a' = Some "FOOD"%string).
Proof.
  destruct (Ant.update (λ _, 0%Q) 1 foragingColony scoutingAnt) as [[c' a']|] eqn:H;
    [|vm_compute in H; discriminate].
  exists c', a'. split; [reflexivity|].
  destruct (pickup_accounting (λ _, 0%Q) 1 foragingColony c' scoutingAnt a' H)
    as [Hg|(node & node' & _ & _ & _ & _ & _ & _ & _ & Hc & _)];
    [by left|by right].
Defined.

Lemma population_capped_witness :
  exists c',
    update (λ _, 0%Q) 10 transitColony = Some c' /\
    (length (ants c') <= 100)%nat.
Proof.
  destruct (update (λ _, 0%Q) 10 transitColony) as [c'|] eqn:H;
    [|vm_compute in H; discriminate].
  exists c'. split; [reflexivity|].
  destruct (population_capped (λ _, 0%Q) 10 transitColony c' 100) as [[_ Hm] _];
    [reflexivity|simpl; lia|exact H|exact Hm].
Defined.

End ColonyExamples.

Section Homing.

Import AntColony.

Variable random : nat -> Q.

(** The loop of [returnToNest]: the result is the first neighbour whose
    distance is below [d] and not above any other neighbour's. *)
Lemma closest_spec (g : Graph.t) (neighbors : list string) :
  forall best d r,
    Ant.closest g neighbors best d = Some r ->
    exists d',
      dist_le d' d /\
      (r = best /\ d' = d \/
       exists n node, r = Some n /\ n ∈ neighbors /\
                      Graph.nodes g !! n = Some node /\
                      Graph.distanceToNest node = d' /\ Graph.dist_ltb d' d = true) /\
      Forall (λ x, exists node, Graph.nodes g !! x = Some node /\
                                dist_le d' (Graph.distanceToNest node)) neighbors.
Proof.
  induction neighbors as [|n neighbors IH]; intros best d r; simpl.
  - intros [= <-]. exists d. split; [|split; [by left|constructor]].
    unfold dist_le. destruct d; simpl; [|done]. apply bool_decide_eq_false. lia.
  - unfold Graph.getNode. destruct (Graph.nodes g !! n) as [node|] eqn:Hn; [|discriminate].
    destruct (Graph.dist_ltb (Graph.distanceToNest node) d) eqn:Hlt; intros H;
      apply IH in H as (d' & Hle & Hr & Hall); exists d'.
    + assert (Hd : dist_le d' d).
      { unfold dist_le in *. destruct d', d, (Graph.distanceToNest node); simpl in *;
          try done; revert Hle Hlt;
          rewrite ?bool_decide_eq_true, ?bool_decide_eq_false; try lia. }
      split; [exact Hd|]. split.
      * right. destruct Hr as [[-> ->]|(m & nodem & -> & Hm & Hnm & Hdm & Hltm)].
        -- exists n, node. repeat split; auto. by left.
        -- exists m, nodem. repeat split; auto; [by right|].
           subst d'. clear Hle Hd Hall.
           destruct (Graph.distanceToNest nodem), d, (Graph.distanceToNest node);
             simpl in *; try done; revert Hltm Hlt;
             rewrite ?bool_decide_eq_true; lia.
      * constructor; [|exact Hall]. exists node. done.
    + split; [exact Hle|]. split.
      * destruct Hr as [[-> ->]|(m & nodem & -> & Hm & Hnm & Hdm & Hltm)];
          [by left|right].
        exists m, nodem. repeat split; auto. by right.
      * constructor; [|exact Hall]. exists node. split; [done|].
        unfold dist_le in *. destruct d', d, (Graph.distanceToNest node); simpl in *;
          try done; revert Hle Hlt;
          rewrite ?bool_decide_eq_true, ?bool_decide_eq_false; try lia.
Qed.

(** X26: when a neighbour of the ant has a finite distance to the nest,
    [returnToNest] draws no random number and moves the ant to a neighbour
    whose distance is finite and not above that of any other neighbour. *)
Theorem returnToNest_takes_closest (c c' : t) (a a' : Ant) (x : string)
    (nodex : Graph.Node) (k : nat) :
  Graph.nodes (graph c) !! EmptyString = None ->
  x ∈ Graph.getNeighbors (graph c) (currentNodeId a) ->
  Graph.nodes (graph c) !! x = Some nodex ->
  Graph.distanceToNest nodex = Graph.Hops k ->
  Ant.returnToNest random c a = Some (c', a') ->
  c' = c /\
  currentNodeId a' ∈ Graph.getNeighbors (graph c) (currentNodeId a) /\
  previousNodeId a' = Some (currentNodeId a) /\
  exists node' k',
    Graph.nodes (graph c) !! currentNodeId a' = Some node' /\
    Graph.distanceToNest node' = Graph.Hops k' /\ (k' <= k)%nat /\
    Forall (λ y, exists node, Graph.nodes (graph c) !! y = Some node /\
                              dist_le (Graph.Hops k') (Graph.distanceToNest node))
      (Graph.getNeighbors (graph c) (currentNodeId a)).
Proof.
  intros Hempty Hx Hnx Hdx. unfold Ant.returnToNest.
  destruct (Ant.closest (graph c) _ None Graph.Infinity) as [best|] eqn:Hc; [|discriminate].
  apply closest_spec in Hc as (d' & _ & Hr & Hall).
  assert (Hxd : dist_le d' (Graph.Hops k)).
  { rewrite Forall_forall in Hall. destruct (Hall x Hx) as (node & Hn & Hle).
    rewrite Hnx in Hn. injection Hn as <-. by rewrite Hdx in Hle. }
  destruct Hr as [[-> ->]|(n & node & -> & Hn & Hnode & Hd & Hlt)]; [done|].
  assert (Hne : n <> EmptyString) by (intros ->; congruence).
  assert (Ht : truthy (Some n) = true).
  { simpl. by rewrite bool_decide_eq_false_2. }
  rewrite Ht. intros H.
  assert (a' = Ant.moveToNode a (Some n) /\ c' = c) as [-> ->] by (by injection H).
  destruct (moveToNode_fields a n Hne) as (-> & -> & _).
  split; [done|]. split; [done|]. split; [done|].
  destruct d' as [k'|]; [|done]. exists node, k'. split; [done|]. split; [done|].
  split; [|done]. unfold dist_le in Hxd. simpl in Hxd.
  apply bool_decide_eq_false in Hxd. lia.
Qed.

(** X27: [selectBasedOnProbability] returns undefined exactly for an empty
    list and the id of a candidate otherwise; with a sum of 0 it returns
    the first candidate without a random draw, otherwise it draws once. *)
Theorem selection_returns_candidate (c c1 : t) (probabilities : list (string * Q))
    (sel : option string) :
  Ant.selectBasedOnProbability random c probabilities = (sel, c1) ->
  (probabilities = [] <-> sel = None) /\
  (forall n, sel = Some n -> n ∈ map fst probabilities) /\
  (Qeq_bool (fold_left (λ acc item, (acc + snd item)%Q) probabilities 0%Q) 0 = true ->
   c1 = c /\ sel = fst <$> head probabilities) /\
  (Qeq_bool (fold_left (λ acc item, (acc + snd item)%Q) probabilities 0%Q) 0 = false ->
   c1 = setDraws c (S (draws c))).
Proof.
  intros Hsel.
  pose proof (selectBasedOnProbability_member random c c1 probabilities sel Hsel)
    as [_ Hmem].
  split; [|split; [|split]].
  - split.
    + intros ->. unfold Ant.selectBasedOnProbability in Hsel. simpl in Hsel.
      by injection Hsel as <- _.
    + intros ->. exact Hmem.
  - intros n ->. exact Hmem.
  - intros Hz. unfold Ant.selectBasedOnProbability in Hsel.
    rewrite Hz in Hsel. by injection Hsel as <- <-.
  - intros Hz. unfold Ant.selectBasedOnProbability in Hsel.
    rewrite Hz in Hsel. destruct (Ant.pick _ _ _); by injection Hsel as _ <-.
Qed.

End Homing.

Section HomingExamples.

Import AntColony.

Lemma returnToNest_takes_closest_witness :
  exists c' a',
    Ant.returnToNest (λ _, 0%Q) homeColony farAnt = Some (c', a') /\
    c' = homeColony /\ previousNodeId a' = Some "c"%string.
Proof.
  destruct (Ant.returnToNest (λ _, 0%Q) homeColony farAnt) as [[c' a']|] eqn:H;
    [|vm_compute in H; discriminate].
  exists c', a'. split; [reflexivity|].
  destruct (returnToNest_takes_closest (λ _, 0%Q) homeColony c' farAnt a' "b"
              (Graph.mkNode "b" Graph.NORMAL (Graph.mkPosition 10 0 0) 1 10 0
                 (Graph.Hops 1) false false 0 0 None) 1)
    as (Hc & _ & Hp & _);
    [vm_compute; reflexivity|vm_compute; by left|vm_compute; reflexivity|reflexivity
    |exact H|].
  split; [exact Hc|exact Hp].
Defined.

Lemma selection_returns_candidate_witness :
  Ant.selectBasedOnProbability (λ _, 0.5%Q) emptyColony
    [("a"%string, 1%Q); ("b"%string, 3%Q)]
  = (Some "b"%string, setDraws emptyColony 1) /\
  "b"%string ∈ map fst [("a"%string, 1%Q); ("b"%string, 3%Q)].
Proof.
  assert (H : Ant.selectBasedOnProbability (λ _, 0.5%Q) emptyColony
                [("a"%string, 1%Q); ("b"%string, 3%Q)]
              = (Some "b"%string, setDraws emptyColony 1))
    by (vm_compute; reflexivity).
  split; [exact H|].
  destruct (selection_returns_candidate (λ _, 0.5%Q) emptyColony _ _ _ H) as (_ & Hm & _).
  by apply Hm.
Defined.

End HomingExamples.

Section Construction.

Import AntColony.

Lemma findNest_spec (keys : list string) (g : Graph.t) (r : option string) :
  findNest keys g = Returned r ->
  match r with
  | Some i =>
    exists pre post n,
      keys = pre ++ i :: post /\ Graph.nodes g !! i = Some n /\
      Graph.type n = Graph.NEST /\
      Forall (λ k, exists m, Graph.nodes g !! k = Some m /\ Graph.type m <> Graph.NEST) pre
  | None =>
    Forall (λ k, exists m, Graph.nodes g !! k = Some m /\ Graph.type m <> Graph.NEST) keys
  end.
Proof.
  revert r. induction keys as [|k keys IH]; intros r; simpl.
  - intros [= <-]. constructor.
  - destruct (Graph.nodes g !! k) as [n|] eqn:Hk; [|discriminate].
    case_bool_decide as Hty.
    + intros [= <-]. exists [], keys, n. repeat split; auto.
    + intros H. specialize (IH r H). destruct r as [i|].
      * destruct IH as (pre & post & m & -> & Hi & Hm & Hpre).
        exists (k :: pre), post, m. repeat split; auto. constructor; eauto.
      * constructor; eauto.
Qed.

(** X28: the id that [findOrCreateNestNode] returns is a nest of the
    resulting graph; no other node and no pheromone changes; the graph is
    untouched when it holds a nest already; the edges stay unless the id
    is a generated one. *)
Theorem findOrCreateNestNode_nest (keys : list string) (fresh : string)
    (g g' : Graph.t) (i : string) :
  findOrCreateNestNode keys fresh g = Returned (i, g') ->
  (exists n, Graph.nodes g' !! i = Some n /\ Graph.type n = Graph.NEST) /\
  (forall k, k <> i -> Graph.nodes g' !! k = Graph.nodes g !! k) /\
  Graph.pheromones g' = Graph.pheromones g /\
  (forall k n, k ∈ keys -> Graph.nodes g !! k = Some n -> Graph.type n = Graph.NEST ->
               g' = g) /\
  (is_Some (Graph.nodes g !! i) -> Graph.edges g' = Graph.edges g \/ i = fresh).
Proof.
  unfold findOrCreateNestNode.
  destruct (findNest keys g) as [[j|]| |] eqn:Hf; try discriminate.
  - intros [= <- <-]. apply findNest_spec in Hf as (pre & post & n & -> & Hi & Hty & _).
    repeat split; eauto.
  - apply findNest_spec in Hf.
    assert (Hnone : forall k n, k ∈ keys -> Graph.nodes g !! k = Some n ->
                                Graph.type n = Graph.NEST -> g' = g).
    { intros k n Hk Hn Hty. rewrite Forall_forall in Hf.
      destruct (Hf k Hk) as (m & Hm & Hne). congruence. }
    destruct (truthy (head keys)) eqn:Ht.
    + apply truthy_Some in Ht as (first & Hh & Hne). rewrite Hh.
      destruct (Graph.nodes g !! first) as [node|] eqn:Hn; [|discriminate].
      intros [= <- <-]. simpl. rewrite lookup_insert_eq.
      repeat split; eauto. intros k Hk. by rewrite lookup_insert_ne.
    + intros [= <- <-]. simpl. rewrite lookup_insert_eq.
      repeat split; eauto. intros k Hk. by rewrite lookup_insert_ne.
Qed.

Lemma findOrCreateNestNode_nest_witness :
  exists n,
    findOrCreateNestNode ["a"; "b"; "c"; "d"]%string "x" lineGraph
    = Returned ("a"%string,
                GameManager.setGraphNodes lineGraph
                  (<["a"%string := setType n Graph.NEST]> (Graph.nodes lineGraph))) /\
    Graph.type (setType n Graph.NEST) = Graph.NEST.
Proof.
  exists (Graph.mkNode "a" Graph.NORMAL (Graph.mkPosition 0 0 0) 1 10 0
            Graph.Infinity false false 0 0 None).
  assert (H : findOrCreateNestNode ["a"; "b"; "c"; "d"]%string "x" lineGraph
              = Returned ("a"%string,
                          GameManager.setGraphNodes lineGraph
                            (<["a"%string :=
                                 setType (Graph.mkNode "a" Graph.NORMAL
                                            (Graph.mkPosition 0 0 0) 1 10 0
                                            Graph.Infinity false false 0 0 None)
                                   Graph.NEST]> (Graph.nodes lineGraph))))
    by (vm_compute; reflexivity).
  split; [exact H|].
  destruct (findOrCreateNestNode_nest _ _ _ _ _ H) as [(n & Hn & Hty) _].
  reflexivity.
Defined.

Lemma newAnt_fresh (nest : string) (r : Role) :
  freshAnt nest (newAnt nest r) /\ antInRange (newAnt nest r) /\
  carrierReturns (newAnt nest r).
Proof.
  split; [by repeat split|]. split.
  - unfold antInRange. simpl. repeat split; try lra; destruct r; simpl; try lia; lra.
  - intros Ht. discriminate.
Qed.

Lemma iter_spawnAnt (n : nat) (c : t) :
  let c' := Nat.iter n spawnAnt c in
  graph c' = graph c /\ nestId c' = nestId c /\ params c' = params c /\
  resources c' = resources c /\ pheromones c' = pheromones c /\
  spawnTimer c' = spawnTimer c /\
  exists l, ants c' = ants c ++ l /\ length l = n /\
            Forall (λ a, exists r, a = newAnt (nestId c) r) l.
Proof.
  induction n as [|n IH]; simpl.
  - repeat split; auto. exists []. by rewrite app_nil_r.
  - destruct IH as (Hg & Hn & Hp & Hr & Hph & Ht & l & Hl & Hlen & Hall).
    repeat split; auto.
    exists (l ++ [newAnt (nestId c) (determineAntRole (Nat.iter n spawnAnt c))]).
    rewrite Hl, Hn, <- app_assoc. split; [done|]. split.
    + rewrite length_app. simpl. lia.
    + apply Forall_app. split; [done|]. constructor; [by eexists|constructor].
Qed.

Lemma calculateDistances_target (fuel : nat) (g g' : Graph.t) (T : string) :
  Graph.calculateDistances fuel g T = Returned g' ->
  is_Some (Graph.nodes g !! T) /\ is_Some (Graph.nodes g' !! T).
Proof.
  intros H. assert (Hs : is_Some (Graph.nodes g !! T)).
  { destruct (Graph.nodes g !! T) as [n|] eqn:HT; [by eexists|].
    destruct fuel as [|fuel].
    - unfold Graph.calculateDistances in H. simpl in H. discriminate.
    - rewrite (calculateDistances_throws fuel g T HT) in H. discriminate. }
  split; [exact Hs|].
  destruct (calculateDistances_frame fuel g g' T H) as (Hn & _).
  destruct Hs as [n Hn0].
  assert (Hx : forgetDistances (Graph.nodes g') !! T = forgetDistances (Graph.nodes g) !! T)
    by (by rewrite Hn).
  unfold forgetDistances in Hx. rewrite !lookup_fmap, Hn0 in Hx.
  destruct (Graph.nodes g' !! T); [by eexists|discriminate].
Qed.

(** X29: a colony that the constructor returns has its nest in the graph,
    [ceil(initialAnts)] ants, all at the nest, exploring and empty-handed,
    the resources [{FOOD: 0}], no pheromones, a spawn timer of 0 and each
    parameter from the options or, when that is missing or 0, its
    default; a non-empty [options.nestId] is the nest. *)
Theorem create_initial_state (keys : list string) (fresh : string) (fuel : nat)
    (g : Graph.t) (options : Options) (c : t) :
  create keys fresh fuel g options = Returned c ->
  is_Some (Graph.nodes (graph c) !! nestId c) /\
  length (ants c) = rounds (initialAnts (params c)) /\
  Forall (λ a, freshAnt (nestId c) a /\ antInRange a /\ carrierReturns a) (ants c) /\
  resources c = {[ "FOOD"%string := 0%Q ]} /\ pheromones c = ∅ /\
  spawnTimer c = 0%Q /\
  params c
  = mkParams (num_or (opt_maxAnts options) 100)
      (num_or (opt_pheromoneDecayRate options) 0.05)
      (num_or (opt_antSpawnRate options) 0.1)
      (num_or (opt_initialAnts options) 10)
      (mkRatios (num_or (opt_workerRatio options) 0.7)
         (num_or (opt_scoutRatio options) 0.2)
         (num_or (opt_soldierRatio options) 0.1)) /\
  (truthy (opt_nestId options) = true -> opt_nestId options = Some (nestId c)).
Proof.
  unfold create.
  set (located := if truthy (opt_nestId options) then _ else _).
  destruct located as [[nest g1]| |] eqn:Hloc; try discriminate.
  set (ps := mkParams _ _ _ _ _).
  destruct (Graph.calculateDistances fuel g1 nest) as [g2| |] eqn:Hcd; try discriminate.
  intros [= <-].
  destruct (iter_spawnAnt (rounds (initialAnts ps))
              (mkColony g2 [] nest ∅ {[ "FOOD"%string := 0%Q ]} ps 0 0))
    as (Hg & Hn & Hp & Hr & Hph & Ht & l & Hl & Hlen & Hall).
  simpl in *. rewrite Hg, Hn, Hp, Hr, Hph, Ht, Hl. simpl.
  split; [by apply (calculateDistances_target fuel g1 g2 nest)|].
  split; [done|]. split.
  - eapply Forall_impl; [exact Hall|]. intros a [r ->]. apply newAnt_fresh.
  - repeat split; auto. intros Htr. unfold located in Hloc. rewrite Htr in Hloc.
    injection Hloc as <- _. by destruct (opt_nestId options).
Qed.

Lemma create_initial_state_witness :
  exists c,
    create ["a"; "b"; "c"; "d"]%string "x" 4 lineGraph
      (mkOptions (Some "a"%string) (Some 0%Q) None None (Some 3%Q) None None None)
    = Returned c /\
    length (ants c) = 3%nat /\ maxAnts (params c) = 100%Q.
Proof.
  destruct (create ["a"; "b"; "c"; "d"]%string "x" 4 lineGraph
              (mkOptions (Some "a"%string) (Some 0%Q) None None (Some 3%Q) None None None))
    as [c| |] eqn:H; [|vm_compute in H; discriminate..].
  exists c. split; [reflexivity|].
  destruct (create_initial_state _ _ _ _ _ _ H) as (_ & Hlen & _ & _ & _ & _ & Hp & _).
  rewrite Hlen, Hp. split; reflexivity.
Defined.

(** X30: the constructor throws for a non-empty [options.nestId] that is no
    node of the graph. *)
Theorem create_unknown_nest (keys : list string) (fresh : string) (fuel : nat)
    (g : Graph.t) (options : Options) (nest : string) :
  opt_nestId options = Some nest -> nest <> EmptyString ->
  Graph.nodes g !! nest = None ->
  create keys fresh (S fuel) g options = Threw.
Proof.
  intros Hopt Hne Hnone. unfold create. rewrite Hopt. simpl.
  rewrite bool_decide_eq_false_2 by done. simpl.
  by rewrite (calculateDistances_throws fuel g nest Hnone).
Qed.

Lemma create_unknown_nest_witness :
  create ["a"; "b"; "c"; "d"]%string "x" 1 lineGraph
    (mkOptions (Some "z"%string) None None None None None None None)
  = Threw.
Proof.
  apply (create_unknown_nest _ _ 0 lineGraph _ "z"); [reflexivity|done|reflexivity].
Defined.

End Construction.
